(** * HR-AI-Interviewer: the interview hooks, the camera wrapper and the
      analytics panel, embedded and checked against their specification

    The development follows the TypeScript sources:
    - [frontend/src/hooks/useInterview.ts]  (modules [Interview], [Listening],
      [Questions]),
    - [frontend/src/hooks/jd_gen_ques.ts]   (module [GeneratedQuestions]),
    - [frontend/src/hooks/useCamera.ts] and the [CameraCheck] screen
      (module [Camera]),
    - [frontend/src/components/InterviewAnalytics.tsx] (module [Analytics]),
    - [frontend/src/components/QuestionGenerator.tsx] (module
      [QuestionGenerator]).
    Further modules follow the same sources: [Navigation] (the index and
    what the hook derives from it), [Storage], [Identifiers], [Language] and
    [Requirements] (what the patterns of [submitResponse] match), [Streams]
    (the media streams of [useCamera]), [CameraCheck] (the self-test screen
    as a whole), [Bot] (the avatar), [Recognition] and [Ranges].
    The definitions come first, then sample inputs ([Samples], [Scenarios]),
    then the properties.

    Conventions.  A React hook is a record of state cells; each callback is a
    function of the values its closure reads (state cells, refs, arguments)
    and of what the platform hands back (clock, [Math.random], network
    replies), and it returns the values it passes to the state setters.  A
    callback of [useInterview] reads the cells of the render that created
    it and hands new values to the setters: it takes the render and the
    state at the call, and sets cells of the latter.  [Interview.step] is a
    call through the callbacks of the latest render, [Interview.run] a
    sequence of such calls, each made after the render that the previous
    one caused; [Interview.replay] lets every call go through the callbacks
    of any render so far.  [startCamera] of [useCamera] has no dependencies
    and keeps the closure of the first render ([Camera.firstRender]).
    JavaScript strings are [string]s whose characters are read as code units
    below 256.  Integer-valued numbers are in [Z]; a [Math.random()] draw is
    a binary64 number of the unit interval ([JsNumber.Draw]) and its
    products are rounded as binary64 rounds them; the quotients and
    thresholds of [completeInterview] and of the skin-tone detector are
    computed in binary64 ([SpecFloat], precision 53, [emax] 1024).  Speech
    synthesis is
    left out; the avatar record [aiBot], which no other state reads, is
    modelled apart in [Bot]. *)

From Stdlib Require Import ZArith QArith List String Ascii Bool Lia.
From Stdlib Require Import DecimalString DecimalNat Floats.SpecFloat.
Import ListNotations.

Open Scope Z_scope.

(* ====================================================================== *)
(** ** JavaScript strings *)
(* ====================================================================== *)

Module JsString.

Definition code (c : ascii) : N := N_of_ascii c.

Definition between (lo hi : N) (c : ascii) : bool :=
  (N.leb lo (code c) && N.leb (code c) hi)%bool.

Definition isDigit (c : ascii) : bool := between 48 57 c.
Definition isUpper (c : ascii) : bool := between 65 90 c.
Definition isLower (c : ascii) : bool := between 97 122 c.

(** [\w]: letters, digits and the underscore. *)
Definition isWordChar (c : ascii) : bool :=
  (isUpper c || isLower c || isDigit c || N.eqb (code c) 95)%bool.

(** [\s] on code units below 256: TAB, LF, VT, FF, CR, space, NBSP. *)
Definition isSpace (c : ascii) : bool :=
  (between 9 13 c || N.eqb (code c) 32 || N.eqb (code c) 160)%bool.

(** Line terminators below 256, which [.] does not match. *)
Definition isLineTerminator (c : ascii) : bool :=
  (N.eqb (code c) 10 || N.eqb (code c) 13)%bool.

(** Latin-1 capital letters: A-Z and U+00C0..U+00DE without U+00D7. *)
Definition hasLower (c : ascii) : bool :=
  (isUpper c || (between 192 222 c && negb (N.eqb (code c) 215)))%bool.

(** Latin-1 small letters whose capital is again below 256. *)
Definition hasUpper (c : ascii) : bool :=
  (isLower c || (between 224 254 c && negb (N.eqb (code c) 247)))%bool.

Definition toLowerCase_char (c : ascii) : ascii :=
  if hasLower c then ascii_of_N (code c + 32) else c.

Definition toUpperCase_char (c : ascii) : ascii :=
  if hasUpper c then ascii_of_N (code c - 32) else c.

Fixpoint map (f : ascii -> ascii) (s : string) : string :=
  match s with
  | EmptyString => EmptyString
  | String c s' => String (f c) (map f s')
  end.

(** [s.toLowerCase()] *)
Definition toLowerCase (s : string) : string := map toLowerCase_char s.

Fixpoint forallb (p : ascii -> bool) (s : string) : bool :=
  match s with
  | EmptyString => true
  | String c s' => (p c && forallb p s')%bool
  end.

Definition snoc (s : string) (c : ascii) : string :=
  (s ++ String c EmptyString)%string.

Definition isEmpty (s : string) : bool :=
  match s with EmptyString => true | _ => false end.

(** [s.split(sep)] for a separator that is a maximal run of characters
    satisfying [isSep] (the regular expression [[,\s]+] below): the pieces
    between the runs, an empty piece included when the string starts or
    ends with a run. *)
Fixpoint split_runs (isSep : ascii -> bool) (cur : string) (inRun : bool)
         (s : string) : list string :=
  match s with
  | EmptyString => [cur]
  | String c s' =>
      if isSep c
      then if inRun then split_runs isSep cur true s'
           else cur :: split_runs isSep EmptyString true s'
      else split_runs isSep (snoc cur c) false s'
  end.

Definition split (isSep : ascii -> bool) (s : string) : list string :=
  split_runs isSep EmptyString false s.

(** [s.split(c)[0]] for a one-character separator: what precedes the
    first occurrence of [c]. *)
Fixpoint before_first (c : ascii) (s : string) : string :=
  match s with
  | EmptyString => EmptyString
  | String d s' => if Ascii.eqb c d then EmptyString else String d (before_first c s')
  end.

(** [parts.join(sep)] *)
Fixpoint join (sep : string) (parts : list string) : string :=
  match parts with
  | [] => EmptyString
  | [p] => p
  | p :: rest => (p ++ sep ++ join sep rest)%string
  end.

Fixpoint trimStart (s : string) : string :=
  match s with
  | EmptyString => EmptyString
  | String c s' => if isSpace c then trimStart s' else s
  end.

Fixpoint trimEnd (s : string) : string :=
  match s with
  | EmptyString => EmptyString
  | String c s' =>
      match trimEnd s' with
      | EmptyString => if isSpace c then EmptyString else String c EmptyString
      | t => String c t
      end
  end.

(** [s.trim()] *)
Definition trim (s : string) : string := trimEnd (trimStart s).

(** A word of a string: a piece made of word characters only, with no
    word character right before it or right after it. *)
Fixpoint ends_with_word (s : string) : bool :=
  match s with
  | EmptyString => false
  | String c EmptyString => isWordChar c
  | String _ s' => ends_with_word s'
  end.

Definition starts_with_word (s : string) : bool :=
  match s with
  | EmptyString => false
  | String c _ => isWordChar c
  end.

Definition word_of (w s : string) : Prop :=
  exists pre post,
    s = (pre ++ w ++ post)%string /\
    forallb isWordChar w = true /\
    ends_with_word pre = false /\ starts_with_word post = false.

End JsString.

(* ====================================================================== *)
(** ** Regular expressions *)
(* ====================================================================== *)

Module RegExp.
Import JsString.

(** The constructs the patterns of [submitResponse] are written with. *)
Inductive regex : Type :=
| Never                       (* matches nothing *)
| Empty                       (* the empty alternative *)
| Chr (c : ascii)             (* a pattern character *)
| Digit                       (* \d *)
| AnyChar                     (* . *)
| Alt (r1 r2 : regex)         (* r1|r2 *)
| Seq (r1 r2 : regex)         (* r1r2 *)
| Star (r : regex).           (* r* *)

Definition Plus (r : regex) : regex := Seq r (Star r).   (* r+ *)
Definition Opt (r : regex) : regex := Alt r Empty.       (* r? *)

(** A run of pattern characters. *)
Fixpoint lit (s : string) : regex :=
  match s with
  | EmptyString => Empty
  | String c s' => Seq (Chr c) (lit s')
  end.

Fixpoint alts (rs : list regex) : regex :=
  match rs with
  | [] => Never
  | [r] => r
  | r :: rest => Alt r (alts rest)
  end.

Fixpoint nullable (r : regex) : bool :=
  match r with
  | Never => false
  | Empty => true
  | Chr _ | Digit | AnyChar => false
  | Alt r1 r2 => (nullable r1 || nullable r2)%bool
  | Seq r1 r2 => (nullable r1 && nullable r2)%bool
  | Star _ => true
  end.

(** With the [i] flag two characters match when their canonical (upper
    case) forms agree. *)
Definition chr_matches (ignoreCase : bool) (p c : ascii) : bool :=
  if ignoreCase
  then Ascii.eqb (toUpperCase_char p) (toUpperCase_char c)
  else Ascii.eqb p c.

Definition of_bool (b : bool) : regex := if b then Empty else Never.

(** What is left of [r] to match once [c] has been read. *)
Fixpoint deriv (ignoreCase : bool) (c : ascii) (r : regex) : regex :=
  match r with
  | Never | Empty => Never
  | Chr p => of_bool (chr_matches ignoreCase p c)
  | Digit => of_bool (isDigit c)
  | AnyChar => of_bool (negb (isLineTerminator c))
  | Alt r1 r2 => Alt (deriv ignoreCase c r1) (deriv ignoreCase c r2)
  | Seq r1 r2 =>
      if nullable r1
      then Alt (Seq (deriv ignoreCase c r1) r2) (deriv ignoreCase c r2)
      else Seq (deriv ignoreCase c r1) r2
  | Star r1 => Seq (deriv ignoreCase c r1) (Star r1)
  end.

(** Some prefix of [s] matches [r]. *)
Fixpoint matches_at_start (ignoreCase : bool) (r : regex) (s : string) : bool :=
  (nullable r ||
   match s with
   | EmptyString => false
   | String c s' => matches_at_start ignoreCase (deriv ignoreCase c r) s'
   end)%bool.

(** [regex.test(s)] for a regex without the [g] and [y] flags: a match
    starting at some index of [s]. *)
Fixpoint test (ignoreCase : bool) (r : regex) (s : string) : bool :=
  (matches_at_start ignoreCase r s ||
   match s with
   | EmptyString => false
   | String _ s' => test ignoreCase r s'
   end)%bool.

(** *** The [RegExp] constructor

    [new RegExp(source, 'i')] either throws a [SyntaxError] or yields an
    object whose [test] method is a predicate on strings. *)
Inductive compiled : Type :=
| SyntaxError
| Pattern (test : string -> bool).

(** The constructor belongs to the platform: the hook is modelled over any
    [engine]. *)
Definition engine : Type := string -> compiled.

(** A reference constructor for the fragment of the pattern syntax made of
    pattern characters, [.], [|] and the quantifiers [*], [+], [?] with
    their lazy forms.  [None] means that the source uses syntax outside the
    fragment. *)
Definition outside_fragment (c : ascii) : bool :=
  existsb (Ascii.eqb c)
    ["\"; "("; ")"; "["; "]"; "{"; "}"; "^"; "$"]%char.

Definition isQuantifier (c : ascii) : bool :=
  existsb (Ascii.eqb c) ["*"; "+"; "?"]%char.

Definition quantify (c : ascii) (r : regex) : regex :=
  if Ascii.eqb c "*" then Star r
  else if Ascii.eqb c "+" then Plus r
  else Opt r.

(** What follows the term being read: nothing to repeat yet, an atom, a
    quantified atom, a quantified atom already marked lazy. *)
Inductive term_state : Type :=
| NoAtom
| Atom (r : regex)
| Quantified (r : regex)
| Lazy (r : regex).

Definition close_term (sq : regex) (t : term_state) : regex :=
  match t with
  | NoAtom => sq
  | Atom r | Quantified r | Lazy r => Seq sq r
  end.

(** A quantifier with nothing to repeat is a [SyntaxError], provided the
    rest of the source stays inside the fragment. *)
Fixpoint nothing_to_repeat (src : string) : option (option regex) :=
  match src with
  | EmptyString => Some None
  | String c src' =>
      if outside_fragment c then None else nothing_to_repeat src'
  end.

(** [done]: the alternatives already closed by a [|]; [sq]: the terms of
    the current alternative; [t]: its last term.  The result is [None]
    outside the fragment, [Some None] for a [SyntaxError]. *)
Fixpoint parse (done : list regex) (sq : regex) (t : term_state)
         (src : string) : option (option regex) :=
  match src with
  | EmptyString => Some (Some (alts (List.rev (close_term sq t :: done))))
  | String c src' =>
      if outside_fragment c then None
      else if Ascii.eqb c "|" then
        parse (close_term sq t :: done) Empty NoAtom src'
      else if isQuantifier c then
        match t with
        | Atom r => parse done sq (Quantified (quantify c r)) src'
        | Quantified r =>
            if Ascii.eqb c "?" then parse done sq (Lazy r) src'
            else nothing_to_repeat src'
        | NoAtom | Lazy _ => nothing_to_repeat src'
        end
      else
        parse done (close_term sq t)
              (Atom (if Ascii.eqb c "." then AnyChar else Chr c)) src'
  end.

Definition fragment_RegExp_i (src : string) : option compiled :=
  match parse [] Empty NoAtom src with
  | None => None
  | Some None => Some SyntaxError
  | Some (Some r) => Some (Pattern (test true r))
  end.

(** An engine that accepts the fragment and nothing else. *)
Definition reference_RegExp_i : engine :=
  fun src =>
    match fragment_RegExp_i src with
    | Some c => c
    | None => SyntaxError
    end.

End RegExp.

(* ====================================================================== *)
(** ** JavaScript numbers that are not integers: binary64 *)
(* ====================================================================== *)

Module JsNumber.

Definition prec : Z := 53.
Definition emax : Z := 1024.

Definition number : Type := spec_float.

(** The number denoted by an integer literal or held by an integer
    variable. *)
Definition of_Z (n : Z) : number := binary_normalize prec emax n 0 false.

Definition add : number -> number -> number := SFadd prec emax.
Definition mul : number -> number -> number := SFmul prec emax.
Definition div : number -> number -> number := SFdiv prec emax.

(** [a < b] and [a > b]; both are false when an operand is NaN. *)
Definition ltb (a b : number) : bool := SFltb a b.
Definition gtb (a b : number) : bool := SFltb b a.

(** A decimal literal [n/d], read as the double nearest to it. *)
Definition decimal (n d : Z) : number := div (of_Z n) (of_Z d).

(** [Math.floor] *)
Definition floor (x : number) : number :=
  match x with
  | S754_finite s m e =>
      let v := cond_Zopp s (Zpos m) in
      of_Z (if 0 <=? e then v * 2 ^ e else v / 2 ^ (- e))
  | _ => x
  end.

(** The integer that [Math.floor(x)] is, for a finite [x]. *)
Definition floorZ (x : number) : Z :=
  match x with
  | S754_finite s m e =>
      let v := cond_Zopp s (Zpos m) in
      if 0 <=? e then v * 2 ^ e else v / 2 ^ (- e)
  | _ => 0
  end.

(** What [Math.random()] returns: a number with positive sign, [+0] or
    more, and below 1. *)
Definition inUnitInterval (x : number) : bool :=
  match x with
  | S754_zero s => negb s
  | S754_finite s m e => (negb s && bounded prec emax m e && ltb x (of_Z 1))%bool
  | _ => false
  end.

Record Draw : Type := mkDraw {
  drawn : number;
  inUnit : inUnitInterval drawn = true
}.

End JsNumber.

(** Vocabulary for reasoning about a correctly rounded quotient of two
    positive integers below [2^53] and its comparison with the literal
    [0.02]. *)
Module Binary64.
Import JsNumber.

(** The 53-digit mantissa of a positive integer below [2^53], and its
    exponent. *)
Definition mant (n : Z) : Z := n * 2 ^ (53 - Zdigits2 n).
Definition expo (n : Z) : Z := Zdigits2 n - 53.

(** What rounding leaves of a mantissa [2^52 <= m <= 2^53]: [m] itself, or
    [2^52] one exponent higher when the rounding carried. *)
Definition settle (m e : Z) : number :=
  if m <? 2 ^ 53 then S754_finite false (Z.to_pos m) e
  else S754_finite false (Z.to_pos (2 ^ 52)) (e + 1).

(** The mantissa of the double nearest to [0.02], whose exponent is
    [-58]. *)
Definition threshold : Z := 5764607523034235.

Definition literal_0_02 : number := S754_finite false (Z.to_pos threshold) (-58).

(** [m * 2^e], with [m] a 53-digit mantissa, lies above the literal. *)
Definition above (e m : Z) : bool :=
  ((-58 <? e) || ((e =? -58) && (threshold <? m)))%bool.

(** How the shifts of [shr_fexp] leave a mantissa [P] after [j] places:
    what was shifted out is [rest], and the round bit tells whether it is
    half a place or more. *)
Definition shifted (P j : Z) (mrs : shr_record) : Prop :=
  0 <= shr_m mrs /\
  exists rest, P = shr_m mrs * 2 ^ j + rest /\ 0 <= rest < 2 ^ j /\
               (shr_r mrs = true -> 2 ^ j <= 2 * rest) /\
               (shr_r mrs = false -> 2 * rest < 2 ^ j).

End Binary64.

(* ====================================================================== *)
(** ** The data model *)
(* ====================================================================== *)

(** The declarations of [frontend/src/types] are not among the sources; the
    records below carry the fields that the hooks read and write, with the
    values the specification lists for them. *)
Module Types.

(** Modelled from the spec: the [type] of a job description, which the
    specification gives as technical/behavioral. *)
Inductive InterviewType : Type := technical | behavioral.

Module JobDescription.
Record t : Type := mk {
  title : string;
  company : string;
  type : InterviewType;
  level : string;
  requirements : option string      (* may be undefined *)
}.
End JobDescription.

Module StudentInfo.
Record t : Type := mk {
  name : string;
  userId : option string
}.
End StudentInfo.

Module Question.
Record t : Type := mk {
  id : string;
  text : string;
  type : InterviewType;
  timeLimit : Z;
  difficulty : string;
  department : string;
  category : string
}.
End Question.

(** An opaque recorded audio blob. *)
Definition Blob : Type := list Z.

Module Response.
Record t : Type := mk {
  questionId : string;
  answer : string;
  audioBlob : option Blob;
  duration : Q;
  confidence : Z;
  clarity : Z;
  emotionalTone : option string;
  keywords : list string;
  relevanceScore : Z
}.
End Response.

Module Result.
Import JsNumber.
Record scores : Type := mkScores {
  communication : number;
  technicalScore : number;
  confidence : number;
  clarity : number;
  emotionalIntelligence : number
}.
Record analysis : Type := mkAnalysis {
  responseQuality : number;
  technicalAccuracy : number;
  communicationSkills : number;
  problemSolvingAbility : number
}.
Record t : Type := mk {
  overallScore : number;
  categoryScores : scores;
  responses : list Response.t;
  feedback : list string;
  recommendations : list string;
  strengths : list string;
  areasForImprovement : list string;
  interviewDuration : Z;
  completionRate : number;
  detailedAnalysis : analysis
}.
End Result.

Inductive Status : Type := in_progress | stopped | completed.

Module Session.
Record t : Type := mk {
  id : string;
  userId : string;
  jobDescription : JobDescription.t;
  studentInfo : StudentInfo.t;
  questions : list Question.t;
  responses : list Response.t;
  result : option Result.t;
  status : Status;
  createdAt : Z;                   (* instant, in ms *)
  duration : Z;
  currentQuestionIndex : Z;
  completedAt : option Z
}.
End Session.

(** [a || b] on strings that may be undefined: the empty string is falsy. *)
Definition or_else (a : option string) (b : string) : string :=
  match a with
  | Some s => if JsString.isEmpty s then b else s
  | None => b
  end.

(** A non-negative integer in a template string. *)
Definition show_nat (n : nat) : string :=
  DecimalString.NilZero.string_of_uint (Nat.to_uint n).

Definition show_Z (z : Z) : string :=
  DecimalString.NilZero.string_of_int (Z.to_int z).

End Types.

(* ====================================================================== *)
(** ** Question acquisition *)
(* ====================================================================== *)

Module Network.

(** The [questions] member of a reply body: a list of strings, or a value
    on which [.map] (or [.trim] on an element) raises a [TypeError]. *)
Inductive QuestionsField : Type :=
| Unusable (message : string)
| Texts (texts : list string).

Inductive Body : Type :=
| NotJson (message : string)          (* [response.json()] rejects *)
| Json (error : option string) (questions : QuestionsField).

(** What [await fetch(...)] brings back. *)
Inductive Reply : Type :=
| NetworkError (message : string)     (* the promise rejects *)
| Response (ok : bool) (body : Body).

(** The texts of a successful reply. *)
Definition delivered (r : Reply) : option (list string) :=
  match r with
  | Response true (Json _ (Texts l)) => Some l
  | _ => None
  end.

(** The request failed: network error, unreadable body, non-ok status, or
    no usable list of questions in the body. *)
Definition failed (r : Reply) : Prop := delivered r = None.

End Network.

Module Questions.
Import Types Network.
Open Scope string_scope.

Definition firstRequirement (jd : JobDescription.t) : string :=
  or_else (option_map (JsString.before_first ",") (JobDescription.requirements jd))
          "relevant technologies".

Definition fallbackQuestions (jd : JobDescription.t) : list string :=
  let title := JobDescription.title jd in
  let company := JobDescription.company jd in
  match JobDescription.type jd with
  | technical =>
      [ "Tell me about your experience with " ++ firstRequirement jd ++ ".";
        "How would you approach solving a complex problem in " ++ title ++ "?";
        "Describe a challenging project you've worked on related to " ++ company ++ "'s domain.";
        "What interests you most about working at " ++ company ++ "?";
        "How do you stay updated with the latest trends in your field?";
        "Walk me through your problem-solving process for technical challenges." ]
  | behavioral =>
      [ "Tell me about yourself and why you're interested in the " ++ title ++ " position at " ++ company ++ ".";
        "Describe a time when you had to work under pressure. How did you handle it?";
        "What do you know about " ++ company ++ " and why do you want to work here?";
        "Tell me about a time when you had to work with a difficult team member.";
        "Where do you see yourself in 5 years?";
        "What are your greatest strengths and how do they relate to this role?" ]
  end.

(** [array.map((x, index) => f x index)] *)
Fixpoint mapi_from {A B : Type} (f : A -> nat -> B) (i : nat) (l : list A) : list B :=
  match l with
  | [] => []
  | x :: l' => f x i :: mapi_from f (S i) l'
  end.

Definition mapi {A B : Type} (f : A -> nat -> B) (l : list A) : list B :=
  mapi_from f 0 l.

Definition questionType (jd : JobDescription.t) : InterviewType :=
  match JobDescription.type jd with
  | technical => technical
  | behavioral => behavioral
  end.

Definition generateFallbackQuestions (jd : JobDescription.t) : list Question.t :=
  mapi (fun text index =>
          Question.mk ("fallback-" ++ show_nat index) text (questionType jd)
                      120 "medium" "general" "general")
       (fallbackQuestions jd).

Definition difficultyOf (jd : JobDescription.t) : string :=
  if String.eqb (JobDescription.level jd) "entry" then "easy"
  else if String.eqb (JobDescription.level jd) "senior" then "hard"
  else "medium".

Definition categoryOf (jd : JobDescription.t) : string :=
  match JobDescription.type jd with
  | technical => "technical-skills"
  | behavioral => "general"
  end.

(** What the [try] block of [generateQuestionsFromBackend] meets:
    [storageReadable] tells whether the two [JSON.parse] calls on the local
    storage entries go through, [reply] is what the endpoint answers and
    [now i] what [Date.now()] reads while the [i]-th text is transformed. *)
Record Env : Type := mkEnv {
  storageReadable : bool;
  reply : Reply;
  now : nat -> Z
}.

(** The [try] block: [None] when it throws. *)
Definition fromBackend (env : Env) (jd : JobDescription.t) : option (list Question.t) :=
  if storageReadable env then
    match delivered (reply env) with
    | Some texts =>
        Some (mapi (fun text index =>
                      Question.mk ("q-" ++ show_Z (now env index) ++ "-" ++ show_nat index)
                                  (JsString.trim text) (questionType jd) 120
                                  (difficultyOf jd) "general" (categoryOf jd))
                   texts)
    | None => None
    end
  else None.

(** The value the promise resolves to; the [catch] clause makes it total. *)
Definition generateQuestionsFromBackend (env : Env) (jd : JobDescription.t)
  : list Question.t :=
  match fromBackend env jd with
  | Some questions => questions
  | None => generateFallbackQuestions jd
  end.

End Questions.

(** The hook [useGeneratedQuestions] of [jd_gen_ques.ts]. *)
Module GeneratedQuestions.
Import Types Network.
Open Scope string_scope.

Record State : Type := mkState {
  questions : list Question.t;
  loading : bool;
  error : option string
}.

Definition initial : State := mkState [] false None.

(** The message of the error that reaches the [catch] clause. *)
Definition raised (r : Reply) : option string :=
  match r with
  | NetworkError m => Some m
  | Response _ (NotJson m) => Some m
  | Response false (Json e _) => Some (or_else e "Failed to generate questions")
  | Response true (Json _ (Unusable m)) => Some m
  | Response true (Json _ (Texts _)) => None
  end.

Definition generated (now : nat -> Z) (texts : list string) : list Question.t :=
  Questions.mapi (fun text idx =>
          Question.mk ("q-" ++ show_Z (now idx) ++ "-" ++ show_nat idx) text
                      technical 120 "medium" "general" "general")
       texts.

(** The state once the promise has settled, and the value it resolves
    to. *)
Definition generateQuestions (r : Reply) (now : nat -> Z)
           (jobDescription : string) (st : State) : State * list Question.t :=
  match r with
  | Response true (Json _ (Texts texts)) =>
      let g := generated now texts in
      (mkState g false None, g)
  | _ =>
      (mkState (questions st) false
               (Some (or_else (raised r) "Unknown error")), [])
  end.

End GeneratedQuestions.

(* ====================================================================== *)
(** ** The interview session: [useInterview] *)
(* ====================================================================== *)

Module Interview.
Import Types JsString RegExp.

(** The state cells of the hook that the session callbacks read and write,
    and the [interviews] entry of the local storage.  A render captures the
    cells: the callbacks it creates hold them in their closures, while the
    setters and the local storage act on the state at the call.  Below,
    [render] is the state whose callbacks are called and [st] the state at
    the call; the two are the same when the call goes through the callbacks
    of the latest render. *)
Record State : Type := mkState {
  currentSession : option Session.t;
  currentQuestionIndex : Z;
  interviewStartTime : Z;
  interviews : list Session.t
}.

Definition initial : State := mkState None 0 0 [].

(** What a call does: it returns, or an exception leaves it. *)
Inductive outcome (A : Type) : Type :=
| Returned (a : A)
| Threw.
Arguments Returned {A} a.
Arguments Threw {A}.

(** *** [startInterview] *)

(** [id] is what [Math.random().toString(36).substr(2, 9)] evaluates to,
    [createdAt] and [startTime] the two readings of the clock. *)
Definition newSession (questions : list Question.t) (id : string) (createdAt : Z)
           (studentInfo : StudentInfo.t) (jobDescription : JobDescription.t)
  : Session.t :=
  Session.mk id (or_else (StudentInfo.userId studentInfo) "current-user")
             jobDescription studentInfo questions
             [] None in_progress createdAt 0 0 None.

Definition startInterview (env : Questions.Env) (id : string) (createdAt startTime : Z)
           (studentInfo : StudentInfo.t) (jobDescription : JobDescription.t)
           (st : State) : State * Session.t :=
  let questions := Questions.generateQuestionsFromBackend env jobDescription in
  let session := newSession questions id createdAt studentInfo jobDescription in
  (mkState (Some session) 0 startTime (interviews st), session).

(** *** [submitResponse] *)

(** [/example|instance|time when|experience|project|situation/i] *)
Definition specificExamples : regex :=
  alts [lit "example"; lit "instance"; lit "time when"; lit "experience";
        lit "project"; lit "situation"].

(** [/\d+%|\d+ years?|\d+ people|\$\d+|increased|decreased|improved|achieved|delivered/i] *)
Definition quantifiableResults : regex :=
  alts [Seq (Plus Digit) (lit "%");
        Seq (Plus Digit) (Seq (lit " year") (Opt (Chr "s")));
        Seq (Plus Digit) (lit " people");
        Seq (Chr "$") (Plus Digit);
        lit "increased"; lit "decreased"; lit "improved"; lit "achieved";
        lit "delivered"].

Definition hasSpecificExamples (answer : string) : bool :=
  test true specificExamples answer.

Definition hasQuantifiableResults (answer : string) : bool :=
  test true quantifiableResults answer.

(** The separator [/[,\s]+/] of the requirements. *)
Definition isSeparator (c : ascii) : bool :=
  (Ascii.eqb c "," || isSpace c)%bool.

(** The source handed to [new RegExp(..., 'i')]. *)
Definition requirementsPattern (requirements : string) : string :=
  join "|" (firstn 5 (split isSeparator requirements)).

Definition hasRelevantKeywords (RegExp_i : engine) (jd : JobDescription.t)
           (answer : string) : outcome bool :=
  match JobDescription.requirements jd with
  | None => Returned false
  | Some requirements =>
      if isEmpty requirements then Returned false
      else match RegExp_i (requirementsPattern requirements) with
           | SyntaxError => Threw
           | Pattern test => Returned (test answer)
           end
  end.

(** [s.match(/\b\w{4,}\b/g) || []]: the maximal runs of word characters
    of [s] that have four characters or more, from left to right.  [cur]
    is the run being read. *)
Definition emit (cur : string) : list string :=
  if Nat.leb 4 (String.length cur) then [cur] else [].

Fixpoint words_from (cur : string) (s : string) : list string :=
  match s with
  | EmptyString => emit cur
  | String c s' =>
      if isWordChar c then words_from (snoc cur c) s'
      else emit cur ++ words_from EmptyString s'
  end.

Definition matchWords (s : string) : list string := words_from EmptyString s.

(** [[...new Set(l)]]: the first occurrence of each element, in order. *)
Fixpoint unique_from (seen : list string) (l : list string) : list string :=
  match l with
  | [] => []
  | x :: l' =>
      if existsb (String.eqb x) seen then unique_from seen l'
      else x :: unique_from (x :: seen) l'
  end.

Definition unique (l : list string) : list string := unique_from [] l.

Definition uniqueKeywords (answer : string) : list string :=
  unique (matchWords (toLowerCase answer)).

(** [Math.floor(Math.random() * n)] for the draw [u]: the product is the
    binary64 product, which is zero or finite for a draw and an integer. *)
Definition randomBelow (n : Z) (u : JsNumber.Draw) : Z :=
  JsNumber.floorZ (JsNumber.mul (JsNumber.drawn u) (JsNumber.of_Z n)).

(** The three successive draws of [submitResponse]. *)
Record Draws : Type := mkDraws {
  confidenceDraw : JsNumber.Draw;
  clarityDraw : JsNumber.Draw;
  toneDraw : JsNumber.Draw
}.

Definition confidenceScore (u : JsNumber.Draw) (responseLength : Z)
           (examples quantified relevant : bool) : Z :=
  let confidence := randomBelow 20 u + 70 in
  let confidence := if responseLength >? 100 then confidence + 5 else confidence in
  let confidence := if responseLength >? 200 then confidence + 5 else confidence in
  let confidence := if examples then confidence + 10 else confidence in
  let confidence := if quantified then confidence + 8 else confidence in
  let confidence := if relevant then confidence + 7 else confidence in
  Z.min 100 confidence.

Definition Qltb (a b : Q) : bool := negb (Qle_bool b a).

Definition clarityScore (u : JsNumber.Draw) (duration : Q) (nKeywords : nat) : Z :=
  let clarity := randomBelow 20 u + 75 in
  let clarity :=
    if (Qltb (30 # 1) duration && Qltb duration (180 # 1))%bool
    then clarity + 5 else clarity in
  let clarity := if Nat.ltb 10 nKeywords then clarity + 5 else clarity in
  Z.min 100 clarity.

Definition relevance (examples quantified relevant : bool) : Z :=
  let relevanceScore := 60 in
  let relevanceScore := if examples then relevanceScore + 15 else relevanceScore in
  let relevanceScore := if quantified then relevanceScore + 10 else relevanceScore in
  let relevanceScore := if relevant then relevanceScore + 12 else relevanceScore in
  Z.min 100 relevanceScore.

Definition emotionalTones : list string :=
  ["confident"; "nervous"; "enthusiastic"; "calm"; "passionate"]%string.

Definition pickTone (u : JsNumber.Draw) : option string :=
  let i := randomBelow (Z.of_nat (List.length emotionalTones)) u in
  if i <? 0 then None else nth_error emotionalTones (Z.to_nat i).

(** The response record built by [submitResponse], [relevant] being the
    value of [hasRelevantKeywords]. *)
Definition buildResponse (draws : Draws) (relevant : bool)
           (questionId answer : string) (duration : Q) (audioBlob : option Blob)
  : Response.t :=
  let responseLength := Z.of_nat (String.length answer) in
  let examples := hasSpecificExamples answer in
  let quantified := hasQuantifiableResults answer in
  let uniqueKeywords := uniqueKeywords answer in
  Response.mk questionId answer audioBlob duration
    (confidenceScore (confidenceDraw draws) responseLength examples quantified relevant)
    (clarityScore (clarityDraw draws) duration (List.length uniqueKeywords))
    (pickTone (toneDraw draws))
    (firstn 10 uniqueKeywords)
    (relevance examples quantified relevant).

Definition withResponses (s : Session.t) (responses : list Response.t) : Session.t :=
  Session.mk (Session.id s) (Session.userId s) (Session.jobDescription s)
             (Session.studentInfo s) (Session.questions s) responses
             (Session.result s) (Session.status s) (Session.createdAt s)
             (Session.duration s) (Session.currentQuestionIndex s)
             (Session.completedAt s).

Definition setCurrentSession (st : State) (s : Session.t) : State :=
  mkState (Some s) (currentQuestionIndex st) (interviewStartTime st) (interviews st).

Definition submitResponse (RegExp_i : engine) (draws : Draws)
           (questionId answer : string) (duration : Q) (audioBlob : option Blob)
           (render st : State) : outcome State :=
  match currentSession render with
  | None => Returned st
  | Some currentSession =>
      match hasRelevantKeywords RegExp_i (Session.jobDescription currentSession) answer with
      | Threw => Threw
      | Returned relevant =>
          let response :=
            buildResponse draws relevant questionId answer duration audioBlob in
          Returned (setCurrentSession st
                      (withResponses currentSession
                         (Session.responses currentSession ++ [response])))
      end
  end.

(** *** [nextQuestion] and [getCurrentQuestion] *)

Definition setCurrentQuestionIndex (st : State) (index : Z) : State :=
  mkState (currentSession st) index (interviewStartTime st) (interviews st).

Definition nextQuestion (render st : State) : State * bool :=
  match currentSession render with
  | None => (st, false)
  | Some currentSession =>
      if currentQuestionIndex render
         <? Z.of_nat (List.length (Session.questions currentSession)) - 1
      then (setCurrentQuestionIndex st (currentQuestionIndex render + 1), true)
      else (st, false)
  end.


(** *** [stopInterview] *)

(** [Math.floor((Date.now() - interviewStartTime) / 1000)] *)
Definition elapsedSeconds (now start : Z) : Z := (now - start) / 1000.

Definition stopInterview (now : Z) (render st : State) : State * option Session.t :=
  match currentSession render with
  | None => (st, None)
  | Some currentSession =>
      let stoppedSession :=
        Session.mk (Session.id currentSession) (Session.userId currentSession)
                   (Session.jobDescription currentSession)
                   (Session.studentInfo currentSession)
                   (Session.questions currentSession)
                   (Session.responses currentSession)
                   (Session.result currentSession)
                   stopped
                   (Session.createdAt currentSession)
                   (elapsedSeconds now (interviewStartTime render))
                   (Session.currentQuestionIndex currentSession)
                   (Some now) in
      (setCurrentSession st stoppedSession, Some stoppedSession)
  end.

(** *** [completeInterview] *)

Import JsNumber.

(** [responses.reduce((sum, r) => sum + f r, 0) / responses.length] *)
Definition average (f : Response.t -> Z) (responses : list Response.t) : number :=
  div (of_Z (fold_left (fun sum r => sum + f r) responses 0))
      (of_Z (Z.of_nat (List.length responses))).

(** [r.relevanceScore || 70] *)
Definition relevanceOr70 (r : Response.t) : Z :=
  if Response.relevanceScore r =? 0 then 70 else Response.relevanceScore r.

(** [Math.floor(a * wa + b * wb)] *)
Definition weighted (a wa b wb : number) : number :=
  floor (add (mul a wa) (mul b wb)).

(** The two draws of [completeInterview]; the first is made for
    behavioral interviews only. *)
Record CompletionDraws : Type := mkCompletionDraws {
  technicalDraw : Draw;
  emotionalDraw : Draw
}.

Definition isTechnical (s : Session.t) : bool :=
  match JobDescription.type (Session.jobDescription s) with
  | technical => true
  | behavioral => false
  end.

Definition buildResult (draws : CompletionDraws) (now startTime : Z)
           (currentSession : Session.t) : Result.t :=
  let responses := Session.responses currentSession in
  let avgConfidence := average Response.confidence responses in
  let avgClarity := average Response.clarity responses in
  let avgRelevance := average relevanceOr70 responses in
  let interviewDuration := elapsedSeconds now startTime in
  let completionRate :=
    mul (div (of_Z (Z.of_nat (List.length responses)))
             (of_Z (Z.of_nat (List.length (Session.questions currentSession)))))
        (of_Z 100) in
  let technicalScore :=
    if isTechnical currentSession
    then weighted avgConfidence (decimal 7 10) avgRelevance (decimal 3 10)
    else of_Z (randomBelow 20 (technicalDraw draws) + 75) in
  let communicationScore :=
    weighted avgClarity (decimal 8 10) avgConfidence (decimal 2 10) in
  let overallScore :=
    floor (div (add (add (add avgConfidence avgClarity) avgRelevance) completionRate)
               (of_Z 4)) in
  Result.mk
    overallScore
    (Result.mkScores communicationScore technicalScore
       (floor avgConfidence) (floor avgClarity)
       (of_Z (randomBelow 25 (emotionalDraw draws) + 70)))
    responses
    [ "Your responses demonstrated good structure and thoughtfulness.";
      "You maintained professional composure throughout the interview.";
      if gtb avgRelevance (of_Z 80)
      then "Your examples were highly relevant and well-articulated."
      else "Your examples were relevant and well-articulated.";
      if isTechnical currentSession
      then "Your technical knowledge appears solid for this role."
      else "Consider providing more quantified achievements in future interviews."
    ]%string
    [ "Practice the STAR method for behavioral questions";
      "Research more about "
        ++ JobDescription.company (Session.jobDescription currentSession)
        ++ "'s recent developments";
      if ltb avgClarity (of_Z 80)
      then "Work on reducing filler words for clearer communication"
      else "Continue maintaining clear communication";
      if isTechnical currentSession
      then "Continue building hands-on experience with relevant technologies"
      else "Prepare more specific examples of your achievements"
    ]%string
    [ "Clear and articulate communication";
      "Professional demeanor and confidence";
      if gtb avgRelevance (of_Z 75)
      then "Excellent use of relevant examples"
      else "Good use of relevant examples";
      if isTechnical currentSession
      then "Strong technical knowledge demonstration"
      else "Strong understanding of role requirements"
    ]%string
    [ if ltb avgRelevance (of_Z 70)
      then "Provide more specific and relevant examples"
      else "Could provide more quantified results";
      "Body language and eye contact";
      if isTechnical currentSession
      then "Explaining complex concepts more simply"
      else "Elaborating on leadership experiences";
      "Asking more insightful questions about the role"
    ]%string
    interviewDuration
    completionRate
    (Result.mkAnalysis (floor avgRelevance) technicalScore communicationScore
       (weighted avgConfidence (decimal 8 10) avgRelevance (decimal 2 10))).

(** The session is read from the closure; the [interviews] entry is read
    from the local storage at the call. *)
Definition completeInterview (draws : CompletionDraws) (now : Z) (render st : State)
  : State * option Result.t :=
  match currentSession render with
  | None => (st, None)
  | Some currentSession =>
      match Session.responses currentSession with
      | [] => (st, None)
      | _ :: _ =>
          let result :=
            buildResult draws now (interviewStartTime render) currentSession in
          let completedSession :=
            Session.mk (Session.id currentSession) (Session.userId currentSession)
                       (Session.jobDescription currentSession)
                       (Session.studentInfo currentSession)
                       (Session.questions currentSession)
                       (Session.responses currentSession)
                       (Some result)
                       completed
                       (Session.createdAt currentSession)
                       (Result.interviewDuration result)
                       (Session.currentQuestionIndex currentSession)
                       (Some now) in
          (mkState (Some completedSession) (currentQuestionIndex st)
                   (interviewStartTime st)
                   (interviews st ++ [completedSession]),
           Some result)
      end
  end.

(** *** Runs of the hook *)

(** A call of one of the callbacks, with what the platform supplies
    during the call. *)
Inductive Call : Type :=
| StartInterview (env : Questions.Env) (id : string) (createdAt startTime : Z)
                 (studentInfo : StudentInfo.t) (jobDescription : JobDescription.t)
| SubmitResponse (draws : Draws) (questionId answer : string) (duration : Q)
                 (audioBlob : option Blob)
| NextQuestion
| StopInterview (now : Z)
| CompleteInterview (draws : CompletionDraws) (now : Z).

(** The state after a call made through the callbacks of [render]; a call
    that throws has set nothing.  [startInterview] reads no cell. *)
Definition invoke (RegExp_i : engine) (render st : State) (c : Call) : State :=
  match c with
  | StartInterview env id createdAt startTime studentInfo jobDescription =>
      fst (startInterview env id createdAt startTime studentInfo jobDescription st)
  | SubmitResponse draws questionId answer duration audioBlob =>
      match submitResponse RegExp_i draws questionId answer duration audioBlob
                           render st with
      | Returned st' => st'
      | Threw => st
      end
  | NextQuestion => fst (nextQuestion render st)
  | StopInterview now => fst (stopInterview now render st)
  | CompleteInterview draws now => fst (completeInterview draws now render st)
  end.

(** A call through the callbacks of the latest render, whose closures hold
    the cells of the state at the call. *)
Definition step (RegExp_i : engine) (st : State) (c : Call) : State :=
  invoke RegExp_i st st c.

(** Calls made one after the other, each through the callbacks of the
    render that the previous call caused. *)
Definition run (RegExp_i : engine) (st : State) (calls : list Call) : State :=
  fold_left (step RegExp_i) calls st.

(** The states that such calls lead to. *)
Definition reachable (RegExp_i : engine) (st : State) : Prop :=
  exists calls, st = run RegExp_i initial calls.

(** A call through the callbacks of any render so far: [age] counts the
    renders back from the latest one, 0 being the latest.  The renders are
    listed with the latest first; the state at the call is the latest.
    Every state reached counts as rendered: React may skip the render
    between two calls of one handler, which leaves fewer closures to call
    through, not more. *)
Record Invocation : Type := through { age : nat; made : Call }.

Definition latest (renders : list State) : State := hd initial renders.

Definition invokeThrough (RegExp_i : engine) (renders : list State) (i : Invocation)
  : list State :=
  let st := latest renders in
  invoke RegExp_i (nth (age i) renders st) st (made i) :: renders.

Definition replay (RegExp_i : engine) (renders : list State)
           (invocations : list Invocation) : list State :=
  fold_left (invokeThrough RegExp_i) invocations renders.

(** The hook after its first render. *)
Definition mounted : list State := [initial].

(** The fields of the current session, when there is one. *)
Definition sessionStatus (st : State) : option Status :=
  option_map Session.status (currentSession st).

Definition sessionResult (st : State) : option (option Result.t) :=
  option_map Session.result (currentSession st).

Definition sessionResponses (st : State) : option (list Response.t) :=
  option_map Session.responses (currentSession st).

Definition isStart (c : Call) : bool :=
  match c with StartInterview _ _ _ _ _ _ => true | _ => false end.

Definition isComplete (c : Call) : bool :=
  match c with CompleteInterview _ _ => true | _ => false end.

(** What a call other than [startInterview] can make of the current
    session: leave it as it is, append one response, mark it stopped, or
    mark it completed with a result. *)
Inductive evolves (s : Session.t) : Call -> Session.t -> Prop :=
| evolves_same (c : Call) : evolves s c s
| evolves_appended (draws : Draws) (questionId answer : string) (duration : Q)
                   (audioBlob : option Blob) (relevant : bool) :
    evolves s (SubmitResponse draws questionId answer duration audioBlob)
            (withResponses s
               (Session.responses s ++
                [buildResponse draws relevant questionId answer duration audioBlob]))
| evolves_stopped (now : Z) (s' : Session.t) :
    Session.status s' = stopped ->
    Session.result s' = Session.result s ->
    Session.responses s' = Session.responses s ->
    Session.id s' = Session.id s ->
    evolves s (StopInterview now) s'
| evolves_completed (draws : CompletionDraws) (now : Z) (s' : Session.t)
                    (result : Result.t) :
    Session.status s' = completed ->
    Session.result s' = Some result ->
    Session.responses s' = Session.responses s ->
    Session.id s' = Session.id s ->
    Session.responses s <> [] ->
    evolves s (CompleteInterview draws now) s'.

(** A completed session carries a result. *)
Definition completed_has_result (st : State) : Prop :=
  forall s, currentSession st = Some s ->
            Session.status s = completed -> Session.result s <> None.

End Interview.

(* ====================================================================== *)
(** ** Audio capture: [startListening] and [stopListening] *)
(* ====================================================================== *)

Module Listening.
Import Types.

(** The [state] attribute of a [MediaRecorder]. *)
Inductive RecordingState : Type := inactive | recording.

(** The cells of [useInterview] that the two callbacks touch, and the
    objects they create: [recorders] holds the state of every
    [MediaRecorder] constructed so far and [recognitions] tells which
    speech recognizers are running; an object is known by its position. *)
Record State : Type := mkState {
  recorders : list RecordingState;
  recognitions : list bool;
  mediaRecorderRef : option nat;
  audioChunksRef : list Blob;
  speechRecognitionRef : option nat;
  isRecording : bool
}.

Definition initial : State := mkState [] [] None [] None false.

(** [l[i] = x] *)
Fixpoint update {A : Type} (i : nat) (x : A) (l : list A) : list A :=
  match l, i with
  | [], _ => []
  | _ :: l', O => x :: l'
  | y :: l', S i' => y :: update i' x l'
  end.

(** [granted]: [getUserMedia] resolves with a stream; [speech]: the window
    offers a speech recognition constructor. *)
Definition startListening (granted speech : bool) (st : State) : State :=
  if granted then
    let mediaRecorder := List.length (recorders st) in
    let recognition := List.length (recognitions st) in
    mkState (recorders st ++ [recording])
            (if speech then recognitions st ++ [true] else recognitions st)
            (Some mediaRecorder)
            []
            (if speech then Some recognition else speechRecognitionRef st)
            true
  else st.

Definition stopListening (st : State) : State :=
  match mediaRecorderRef st with
  | Some mediaRecorder =>
      if isRecording st then
        mkState (update mediaRecorder inactive (recorders st))
                (match speechRecognitionRef st with
                 | Some recognition => update recognition false (recognitions st)
                 | None => recognitions st
                 end)
                (Some mediaRecorder)
                (audioChunksRef st)
                None
                false
      else st
  | None => st
  end.

Inductive Call : Type :=
| StartListening (granted speech : bool)
| StopListening.

Definition step (st : State) (c : Call) : State :=
  match c with
  | StartListening granted speech => startListening granted speech st
  | StopListening => stopListening st
  end.

Definition run (st : State) (calls : list Call) : State :=
  fold_left step calls st.




End Listening.

(* ====================================================================== *)
(** ** The camera wrapper [useCamera] and the [CameraCheck] screen *)
(* ====================================================================== *)

Module Camera.
Import JsNumber.

(** An RGBA pixel of an [ImageData]; the components are bytes. *)
Record Pixel : Type := mkPixel { r : Z; g : Z; b : Z; a : Z }.

(** [imageData.data], four entries per pixel, kept as the list of its
    pixels: [data.length / 4] is the length of the list. *)
Definition ImageData : Type := list Pixel.

(** The test of the loop body, written alike in both detectors. *)
Definition isSkinTone (p : Pixel) : bool :=
  ((r p >? 95) && (g p >? 40) && (b p >? 20) &&
   (Z.max (Z.max (r p) (g p)) (b p) - Z.min (Z.min (r p) (g p)) (b p) >? 15) &&
   (Z.abs (r p - g p) >? 15) && (r p >? g p) && (r p >? b p))%bool.

Definition skinPixels (data : ImageData) : Z :=
  fold_left (fun skinPixels p => if isSkinTone p then skinPixels + 1 else skinPixels)
            data 0.

Definition totalPixels (data : ImageData) : Z := Z.of_nat (List.length data).

Definition skinRatio (data : ImageData) : number :=
  div (of_Z (skinPixels data)) (of_Z (totalPixels data)).

(** [skinRatio > 0.02] *)
Definition facePresent (data : ImageData) : bool :=
  gtb (skinRatio data) (decimal 2 100).

(** The test in words: red above 95, green above 40, blue above 20, more
    than 15 between the largest and the smallest component, more than 15
    between red and green, red the largest. *)
Definition SkinTone (p : Pixel) : Prop :=
  r p > 95 /\ g p > 40 /\ b p > 20 /\
  Z.max (Z.max (r p) (g p)) (b p) - Z.min (Z.min (r p) (g p)) (b p) > 15 /\
  Z.abs (r p - g p) > 15 /\ r p > g p /\ r p > b p.

(** [counts P data n]: [n] pixels of [data] satisfy [P]. *)
Inductive counts (P : Pixel -> Prop) : ImageData -> Z -> Prop :=
| counts_nil : counts P [] 0
| counts_in (p : Pixel) (data : ImageData) (n : Z) :
    P p -> counts P data n -> counts P (p :: data) (n + 1)
| counts_out (p : Pixel) (data : ImageData) (n : Z) :
    ~ P p -> counts P data n -> counts P (p :: data) n.

(** *** The platform *)

Record Video : Type := mkVideo {
  videoWidth : Z;
  videoHeight : Z;
  frame : ImageData                (* what [drawImage] copies to the canvas *)
}.

(** A canvas: whether [getContext('2d')] yields a context. *)
Record Canvas : Type := mkCanvas { has2d : bool }.

Record Refs : Type := mkRefs {
  videoRef : option Video;
  canvasRef : option Canvas
}.

Record Face : Type := mkFace { x : Z; y : Z; width : Z; height : Z }.

(** The body of a reply of [/detect]. *)
Record DetectData : Type := mkData {
  success : bool;
  faces : option (list Face);
  count : Z
}.

Inductive DetectReply : Type :=
| NetworkError                       (* [fetch] rejects *)
| NotJson                            (* [response.json()] rejects *)
| Json (data : DetectData).

Definition failed (reply : DetectReply) : Prop :=
  match reply with
  | Json data => success data = false
  | _ => True
  end.

(** A request sent to [/detect] with the captured frame. *)
Inductive Request : Type := PostDetect (image : ImageData).

(** *** [useCamera] *)

(** What the callbacks created in a render read from that render. *)
Record Closure : Type := mkClosure {
  c_isActive : bool;
  c_backendDetectionEnabled : bool;
  c_lastBlinkTime : Z
}.

Inductive Handler : Type := DetectFace (closure : Closure).

(** An interval timer: its handler and its period in milliseconds. *)
Record Interval : Type := mkInterval { handler : Handler; period : Z }.

Record State : Type := mkState {
  isActive : bool;
  error : option string;
  faceDetected : bool;
  eyeBlinkCount : Z;
  lastBlinkTime : Z;
  backendDetectionEnabled : bool;
  detectionResults : option DetectData;
  faceDetectionRef : option Interval
}.

Definition initial : State := mkState false None false 0 0 true None None.

Definition videoReady (refs : Refs) : option Video :=
  match videoRef refs, canvasRef refs with
  | Some video, Some canvas =>
      if (negb (has2d canvas) || (videoWidth video =? 0) || (videoHeight video =? 0))%bool
      then None else Some video
  | _, _ => None
  end.

Definition hasFaces (data : DetectData) : bool :=
  match faces data with
  | Some (_ :: _) => true
  | _ => false
  end.

(** The state once the promise has settled, the value it resolves to and
    the requests sent. *)
Definition performBackendDetection (closure : Closure) (refs : Refs)
           (reply : DetectReply) (st : State)
  : State * option DetectData * list Request :=
  if c_isActive closure then
    match videoReady refs with
    | None => (st, None, [])
    | Some video =>
        match reply with
        | Json data =>
            if success data then
              (mkState (isActive st) (error st) (hasFaces data) (eyeBlinkCount st)
                       (lastBlinkTime st) (backendDetectionEnabled st) (Some data)
                       (faceDetectionRef st),
               Some data, [PostDetect (frame video)])
            else
              (mkState (isActive st) (error st) (faceDetected st) (eyeBlinkCount st)
                       (lastBlinkTime st) false (detectionResults st)
                       (faceDetectionRef st),
               None, [PostDetect (frame video)])
        | _ =>
            (mkState (isActive st) (error st) (faceDetected st) (eyeBlinkCount st)
                     (lastBlinkTime st) false (detectionResults st)
                     (faceDetectionRef st),
             None, [PostDetect (frame video)])
        end
    end
  else (st, None, []).

Definition performClientSideDetection (closure : Closure) (refs : Refs) (now : Z)
           (st : State) : State :=
  match videoReady refs with
  | None => st
  | Some video =>
      let facePresent := facePresent (frame video) in
      let blink := (facePresent && (now - c_lastBlinkTime closure >? 2000))%bool in
      mkState (isActive st) (error st) facePresent
              (if blink then eyeBlinkCount st + 1 else eyeBlinkCount st)
              (if blink then now else lastBlinkTime st)
              (backendDetectionEnabled st) (detectionResults st)
              (faceDetectionRef st)
  end.

(** One firing of the interval. *)
Definition detectFace (closure : Closure) (refs : Refs) (reply : DetectReply)
           (now : Z) (st : State) : State * list Request :=
  match videoRef refs, canvasRef refs with
  | Some _, Some _ =>
      if c_isActive closure then
        if c_backendDetectionEnabled closure then
          let '(st', result, sent) := performBackendDetection closure refs reply st in
          match result with
          | Some _ => (st', sent)
          | None => (performClientSideDetection closure refs now st', sent)
          end
        else (performClientSideDetection closure refs now st, [])
      else (st, [])
  | _, _ => (st, [])
  end.

Definition startFaceDetection (closure : Closure) (refs : Refs) (st : State) : State :=
  match videoRef refs, canvasRef refs with
  | Some _, Some _ =>
      mkState (isActive st) (error st) (faceDetected st) (eyeBlinkCount st)
              (lastBlinkTime st) (backendDetectionEnabled st) (detectionResults st)
              (Some (mkInterval (DetectFace closure) 1000))
  | _, _ => st
  end.

(** [startCamera] is memoised with an empty dependency list
    ([useCallback(..., [])]): in every render it is the function created by
    the first render, and the [startFaceDetection] it calls is the one of
    that render, whose closure holds the initial values of the state
    cells. *)
Definition firstRender : Closure :=
  mkClosure (isActive initial) (backendDetectionEnabled initial)
            (lastBlinkTime initial).

(** The message set when [getUserMedia] rejects with an error of the given
    name. *)
Definition cameraError (name : string) : string :=
  ("Unable to access camera. " ++
   (if String.eqb name "NotAllowedError"
    then "Please allow camera permissions in your browser settings."
    else if String.eqb name "NotFoundError"
    then "No camera found. Please connect a camera and try again."
    else if String.eqb name "NotReadableError"
    then "Camera is being used by another application."
    else if String.eqb name "OverconstrainedError"
    then "Camera does not support the required settings."
    else "Please check your camera settings and try again."))%string.

(** [rejected]: the name of the error with which [getUserMedia] rejects, if
    it does.  The result is the state once the video plays and the timer
    that starts face detection has fired, and whether the call threw. *)
Definition startCamera (rejected : option string) (refs : Refs) (st : State)
  : State * bool :=
  match rejected with
  | Some name =>
      (mkState (isActive st) (Some (cameraError name)) (faceDetected st)
               (eyeBlinkCount st) (lastBlinkTime st) (backendDetectionEnabled st)
               (detectionResults st) (faceDetectionRef st),
       true)
  | None =>
      match videoRef refs with
      | Some _ =>
          (startFaceDetection firstRender refs
             (mkState true None (faceDetected st) (eyeBlinkCount st)
                      (lastBlinkTime st) (backendDetectionEnabled st)
                      (detectionResults st) (faceDetectionRef st)),
           false)
      | None =>
          (mkState (isActive st) None (faceDetected st) (eyeBlinkCount st)
                   (lastBlinkTime st) (backendDetectionEnabled st)
                   (detectionResults st) (faceDetectionRef st),
           false)
      end
  end.

Definition stopCamera (st : State) : State :=
  mkState false None false (eyeBlinkCount st) (lastBlinkTime st)
          (backendDetectionEnabled st) (detectionResults st) None.

(** *** [CameraCheck] *)

Inductive CheckStatus : Type := checking | check_success | check_error | no_camera.

Record CheckState : Type := mkCheck {
  checkStatus : CheckStatus;
  faceCount : Z;
  detectionActive : bool;
  detectionIntervalRef : option Z;     (* period of the installed interval *)
  cameraReady : list bool              (* the calls of [onCameraReady] *)
}.

Definition checkClientSideDetection (refs : Refs) (onCanvas : ImageData)
           (st : CheckState) : CheckState :=
  match canvasRef refs, videoRef refs with
  | Some canvas, Some _ =>
      if has2d canvas then
        if facePresent onCanvas
        then mkCheck check_success 1 (detectionActive st) (detectionIntervalRef st)
                     (cameraReady st ++ [true])
        else mkCheck (checkStatus st) 0 (detectionActive st) (detectionIntervalRef st)
                     (cameraReady st)
      else st
  | _, _ => st
  end.

Definition detectFaces (active : bool) (refs : Refs) (reply : DetectReply)
           (st : CheckState) : CheckState * list Request :=
  if active then
    match videoReady refs with
    | None => (st, [])
    | Some video =>
        match reply with
        | Json data =>
            if success data then
              (if count data >? 0
               then mkCheck check_success (count data) (detectionActive st)
                            (detectionIntervalRef st) (cameraReady st ++ [true])
               else mkCheck (checkStatus st) (count data) (detectionActive st)
                            (detectionIntervalRef st) (cameraReady st),
               [PostDetect (frame video)])
            else (checkClientSideDetection refs (frame video) st,
                  [PostDetect (frame video)])
        | _ => (checkClientSideDetection refs (frame video) st,
                [PostDetect (frame video)])
        end
    end
  else (st, []).

(** The effect that depends on [isActive] and [checkStatus]. *)
Definition detectionEffect (active : bool) (st : CheckState) : CheckState :=
  match active, checkStatus st with
  | true, checking =>
      mkCheck (checkStatus st) (faceCount st) true (Some 500) (cameraReady st)
  | _, _ =>
      mkCheck (checkStatus st) (faceCount st) false None (cameraReady st)
  end.

End Camera.

(* ====================================================================== *)
(** ** The analytics panel: [InterviewAnalytics] *)
(* ====================================================================== *)

Module Analytics.

Record Props : Type := mkProps { sessionId : string; isVisible : bool }.

(** A [GET] on [/analytics/<sessionId>]. *)
Inductive Request : Type := GetAnalytics (sessionId : string).

(** An interval that runs [fetchAnalytics] for a session; the period is in
    milliseconds. *)
Record Interval : Type := mkInterval { target : string; period : Z }.

(** The component in the page: the props of the last render while it is
    mounted, the identifier that the clean-up function returned by the
    last run of the effect clears, the intervals that the window holds,
    the next free identifier and the requests sent so far. *)
Record State : Type := mkState {
  rendered : option Props;
  cleanup : option nat;
  timers : list (nat * Interval);
  nextId : nat;
  sent : list Request
}.

Definition initial : State := mkState None None [] 0 [].

(** [clearInterval(id)] *)
Definition clearInterval (id : nat) (timers : list (nat * Interval))
  : list (nat * Interval) :=
  filter (fun t => negb (Nat.eqb (fst t) id)) timers.

(** A firing of an interval. *)
Definition fetchAnalytics (i : Interval) : list Request :=
  [GetAnalytics (target i)].

(** The body of the effect, for the props of the render that runs it. *)
Definition effect (props : Props) (st : State) : State :=
  if negb (isVisible props)
  then mkState (Some props) None (timers st) (nextId st) (sent st)
  else
    let interval := nextId st in
    mkState (Some props) (Some interval)
            (timers st ++ [(interval, mkInterval (sessionId props) 5000)])
            (S (nextId st))
            (sent st ++ fetchAnalytics (mkInterval (sessionId props) 5000)).

(** The clean-up function of the last run, if it returned one. *)
Definition runCleanup (st : State) : State :=
  match cleanup st with
  | Some interval =>
      mkState (rendered st) None (clearInterval interval (timers st))
              (nextId st) (sent st)
  | None => st
  end.

Inductive Event : Type :=
| Render (props : Props)       (* mount, or render again *)
| Tick (id : nat)              (* the period of interval [id] has elapsed *)
| Unmount.

Definition sameDeps (p q : Props) : bool :=
  (String.eqb (sessionId p) (sessionId q) && Bool.eqb (isVisible p) (isVisible q))%bool.

(** React runs the effect after the first render and after a render in
    which [sessionId] or [isVisible] changed, the clean-up of the previous
    run first; it runs the clean-up when the component unmounts. *)
Definition step (st : State) (e : Event) : State :=
  match e with
  | Render props =>
      match rendered st with
      | Some old =>
          if sameDeps old props
          then mkState (Some props) (cleanup st) (timers st) (nextId st) (sent st)
          else effect props (runCleanup st)
      | None => effect props st
      end
  | Tick id =>
      match find (fun t => Nat.eqb (fst t) id) (timers st) with
      | Some (_, i) =>
          mkState (rendered st) (cleanup st) (timers st) (nextId st)
                  (sent st ++ fetchAnalytics i)
      | None => st
      end
  | Unmount =>
      let st' := runCleanup st in
      mkState None None (timers st') (nextId st') (sent st')
  end.

Definition run (st : State) (events : list Event) : State :=
  fold_left step events st.


(** What a sequence of events leaves on the page: the props of the last
    render, or nothing when the panel was unmounted after it. *)
Definition onPage (shown : option Props) (e : Event) : option Props :=
  match e with
  | Render props => Some props
  | Tick _ => shown
  | Unmount => None
  end.

Definition shown (events : list Event) : option Props :=
  fold_left onPage events None.


End Analytics.

(* ====================================================================== *)
(** ** Moving through the questions: what the hook derives from the index *)
(* ====================================================================== *)

Module Navigation.
Import Types Interview JsNumber.

(** [questionsRemaining], as the hook returns it. *)
Definition questionsRemaining (st : State) : Z :=
  match currentSession st with
  | Some currentSession =>
      Z.of_nat (List.length (Session.questions currentSession))
      - currentQuestionIndex st - 1
  | None => 0
  end.

(** [progress], as the hook returns it. *)
Definition progress (st : State) : number :=
  match currentSession st with
  | Some currentSession =>
      mul (div (of_Z (currentQuestionIndex st + 1))
               (of_Z (Z.of_nat (List.length (Session.questions currentSession)))))
          (of_Z 100)
  | None => of_Z 0
  end.

(** [k] calls of [nextQuestion] in a row, each from the render that the
    previous one caused. *)
Fixpoint advance (k : nat) (st : State) : State :=
  match k with
  | O => st
  | S k' => advance k' (fst (nextQuestion st st))
  end.

(** The index points at a question of the session, or is 0 when there is
    nothing to point at. *)
Definition pointsAtQuestion (st : State) : Prop :=
  0 <= currentQuestionIndex st /\
  match currentSession st with
  | Some currentSession =>
      currentQuestionIndex st = 0 \/
      currentQuestionIndex st < Z.of_nat (List.length (Session.questions currentSession))
  | None => currentQuestionIndex st = 0
  end.



End Navigation.

(* ====================================================================== *)
(** ** The [interviews] entry of the local storage *)
(* ====================================================================== *)

Module Storage.
Import Types Interview.

(** What [completeInterview] pushes: a completed session that carries the
    result computed from its responses. *)
Definition storedCompleted (s : Session.t) : Prop :=
  Session.status s = completed /\
  Session.responses s <> [] /\
  exists result,
    Session.result s = Some result /\
    Result.responses result = Session.responses s /\
    Session.duration s = Result.interviewDuration result.

(** The calls of a run that are calls of [completeInterview]. *)
Definition completions (calls : list Call) : nat :=
  List.length (filter isComplete calls).

End Storage.

(* ====================================================================== *)
(** ** Identifiers and texts of the questions *)
(* ====================================================================== *)

Module Identifiers.
Import Types JsString.

Definition ids (questions : list Question.t) : list string :=
  List.map Question.id questions.

Definition startsWithSpace (s : string) : bool :=
  match s with
  | EmptyString => false
  | String c _ => isSpace c
  end.

Fixpoint endsWithSpace (s : string) : bool :=
  match s with
  | EmptyString => false
  | String c EmptyString => isSpace c
  | String _ s' => endsWithSpace s'
  end.

(** No hyphen among the characters. *)
Definition hyphenFree (s : string) : bool :=
  forallb (fun c => negb (Ascii.eqb c "-")) s.

(** [t] is [s] without the white space at its two ends. *)
Definition trimmedFrom (s t : string) : Prop :=
  (exists before after,
     s = (before ++ t ++ after)%string /\
     forallb isSpace before = true /\ forallb isSpace after = true) /\
  startsWithSpace t = false /\ endsWithSpace t = false.

End Identifiers.

(* ====================================================================== *)
(** ** What a pattern matches *)
(* ====================================================================== *)

Module Language.
Import JsString RegExp.

(** [Matches ignoreCase r w]: the pattern [r] matches the whole of [w]. *)
Inductive Matches (ignoreCase : bool) : regex -> string -> Prop :=
| MatchesEmpty : Matches ignoreCase Empty EmptyString
| MatchesChr (p c : ascii) :
    chr_matches ignoreCase p c = true ->
    Matches ignoreCase (Chr p) (String c EmptyString)
| MatchesDigit (c : ascii) :
    isDigit c = true -> Matches ignoreCase Digit (String c EmptyString)
| MatchesAnyChar (c : ascii) :
    isLineTerminator c = false -> Matches ignoreCase AnyChar (String c EmptyString)
| MatchesLeft (r1 r2 : regex) (w : string) :
    Matches ignoreCase r1 w -> Matches ignoreCase (Alt r1 r2) w
| MatchesRight (r1 r2 : regex) (w : string) :
    Matches ignoreCase r2 w -> Matches ignoreCase (Alt r1 r2) w
| MatchesSeq (r1 r2 : regex) (w1 w2 : string) :
    Matches ignoreCase r1 w1 -> Matches ignoreCase r2 w2 ->
    Matches ignoreCase (Seq r1 r2) (w1 ++ w2)
| MatchesNone (r : regex) : Matches ignoreCase (Star r) EmptyString
| MatchesMore (r : regex) (w1 w2 : string) :
    Matches ignoreCase r w1 -> Matches ignoreCase (Star r) w2 ->
    Matches ignoreCase (Star r) (w1 ++ w2).

(** Equal up to the case of the letters. *)
Definition sameIgnoringCase (a b : string) : Prop :=
  map toUpperCase_char a = map toUpperCase_char b.

(** [w] is a piece of [s]. *)
Definition occursIn (w s : string) : Prop :=
  exists before after, s = (before ++ w ++ after)%string.

(** [s] contains [word], in whatever case. *)
Definition containsIgnoringCase (word s : string) : Prop :=
  exists w, sameIgnoringCase word w /\ occursIn w s.

(** [s] contains a digit with [word] right after it. *)
Definition digitThen (word s : string) : Prop :=
  exists d w,
    isDigit d = true /\ sameIgnoringCase word w /\ occursIn (String d w) s.

(** [s] contains a dollar sign with a digit right after it. *)
Definition dollarThenDigit (s : string) : Prop :=
  exists d, isDigit d = true /\ occursIn (String "$" (String d EmptyString)) s.

End Language.

(* ====================================================================== *)
(** ** Requirements written with letters, digits, commas and white space *)
(* ====================================================================== *)

Module Requirements.
Import JsString Interview.

(** A letter, a digit, an underscore, or a character of the separator
    [[,\s]+]. *)
Definition isPlain (c : ascii) : bool := (isWordChar c || isSeparator c)%bool.

(** The pieces that [submitResponse] joins into the pattern. *)
Definition pieces (requirements : string) : list string :=
  firstn 5 (split isSeparator requirements).

End Requirements.

(* ====================================================================== *)
(** ** The media streams of [useCamera] *)
(* ====================================================================== *)

Module Streams.

(** [live] has one entry for each stream that [getUserMedia] has handed
    out, true while the tracks of the stream have not been stopped; a stream
    is known by its position.  [streamRef] is the ref of the hook. *)
Record State : Type := mkState {
  live : list bool;
  streamRef : option nat
}.

Definition initial : State := mkState [] None.

(** [granted]: [getUserMedia] resolves; [videoMounted]: [videoRef.current]
    is an element at that moment. *)
Definition startCamera (granted videoMounted : bool) (st : State) : State :=
  if granted then
    let stream := List.length (live st) in
    mkState (live st ++ [true])
            (if videoMounted then Some stream else streamRef st)
  else st.

(** [streamRef.current.getTracks().forEach(track => track.stop())] and the
    reset of the ref. *)
Definition stopCamera (st : State) : State :=
  match streamRef st with
  | Some stream => mkState (Listening.update stream false (live st)) None
  | None => st
  end.

Inductive Call : Type :=
| StartCamera (granted videoMounted : bool)
| StopCamera.

Definition step (st : State) (c : Call) : State :=
  match c with
  | StartCamera granted videoMounted => startCamera granted videoMounted st
  | StopCamera => stopCamera st
  end.

Definition run (st : State) (calls : list Call) : State :=
  fold_left step calls st.

Definition isLive (st : State) (stream : nat) : Prop :=
  nth_error (live st) stream = Some true.


(** No stream is live but the one that the ref holds, which is the one
    handed out last. *)
Definition held (st : State) : Prop :=
  exists n,
    live st = repeat false n ++
              (match streamRef st with Some _ => [true] | None => [] end) /\
    (forall stream, streamRef st = Some stream -> stream = n).

End Streams.

(* ====================================================================== *)
(** ** The [CameraCheck] screen as a whole *)
(* ====================================================================== *)

Module CameraCheck.
Import Camera.

(** An error object, as a [catch] clause reads it. *)
Record Error : Type := mkError { name : string; message : string }.

(** What [navigator.mediaDevices.enumerateDevices()] settles to: the kinds
    of the devices, or a rejection. *)
Inductive Devices : Type :=
| EnumerationRejected (e : Error)
| Kinds (kinds : list string).

(** The video and canvas elements that the refs hold while the screen
    renders them. *)
Record Elements : Type := mkElements { video : Video; canvas : Canvas }.

(** The cells of the component ([check] holds [checkStatus], [faceCount],
    [detectionActive], the detection interval and the calls of
    [onCameraReady]), the cells of the [useCamera] hook it calls, the
    two-second timers of [performCameraCheck] that have not fired yet (each
    with the [isActive] that its closure holds), the requests sent to
    [/detect] and the streams that [getUserMedia] has handed to the hook. *)
Record State : Type := mkState {
  check : CheckState;
  errorMessage : string;
  troubleshootingStep : Z;
  retryCount : Z;
  camera : Camera.State;
  pending : list bool;
  sent : list Request;
  streams : Streams.State
}.

Definition initial : State :=
  mkState (mkCheck checking 0 false None []) EmptyString 0 0 Camera.initial [] []
          Streams.initial.

Definition withCheck (c : CheckState) (st : State) : State :=
  mkState c (errorMessage st) (troubleshootingStep st) (retryCount st)
          (camera st) (pending st) (sent st) (streams st).

(** What [startCamera] leaves: the cells of the hook and its streams. *)
Definition withCamera (c : Camera.State) (s : Streams.State) (st : State) : State :=
  mkState (check st) (errorMessage st) (troubleshootingStep st) (retryCount st)
          c (pending st) (sent st) s.

(** [setCheckStatus(status); setErrorMessage(message)] *)
Definition report (status : CheckStatus) (message : string) (st : State) : State :=
  mkState (mkCheck status (faceCount (check st)) (detectionActive (check st))
                   (detectionIntervalRef (check st)) (cameraReady (check st)))
          message (troubleshootingStep st) (retryCount st)
          (camera st) (pending st) (sent st) (streams st).

(** [onCameraReady(isReady)] *)
Definition onCameraReady (isReady : bool) (st : State) : State :=
  withCheck (mkCheck (checkStatus (check st)) (faceCount (check st))
                     (detectionActive (check st)) (detectionIntervalRef (check st))
                     (cameraReady (check st) ++ [isReady]))
            st.

(** The screen renders the video and the canvas in the statuses 'checking'
    and 'success', and only while [isActive] holds. *)
Definition videoMounted (st : State) : bool :=
  match checkStatus (check st) with
  | checking | check_success => isActive (camera st)
  | check_error | no_camera => false
  end.

Definition refs (els : Elements) (st : State) : Refs :=
  if videoMounted st
  then mkRefs (Some (video els)) (Some (canvas els))
  else mkRefs None None.

(** [devices.filter(device => device.kind === 'videoinput').length === 0]
    fails. *)
Definition hasVideoInput (kinds : list string) : bool :=
  existsb (String.eqb "videoinput") kinds.

(** The [catch] clause of [performCameraCheck]. *)
Definition failureMessage (e : Error) : string :=
  (if String.eqb (name e) "NotAllowedError"
   then "Camera access was denied. Please allow camera permissions and try again."
   else if String.eqb (name e) "NotFoundError"
   then "No camera found. Please connect a camera and try again."
   else if String.eqb (name e) "NotReadableError"
   then "Camera is being used by another application. Please close other video apps and try again."
   else "Unable to access camera. Please check your camera settings and try again.")%string.

Definition reportFailure (e : Error) (st : State) : State :=
  onCameraReady false (report check_error (failureMessage e) st).

(** What [startCamera] throws when [getUserMedia] rejects: a new [Error]
    that carries the message it has just set. *)
Definition thrownByStartCamera (rejection : string) : Error :=
  mkError "Error" (cameraError rejection).

(** [performCameraCheck], up to the point where it has scheduled its
    two-second timer.  [closureActive] is the [isActive] of the render that
    created the function, [devices] what the enumeration settles to and
    [media] the name of the error with which [getUserMedia] rejects, if it
    does. *)
Definition performCameraCheck (closureActive : bool) (devices : Devices)
           (media : option string) (els : Elements) (st : State) : State :=
  let st := report checking EmptyString st in
  match devices with
  | EnumerationRejected e => reportFailure e st
  | Kinds kinds =>
      if hasVideoInput kinds then
        let started :=
          withCamera (fst (startCamera media (refs els st) (camera st)))
                     (Streams.startCamera
                        (match media with Some _ => false | None => true end)
                        (videoMounted st) (streams st))
                     st in
        match media with
        | Some rejection => reportFailure (thrownByStartCamera rejection) started
        | None =>
            mkState (check started) (errorMessage started)
                    (troubleshootingStep started) (retryCount started)
                    (camera started) (pending started ++ [closureActive])
                    (sent started) (streams started)
        end
      else
        onCameraReady false
          (report no_camera "No camera detected on this device" st)
  end.

(** The body of the two-second timer. *)
Definition cameraCheckTimer (closureActive : bool) (st : State) : State :=
  if closureActive
  then report checking (errorMessage st) st
  else onCameraReady false
         (report check_error "Camera failed to start properly" st).

(** The effect that depends on [isActive] and [checkStatus], run by React
    after a render in which one of them changed; run again with both
    unchanged it sets what is set already. *)
Definition settle (st : State) : State :=
  withCheck (detectionEffect (isActive (camera st)) (check st)) st.

(** The number of troubleshooting steps. *)
Definition troubleshootingSteps : Z := 4.

Inductive Event : Type :=
| TryAgain (devices : Devices) (media : option string) (els : Elements)
| TimerFires                   (* the oldest two-second timer still waiting *)
| NextStep
| ContinueWithoutCamera
| ContinueToInterview
| DetectionTick (els : Elements) (reply : DetectReply).

Definition handle (st : State) (e : Event) : State :=
  match e with
  | TryAgain devices media els =>
      performCameraCheck (isActive (camera st)) devices media els
        (mkState (check st) (errorMessage st) (troubleshootingStep st)
                 (retryCount st + 1) (camera st) (pending st) (sent st) (streams st))
  | TimerFires =>
      match pending st with
      | closureActive :: rest =>
          cameraCheckTimer closureActive
            (mkState (check st) (errorMessage st) (troubleshootingStep st)
                     (retryCount st) (camera st) rest (sent st) (streams st))
      | [] => st
      end
  | NextStep =>
      mkState (check st) (errorMessage st)
              (Z.min (troubleshootingStep st + 1) (troubleshootingSteps - 1))
              (retryCount st) (camera st) (pending st) (sent st) (streams st)
  | ContinueWithoutCamera => onCameraReady true st
  | ContinueToInterview => onCameraReady true st
  | DetectionTick els reply =>
      match detectionIntervalRef (check st) with
      | Some _ =>
          let '(c, requests) :=
            detectFaces (isActive (camera st)) (refs els st) reply (check st) in
          mkState c (errorMessage st) (troubleshootingStep st) (retryCount st)
                  (camera st) (pending st) (sent st ++ requests) (streams st)
      | None => st
      end
  end.

Definition step (st : State) (e : Event) : State := settle (handle st e).

Definition run (st : State) (events : list Event) : State :=
  fold_left step events st.

(** The screen once mounted: the effect without dependencies has called the
    [performCameraCheck] of the first render. *)
Definition mount (devices : Devices) (media : option string) (els : Elements) : State :=
  settle (performCameraCheck (isActive (camera initial)) devices media els initial).

(** What the screen offers in a state: the buttons it renders and enables,
    the timers that wait, the interval that runs. *)
Definition offered (st : State) (e : Event) : bool :=
  match e, checkStatus (check st) with
  | TryAgain _ _ _, check_error => true
  | NextStep, check_error =>
      ((retryCount st <? 3) && (troubleshootingStep st <? troubleshootingSteps - 1))%bool
  | ContinueWithoutCamera, no_camera => true
  | ContinueWithoutCamera, check_error => 3 <=? retryCount st
  | ContinueToInterview, check_success => true
  | TimerFires, _ => match pending st with [] => false | _ :: _ => true end
  | DetectionTick _ _, _ =>
      match detectionIntervalRef (check st) with Some _ => true | None => false end
  | _, _ => false
  end.

(** Every event of the run is offered when it happens. *)
Fixpoint possible (st : State) (events : list Event) : Prop :=
  match events with
  | [] => True
  | e :: rest => offered st e = true /\ possible (step st e) rest
  end.

(** The check ends in the status 'no-camera'. *)
Definition reportsNoCamera (devices : Devices) : bool :=
  match devices with
  | EnumerationRejected _ => false
  | Kinds kinds => negb (hasVideoInput kinds)
  end.

Definition retryReportsNoCamera (e : Event) : bool :=
  match e with
  | TryAgain devices _ _ => reportsNoCamera devices
  | _ => false
  end.

(** The check obtains a stream: a camera is found and [getUserMedia]
    resolves. *)
Definition obtainsStream (devices : Devices) (media : option string) : bool :=
  match devices, media with
  | Kinds kinds, None => hasVideoInput kinds
  | _, _ => false
  end.

(** How many retries of a run obtain a stream. *)
Definition streamsObtained (events : list Event) : nat :=
  List.length
    (filter (fun e => match e with
                      | TryAgain devices media _ => obtainsStream devices media
                      | _ => false
                      end)
            events).

(** What holds of the screen from the mount on: the camera is not active,
    no interval runs, nothing was sent, every timer that waits holds
    [isActive = false], and the status is not 'success'. *)
Definition idle (st : State) : Prop :=
  isActive (camera st) = false /\
  faceDetectionRef (camera st) = None /\
  detectionIntervalRef (check st) = None /\
  detectionActive (check st) = false /\
  sent st = [] /\
  Forall (fun closureActive => closureActive = false) (pending st) /\
  checkStatus (check st) <> check_success.

(** What holds besides while no check reports a missing camera and every
    event is offered when it happens. *)
Definition guarded (st : State) : Prop :=
  idle st /\
  checkStatus (check st) <> no_camera /\
  0 <= troubleshootingStep st <= troubleshootingSteps - 1 /\
  (In true (cameraReady (check st)) -> 3 <= retryCount st).

End CameraCheck.

(* ====================================================================== *)
(** ** The [QuestionGenerator] component *)
(* ====================================================================== *)

Module QuestionGenerator.
Import Types Network.

(** The cells of the component; [questions] holds what [setQuestions] was
    given, which is the [questions] member of the reply as it came. *)
Record State : Type := mkState {
  jobDescription : string;
  questions : QuestionsField;
  loading : bool;
  error : string
}.

Definition initial : State := mkState EmptyString (Texts []) false EmptyString.

(** The body of the [POST] to [/generate_question]. *)
Inductive Request : Type := PostJobDescription (job_description : string).

(** The state in which the [catch] clause and the [finally] clause leave
    the component. *)
Definition failedWith (message : string) (st : State) : State :=
  mkState (jobDescription st) (questions st) false message.

(** [handleGenerate], once the promise has settled: the state and the
    requests sent. *)
Definition handleGenerate (r : Reply) (st : State) : State * list Request :=
  if JsString.isEmpty (JsString.trim (jobDescription st)) then
    (mkState (jobDescription st) (questions st) (loading st)
             "Please enter a job description.", [])
  else
    let request := [PostJobDescription (jobDescription st)] in
    match r with
    | NetworkError message => (failedWith message st, request)
    | Response _ (NotJson message) => (failedWith message st, request)
    | Response false (Json e _) =>
        (failedWith (or_else e "Failed to fetch questions") st, request)
    | Response true (Json _ delivered) =>
        (mkState (jobDescription st) delivered false EmptyString, request)
    end.

End QuestionGenerator.

(* ====================================================================== *)
(** ** The interviewer avatar: [aiBot] *)
(* ====================================================================== *)

Module Bot.

Record AIBotState : Type := mkBot {
  isListening : bool;
  isSpeaking : bool;
  currentEmotion : string;
  message : string;
  isWaitingForResponse : bool
}.

(** The cell [aiBot] with the cells and objects of the audio capture. *)
Record State : Type := mkState {
  aiBot : AIBotState;
  audio : Listening.State
}.

Definition initial : State :=
  mkState (mkBot false false "neutral"
                 "Hello! I'm your AI interviewer. Ready to begin?" false)
          Listening.initial.

(** [speak(text)]; [available]: the window has [speechSynthesis]. *)
Definition speak (available : bool) (text : string) (st : State) : State :=
  if available then
    mkState (mkBot (isListening (aiBot st)) true (currentEmotion (aiBot st)) text false)
            (audio st)
  else st.

(** [utterance.onend] *)
Definition utteranceEnded (st : State) : State :=
  mkState (mkBot (isListening (aiBot st)) false (currentEmotion (aiBot st))
                 (message (aiBot st)) true)
          (audio st).

(** [startListening]: nothing is set when [getUserMedia] rejects. *)
Definition startListening (granted speech : bool) (st : State) : State :=
  if granted then
    mkState (mkBot true (isSpeaking (aiBot st)) "thinking" (message (aiBot st)) false)
            (Listening.startListening granted speech (audio st))
  else st.

(** The transcript that [recognition.onresult] puts together: the
    transcripts of the final results, in order. *)
Definition finalTranscript (results : list (bool * string)) : string :=
  fold_left (fun (transcript : string) (result : bool * string) =>
               if fst result then (transcript ++ snd result)%string else transcript)
            results EmptyString.

Definition quote : string := String (ascii_of_nat 34) EmptyString.

(** [recognition.onresult] *)
Definition heard (results : list (bool * string)) (st : State) : State :=
  if JsString.isEmpty (finalTranscript results) then st
  else
    mkState (mkBot (isListening (aiBot st)) (isSpeaking (aiBot st))
                   (currentEmotion (aiBot st))
                   ("I heard: " ++ quote ++ finalTranscript results ++ quote
                    ++ ". Please continue or click stop when finished.")%string
                   (isWaitingForResponse (aiBot st)))
            (audio st).

(** [stopListening], which acts when the ref holds a recorder and
    [isRecording] is true. *)
Definition stopListening (st : State) : State :=
  match Listening.mediaRecorderRef (audio st) with
  | Some _ =>
      if Listening.isRecording (audio st) then
        mkState (mkBot false (isSpeaking (aiBot st)) "happy" (message (aiBot st)) false)
                (Listening.stopListening (audio st))
      else st
  | None => st
  end.

(** The timer started by the [onstop] handler of the recorder. *)
Definition praised (st : State) : State :=
  mkState (mkBot (isListening (aiBot st)) (isSpeaking (aiBot st)) "happy"
                 "Great response! I'm analyzing your answer. Let's move to the next question."
                 (isWaitingForResponse (aiBot st)))
          (audio st).

Inductive Event : Type :=
| Speak (available : bool) (text : string)
| UtteranceEnded
| StartListening (granted speech : bool)
| Heard (results : list (bool * string))
| StopListening
| Praised.

Definition step (st : State) (e : Event) : State :=
  match e with
  | Speak available text => speak available text st
  | UtteranceEnded => utteranceEnded st
  | StartListening granted speech => startListening granted speech st
  | Heard results => heard results st
  | StopListening => stopListening st
  | Praised => praised st
  end.

Definition run (st : State) (events : list Event) : State :=
  fold_left step events st.

(** The avatar listens exactly while the hook records, and it does not
    wait for a response while it speaks. *)
Definition consistent (st : State) : Prop :=
  isListening (aiBot st) = Listening.isRecording (audio st) /\
  (isSpeaking (aiBot st) && isWaitingForResponse (aiBot st))%bool = false.

End Bot.

(* ====================================================================== *)
(** ** The speech recognizers of [startListening] *)
(* ====================================================================== *)

Module Recognition.
Import Listening.



End Recognition.

(* ====================================================================== *)
(** ** The ranges of the scores *)
(* ====================================================================== *)

Module Ranges.
Import Types Interview JsNumber.

(** The ranges in which [submitResponse] leaves the three scores of a
    response. *)
Definition scoresInRange (r : Response.t) : Prop :=
  70 <= Response.confidence r <= 100 /\
  75 <= Response.clarity r <= 100 /\
  60 <= Response.relevanceScore r <= 100.

(** A number that is an integer between [lo] and [hi]. *)
Definition wholeWithin (lo hi : Z) (x : number) : Prop :=
  exists k, x = of_Z k /\ lo <= k <= hi.

(** The responses of the current session, at most [n] of them, have their
    scores in range. *)
Definition inRange (n : nat) (st : State) : Prop :=
  forall s, currentSession st = Some s ->
            Forall scoresInRange (Session.responses s) /\
            (List.length (Session.responses s) <= n)%nat.

End Ranges.

(* ====================================================================== *)
(** ** Sample inputs *)
(* ====================================================================== *)

Module Samples.
Import Types.

(** A frame of two pixels, one of them skin-toned. *)
Definition skin_pixel : Camera.Pixel := Camera.mkPixel 200 150 120 255.
Definition dark_pixel : Camera.Pixel := Camera.mkPixel 20 20 20 255.

Definition ready_refs : Camera.Refs :=
  Camera.mkRefs (Some (Camera.mkVideo 2 1 [skin_pixel; dark_pixel]))
                (Some (Camera.mkCanvas true)).

Definition active_closure : Camera.Closure := Camera.mkClosure true true 0.

(** Two job descriptions that differ in their requirements. *)
Definition frontend : JobDescription.t :=
  JobDescription.mk "Frontend Engineer" "Acme" technical "senior"
                    (Some "React, TypeScript"%string).

Definition systems : JobDescription.t :=
  JobDescription.mk "Systems Engineer" "Acme" technical "senior"
                    (Some "C++, Rust"%string).

Definition candidate : StudentInfo.t := StudentInfo.mk "Ada" None.

(** The backend is not reachable. *)
Definition offline : Questions.Env :=
  Questions.mkEnv true (Network.NetworkError "Failed to fetch") (fun _ => 0).

(** Draws: the doubles nearest to 0.5, 0.75, 0.9 and 0.6. *)
Definition half : JsNumber.Draw := JsNumber.mkDraw (JsNumber.decimal 1 2) eq_refl.
Definition threeQuarters : JsNumber.Draw :=
  JsNumber.mkDraw (JsNumber.decimal 3 4) eq_refl.
Definition nineTenths : JsNumber.Draw :=
  JsNumber.mkDraw (JsNumber.decimal 9 10) eq_refl.
Definition sixTenths : JsNumber.Draw :=
  JsNumber.mkDraw (JsNumber.decimal 6 10) eq_refl.
Definition almostOne : JsNumber.Draw :=
  JsNumber.mkDraw (S754_finite false 9007199254740991 (-53)) eq_refl.

Definition draws : Interview.Draws := Interview.mkDraws half threeQuarters nineTenths.

Definition completionDraws : Interview.CompletionDraws :=
  Interview.mkCompletionDraws half half.

Definition anAnswer : string :=
  "In my last project I used React for 3 years and improved load time by 40%.".

Definition start (jd : JobDescription.t) : Interview.Call :=
  Interview.StartInterview offline "k3x9q0z1a" 1000 1000 candidate jd.

Definition answer1 : Interview.Call :=
  Interview.SubmitResponse draws "fallback-0" anAnswer (45 # 1)%Q None.

(** The session that [start frontend] creates, and the state it leaves. *)
Definition fresh : Session.t :=
  snd (Interview.startInterview offline "k3x9q0z1a" 1000 1000 candidate frontend
                                Interview.initial).

Definition started : Interview.State :=
  Interview.step RegExp.reference_RegExp_i Interview.initial (start frontend).

(** An interview that was started, answered once and completed after a
    minute. *)
Definition completedOnce : Interview.State :=
  Interview.run RegExp.reference_RegExp_i Interview.initial
    [start frontend; answer1; Interview.CompleteInterview completionDraws 61000].

End Samples.

(* ====================================================================== *)
(** ** More sample inputs *)
(* ====================================================================== *)

Module Scenarios.
Import Types.

(** The backend delivers two texts. *)
Definition online : Questions.Env :=
  Questions.mkEnv true
    (Network.Response true
       (Network.Json None
          (Network.Texts ["  What is a React hook? "; "Tell me about closures."]%string)))
    (fun _ => 1700000000000).

(** Requirements that start with a space. *)
Definition spaced : JobDescription.t :=
  JobDescription.mk "Frontend Engineer" "Acme" technical "senior"
                    (Some " React, TypeScript"%string).

(** The interview of [Samples], started and then stopped after half a
    minute: the renders, and the session that is current. *)
Definition startedAndStopped : list Interview.Invocation :=
  [Interview.through 0 (Samples.start Samples.frontend);
   Interview.through 0 (Interview.StopInterview 31000)].

Definition stoppedSession : Session.t :=
  match snd (Interview.stopInterview 31000 Samples.started Samples.started) with
  | Some s => s
  | None => Samples.fresh
  end.

(** The interview of [Samples], answered once. *)
Definition answeredOnce : list Interview.Call :=
  [Samples.start Samples.frontend; Samples.answer1].

Definition answeredSession : Session.t :=
  Interview.withResponses Samples.fresh
    [Interview.buildResponse Samples.draws true "fallback-0" Samples.anAnswer
                             (45 # 1)%Q None].

Definition aResult : Result.t :=
  Interview.buildResult Samples.completionDraws 61000 1000 answeredSession.

(** A device with a microphone and a camera, and the elements of the
    screen. *)
Definition webcam : CameraCheck.Devices :=
  CameraCheck.Kinds ["audioinput"; "videoinput"]%string.

Definition elements : CameraCheck.Elements :=
  CameraCheck.mkElements
    (Camera.mkVideo 2 1 [Samples.skin_pixel; Samples.dark_pixel])
    (Camera.mkCanvas true).

Definition retry : CameraCheck.Event := CameraCheck.TryAgain webcam None elements.

(** The candidate lets every check run to its end, retries three times and
    then continues without the camera. *)
Definition threeRetries : list CameraCheck.Event :=
  [CameraCheck.TimerFires; retry; CameraCheck.TimerFires; retry;
   CameraCheck.TimerFires; retry; CameraCheck.TimerFires;
   CameraCheck.ContinueWithoutCamera].

(** A stream obtained before the video element was there. *)
Definition unattached : Streams.State :=
  Streams.run Streams.initial [Streams.StartCamera true false].

End Scenarios.

(* ====================================================================== *)
(** * Properties *)
(* ====================================================================== *)

(** ** The definitions at work *)

Example split_requirements :
  JsString.split Interview.isSeparator "React, Node.js,  TS "
  = ["React"; "Node.js"; "TS"; EmptyString]%string.
Proof. reflexivity. Qed.

Example pattern_of_requirements :
  Interview.requirementsPattern "C++, Rust" = "C++|Rust"%string.
Proof. reflexivity. Qed.

Example quantifier_without_atom :
  RegExp.fragment_RegExp_i "C++|Rust" = Some RegExp.SyntaxError.
Proof. reflexivity. Qed.

Example group_outside_fragment : RegExp.fragment_RegExp_i "(a|b)" = None.
Proof. reflexivity. Qed.

Example ignore_case_search :
  RegExp.test true (RegExp.lit "react") "I know REACT well" = true /\
  RegExp.test false (RegExp.lit "react") "I know REACT well" = false.
Proof. split; reflexivity. Qed.

Example quantified_results :
  Interview.hasQuantifiableResults "cut costs by 40%" = true /\
  Interview.hasQuantifiableResults "for 3 years" = true /\
  Interview.hasQuantifiableResults "a budget of $5000" = true /\
  Interview.hasQuantifiableResults "about 40 percent" = false.
Proof. repeat split; reflexivity. Qed.

Example keywords_of_sentence :
  Interview.uniqueKeywords "The quick brown foxes; the QUICK brown_fox, again"
  = ["quick"; "brown"; "foxes"; "brown_fox"; "again"]%string.
Proof. reflexivity. Qed.

Example first_fallback_question :
  List.map Types.Question.text
           (firstn 1 (Questions.generateFallbackQuestions Samples.systems))
  = ["Tell me about your experience with C++."]%string.
Proof. reflexivity. Qed.

Example sample_scores :
  option_map
    (List.map (fun r => (Types.Response.confidence r, Types.Response.clarity r,
                         Types.Response.relevanceScore r)))
    (Interview.sessionResponses
       (Interview.run RegExp.reference_RegExp_i Interview.initial
                      [Samples.start Samples.frontend; Samples.answer1]))
  = Some [(100, 95, 97)].
Proof. vm_compute. reflexivity. Qed.

(** The products are rounded: the double nearest to 0.6, which lies below
    0.6, gives 12 with 20 and 3 with 5; the largest draw, [1 - 2^-53], still
    gives 19, 4 and 24. *)
Example rounded_products :
  Interview.randomBelow 20 Samples.sixTenths = 12 /\
  Interview.randomBelow 5 Samples.sixTenths = 3 /\
  Interview.randomBelow 20 Samples.almostOne = 19 /\
  Interview.randomBelow 5 Samples.almostOne = 4 /\
  Interview.randomBelow 25 Samples.almostOne = 24.
Proof. repeat split; vm_compute; reflexivity. Qed.

Example literal_two_hundredths : JsNumber.decimal 2 100 = Binary64.literal_0_02.
Proof. vm_compute. reflexivity. Qed.

(** One skin-toned pixel in 50 is not more than 0.02; one in 49 is. *)
Example one_in_fifty :
  Camera.facePresent (Samples.skin_pixel :: repeat Samples.dark_pixel 49) = false /\
  Camera.facePresent (Samples.skin_pixel :: repeat Samples.dark_pixel 48) = true.
Proof. split; vm_compute; reflexivity. Qed.

(** ** Strings *)

Section StringFacts.
Import JsString.
Open Scope string_scope.

Lemma append_nil_r (s : string) : s ++ EmptyString = s.
Proof. induction s as [|c s IH]; cbn; [reflexivity | now rewrite IH]. Qed.

Lemma append_assoc (s1 s2 s3 : string) : (s1 ++ s2) ++ s3 = s1 ++ s2 ++ s3.
Proof. induction s1 as [|c s1 IH]; cbn; [reflexivity | now rewrite IH]. Qed.

Lemma length_append (s1 s2 : string) :
  String.length (s1 ++ s2) = (String.length s1 + String.length s2)%nat.
Proof. induction s1 as [|c s1 IH]; cbn; [reflexivity | now rewrite IH]. Qed.

Lemma forallb_append (p : ascii -> bool) (s1 s2 : string) :
  forallb p (s1 ++ s2) = (forallb p s1 && forallb p s2)%bool.
Proof.
  induction s1 as [|c s1 IH]; cbn; [reflexivity|].
  now rewrite IH, andb_assoc.
Qed.

Lemma forallb_snoc (p : ascii -> bool) (s : string) (c : ascii) :
  forallb p s = true -> p c = true -> forallb p (snoc s c) = true.
Proof.
  intros Hs Hc. unfold snoc. rewrite forallb_append, Hs. cbn. now rewrite Hc.
Qed.

Lemma snoc_append (s : string) (c : ascii) (t : string) :
  snoc s c ++ t = s ++ String c t.
Proof. unfold snoc. now rewrite append_assoc. Qed.

Lemma map_append (f : ascii -> ascii) (s1 s2 : string) :
  map f (s1 ++ s2) = map f s1 ++ map f s2.
Proof. induction s1 as [|c s1 IH]; cbn; [reflexivity | now rewrite IH]. Qed.

(** A piece of [map f s] is the image of a piece of [s]. *)
Lemma map_append_inv (f : ascii -> ascii) (s t1 t2 : string) :
  map f s = t1 ++ t2 ->
  exists s1 s2, s = s1 ++ s2 /\ map f s1 = t1 /\ map f s2 = t2.
Proof.
  revert s. induction t1 as [|c t1 IH]; intros s H.
  - exists EmptyString, s. auto.
  - destruct s as [|d s]; [discriminate|].
    cbn in H. injection H as Hc Hs.
    destruct (IH s Hs) as (s1 & s2 & -> & H1 & H2).
    exists (String d s1), s2. cbn. now rewrite Hc, H1.
Qed.

Lemma toLowerCase_char_idem (c : ascii) :
  toLowerCase_char (toLowerCase_char c) = toLowerCase_char c.
Proof.
  destruct c as [[] [] [] [] [] [] [] []]; reflexivity.
Qed.

Lemma isWordChar_toLowerCase_char (c : ascii) :
  isWordChar (toLowerCase_char c) = isWordChar c.
Proof.
  destruct c as [[] [] [] [] [] [] [] []]; reflexivity.
Qed.

Lemma forallb_word_toLowerCase (s : string) :
  forallb isWordChar (toLowerCase s) = forallb isWordChar s.
Proof.
  unfold toLowerCase. induction s as [|c s IH]; cbn; [reflexivity|].
  now rewrite isWordChar_toLowerCase_char, IH.
Qed.

Lemma ends_with_word_toLowerCase (s : string) :
  ends_with_word (toLowerCase s) = ends_with_word s.
Proof.
  unfold toLowerCase. induction s as [|c s IH]; [reflexivity|].
  cbn [map ends_with_word]. destruct s as [|d s].
  - cbn [map]. apply isWordChar_toLowerCase_char.
  - cbn [map] in *. exact IH.
Qed.

Lemma starts_with_word_toLowerCase (s : string) :
  starts_with_word (toLowerCase s) = starts_with_word s.
Proof. destruct s; [reflexivity | apply isWordChar_toLowerCase_char]. Qed.

Lemma toLowerCase_idem (s : string) : toLowerCase (toLowerCase s) = toLowerCase s.
Proof.
  unfold toLowerCase. induction s as [|c s IH]; cbn; [reflexivity|].
  now rewrite toLowerCase_char_idem, IH.
Qed.

End StringFacts.

(** ** Keyword extraction *)

Section KeywordFacts.
Import JsString Interview.
Open Scope string_scope.

Lemma ends_with_word_append (pre : string) (c : ascii) (t : string) :
  ends_with_word (pre ++ String c t) = ends_with_word (String c t).
Proof.
  induction pre as [|d pre IH]; [reflexivity|].
  cbn [append]. rewrite <- IH. cbn [ends_with_word].
  destruct (pre ++ String c t) eqn:E; [destruct pre; discriminate E | reflexivity].
Qed.

Lemma ends_with_word_after (pre : string) (c : ascii) (t : string) :
  isWordChar c = false -> ends_with_word t = false ->
  ends_with_word (pre ++ String c t) = false.
Proof.
  intros Hc Ht. rewrite ends_with_word_append. cbn [ends_with_word].
  destruct t; assumption.
Qed.

Lemma In_emit (cur w : string) :
  In w (emit cur) -> w = cur /\ (4 <= String.length w)%nat.
Proof.
  unfold emit. destruct (Nat.leb_spec 4 (String.length cur)); cbn; [|tauto].
  intros [<- | []]. auto.
Qed.

(** Every run that [words_from] emits is a word of what it reads, [cur]
    being a run of word characters that starts a word. *)
Lemma words_from_word (s cur w : string) :
  JsString.forallb isWordChar cur = true ->
  In w (words_from cur s) ->
  (4 <= String.length w)%nat /\
  exists pre post,
    cur ++ s = pre ++ w ++ post /\
    JsString.forallb isWordChar w = true /\
    (pre = EmptyString \/ ends_with_word pre = false) /\
    (pre = EmptyString -> exists t, w = cur ++ t) /\
    starts_with_word post = false.
Proof.
  revert cur. induction s as [|c s IH]; intros cur Hcur Hin; cbn [words_from] in Hin.
  - apply In_emit in Hin as [-> Hlen]. split; [assumption|].
    exists EmptyString, EmptyString. cbn [append]. rewrite !append_nil_r.
    repeat split; auto. intros _. exists EmptyString. now rewrite append_nil_r.
  - destruct (isWordChar c) eqn:Hc.
    + destruct (IH (snoc cur c) (forallb_snoc isWordChar cur c Hcur Hc) Hin)
        as (Hlen & pre & post & E & Hw & Hpre & Hstart & Hpost).
      split; [assumption|]. exists pre, post.
      rewrite snoc_append in E. repeat split; auto.
      intros Hp. destruct (Hstart Hp) as [t ->]. exists (String c t).
      now rewrite snoc_append.
    + apply in_app_or in Hin as [Hin | Hin].
      * apply In_emit in Hin as [-> Hlen]. split; [assumption|].
        exists EmptyString, (String c s). cbn [append starts_with_word].
        repeat split; auto. intros _. exists EmptyString. now rewrite append_nil_r.
      * destruct (IH EmptyString eq_refl Hin)
          as (Hlen & pre & post & E & Hw & Hpre & Hstart & Hpost).
        split; [assumption|]. cbn [append] in E.
        exists (cur ++ String c pre), post.
        rewrite append_assoc. cbn [append]. rewrite E.
        repeat split; auto.
        -- right. apply ends_with_word_after; [assumption|].
           destruct Hpre as [-> | Hpre]; [reflexivity | assumption].
        -- intros Hp. destruct cur; discriminate Hp.
Qed.

Lemma matchWords_word (s w : string) :
  In w (matchWords s) -> (4 <= String.length w)%nat /\ word_of w s.
Proof.
  intros Hin. unfold matchWords in Hin.
  destruct (words_from_word s EmptyString w eq_refl Hin)
    as (Hlen & pre & post & E & Hw & Hpre & _ & Hpost).
  split; [assumption|]. exists pre, post. cbn [append] in E.
  repeat split; auto. destruct Hpre as [-> | Hpre]; [reflexivity | assumption].
Qed.

Lemma existsb_eqb_In (x : string) (l : list string) :
  existsb (String.eqb x) l = true <-> In x l.
Proof.
  rewrite existsb_exists. split.
  - intros (y & Hy & E). apply String.eqb_eq in E. now subst.
  - intros H. exists x. split; [assumption | apply String.eqb_refl].
Qed.

Lemma unique_from_spec (l seen : list string) :
  NoDup (unique_from seen l) /\
  forall x, In x (unique_from seen l) <-> In x l /\ ~ In x seen.
Proof.
  revert seen. induction l as [|y l IH]; intros seen; cbn [unique_from].
  - split; [constructor|]. cbn. tauto.
  - destruct (existsb (String.eqb y) seen) eqn:E.
    + apply existsb_eqb_In in E. destruct (IH seen) as [Hnd Hin].
      split; [assumption|]. intros x. rewrite Hin. cbn.
      split; [tauto|]. intros [[<- | H] Hn]; tauto.
    + assert (~ In y seen) as Hy.
      { intros H. apply existsb_eqb_In in H. congruence. }
      destruct (IH (y :: seen)) as [Hnd Hin].
      split.
      * constructor; [|assumption]. rewrite Hin. cbn. tauto.
      * intros x. cbn. rewrite Hin. cbn.
        destruct (string_dec y x) as [<- | Hne]; tauto.
Qed.

Lemma unique_NoDup (l : list string) : NoDup (unique l).
Proof. apply unique_from_spec. Qed.

Lemma In_unique (l : list string) (x : string) : In x (unique l) <-> In x l.
Proof.
  unfold unique. destruct (unique_from_spec l []) as [_ H]. rewrite H. cbn. tauto.
Qed.

Lemma NoDup_firstn {A : Type} (n : nat) (l : list A) : NoDup l -> NoDup (firstn n l).
Proof.
  intros H. revert n. induction H as [|x l Hx Hl IH]; intros [|n]; cbn; try constructor.
  - intros Hin. apply Hx. rewrite <- (firstn_skipn n l). apply in_or_app. now left.
  - apply IH.
Qed.

Lemma In_firstn {A : Type} (n : nat) (l : list A) (x : A) : In x (firstn n l) -> In x l.
Proof.
  intros H. rewrite <- (firstn_skipn n l). apply in_or_app. now left.
Qed.

End KeywordFacts.

(** ** Binary64: the quotient of two integers against the literal 0.02 *)

Section Binary64Facts.
Import JsNumber Binary64.

Lemma digits2_pos_bounds (p : positive) :
  2 ^ (Zpos (digits2_pos p) - 1) <= Zpos p < 2 ^ Zpos (digits2_pos p).
Proof.
  induction p as [p IH | p IH |]; cbn [digits2_pos].
  - rewrite Pos2Z.inj_succ.
    replace (Z.succ (Zpos (digits2_pos p)) - 1) with (Z.succ (Zpos (digits2_pos p) - 1)) by lia.
    rewrite !Z.pow_succ_r by lia. lia.
  - rewrite Pos2Z.inj_succ.
    replace (Z.succ (Zpos (digits2_pos p)) - 1) with (Z.succ (Zpos (digits2_pos p) - 1)) by lia.
    rewrite !Z.pow_succ_r by lia. lia.
  - cbn. lia.
Qed.

Lemma digits2_pos_unique (p : positive) (d : Z) :
  2 ^ (d - 1) <= Zpos p < 2 ^ d -> Zpos (digits2_pos p) = d.
Proof.
  intros [Hlo Hhi].
  pose proof (digits2_pos_bounds p) as [Blo Bhi].
  assert (0 < d).
  { destruct (Z.ltb_spec 0 d); [assumption|].
    destruct (Z.eq_dec d 0).
    - subst. cbn in Hhi. lia.
    - rewrite Z.pow_neg_r in Hhi by lia. lia. }
  destruct (Z.lt_trichotomy (Zpos (digits2_pos p)) d) as [L | [E | G]]; [ | assumption | ].
  - assert (2 ^ Zpos (digits2_pos p) <= 2 ^ (d - 1)) by (apply Z.pow_le_mono_r; lia). lia.
  - assert (2 ^ d <= 2 ^ (Zpos (digits2_pos p) - 1)) by (apply Z.pow_le_mono_r; lia). lia.
Qed.


Lemma Zdigits2_unique (m d : Z) :
  0 < m -> 2 ^ (d - 1) <= m < 2 ^ d -> Zdigits2 m = d.
Proof.
  intros Hm H. destruct m as [|p|p]; try lia.
  cbn [Zdigits2]. now apply digits2_pos_unique.
Qed.

Lemma fexp_small (e : Z) : -1021 <= e -> fexp prec emax e = e - 53.
Proof. intros. unfold fexp, emin, prec, emax. lia. Qed.

Lemma shr_fexp_keep (m e : Z) (l : location) :
  2 ^ 52 <= m < 2 ^ 53 -> -1074 <= e ->
  shr_fexp prec emax m e l = (shr_record_of_loc m l, e).
Proof.
  intros Hm He. unfold shr_fexp.
  rewrite (Zdigits2_unique m 53) by (cbn; lia).
  rewrite fexp_small by lia.
  replace (53 + e - 53 - e) with 0 by lia. reflexivity.
Qed.

Lemma shr_fexp_once (m e : Z) (l : location) :
  2 ^ 53 <= m < 2 ^ 54 -> -1074 <= e ->
  shr_fexp prec emax m e l = (shr_1 (shr_record_of_loc m l), e + 1).
Proof.
  intros Hm He. unfold shr_fexp.
  rewrite (Zdigits2_unique m 54) by (cbn; lia).
  rewrite fexp_small by lia.
  replace (54 + e - 53 - e) with 1 by lia. reflexivity.
Qed.

Lemma round_nearest_even_range (m : Z) (l : location) :
  m <= round_nearest_even m l <= m + 1.
Proof.
  destruct l as [|[]]; cbn [round_nearest_even]; try lia.
  destruct (Z.even m); lia.
Qed.

Lemma shr_m_1 (m : Z) (r s : bool) :
  0 <= m -> shr_m (shr_1 (Build_shr_record m r s)) = m / 2.
Proof.
  intros Hm. destruct m as [|p|p]; try lia; [reflexivity|].
  destruct p as [p|p|]; cbn [shr_1 shr_m].
  - rewrite Pos2Z.inj_xI. apply Z.div_unique with (r := 1); lia.
  - rewrite Pos2Z.inj_xO. apply Z.div_unique with (r := 0); lia.
  - reflexivity.
Qed.

Lemma settle_spec (m e : Z) :
  2 ^ 52 <= m <= 2 ^ 53 -> -1074 <= e <= 969 ->
  (let '(mrs, e') := shr_fexp prec emax m e loc_Exact in
   match shr_m mrs with
   | Z0 => S754_zero false
   | Zpos p => if e' <=? emax - prec then S754_finite false p e' else S754_infinity false
   | Zneg _ => S754_nan
   end) = settle m e.
Proof.
  intros Hm He. unfold settle.
  destruct (Z.ltb_spec m (2 ^ 53)).
  - rewrite shr_fexp_keep by lia. cbn [shr_record_of_loc shr_m].
    destruct m as [|p|p]; try (cbn in *; lia).
    replace (e <=? emax - prec) with true by (symmetry; apply Z.leb_le; unfold emax, prec; lia).
    reflexivity.
  - assert (m = 2 ^ 53) by lia. subst m.
    rewrite shr_fexp_once by lia.
    replace (e + 1 <=? emax - prec) with true by (symmetry; apply Z.leb_le; unfold emax, prec; lia).
    reflexivity.
Qed.

Lemma binary_round_aux_53 (q e : Z) (l : location) :
  2 ^ 52 <= q < 2 ^ 53 -> -1074 <= e <= 969 ->
  binary_round_aux prec emax false q e l = settle (round_nearest_even q l) e.
Proof.
  intros Hq He. unfold binary_round_aux.
  rewrite shr_fexp_keep by lia.
  assert (shr_m (shr_record_of_loc q l) = q) as Em by (destruct l as [|[]]; reflexivity).
  assert (loc_of_shr_record (shr_record_of_loc q l) = l) as El by (destruct l as [|[]]; reflexivity).
  rewrite Em, El.
  pose proof (round_nearest_even_range q l).
  apply settle_spec; lia.
Qed.

Lemma binary_round_aux_54 (q e : Z) (l : location) :
  2 ^ 53 <= q < 2 ^ 54 -> -1074 <= e <= 968 ->
  binary_round_aux prec emax false q e l =
  let mrs := shr_1 (shr_record_of_loc q l) in
  settle (round_nearest_even (q / 2) (loc_of_shr_record mrs)) (e + 1).
Proof.
  intros Hq He. unfold binary_round_aux.
  rewrite shr_fexp_once by lia.
  assert (shr_m (shr_1 (shr_record_of_loc q l)) = q / 2) as Em.
  { destruct l as [|[]]; cbn [shr_record_of_loc]; apply shr_m_1; lia. }
  rewrite Em. cbv zeta.
  pose proof (round_nearest_even_range (q / 2) (loc_of_shr_record (shr_1 (shr_record_of_loc q l)))).
  assert (2 ^ 52 <= q / 2 < 2 ^ 53).
  { change (2 ^ 53) with (2 * 2 ^ 52) in Hq. change (2 ^ 54) with (2 * 2 ^ 53) in Hq.
    split.
    - apply Z.div_le_lower_bound; lia.
    - apply Z.div_lt_upper_bound; lia. }
  apply settle_spec; lia.
Qed.

Lemma iter_xO (m d : positive) : Zpos (Pos.iter xO m d) = Zpos m * 2 ^ Zpos d.
Proof.
  induction d as [|d IH] using Pos.peano_ind.
  - cbn. lia.
  - rewrite Pos.iter_succ, Pos2Z.inj_xO, IH, Pos2Z.inj_succ, Z.pow_succ_r by lia. lia.
Qed.


Lemma Zdigits2_bounds (n : Z) :
  0 < n -> 2 ^ (Zdigits2 n - 1) <= n < 2 ^ Zdigits2 n.
Proof. destruct n; try lia. intros _. apply digits2_pos_bounds. Qed.

Lemma Zdigits2_range (n : Z) : 0 < n < 2 ^ 53 -> 1 <= Zdigits2 n <= 53.
Proof.
  intros H. pose proof (Zdigits2_bounds n ltac:(lia)) as [Hlo Hhi].
  split.
  - destruct n; cbn; lia.
  - destruct (Z.leb_spec (Zdigits2 n) 53); [assumption|].
    assert (2 ^ 53 <= 2 ^ (Zdigits2 n - 1)) by (apply Z.pow_le_mono_r; lia). lia.
Qed.

Lemma mant_range (n : Z) : 0 < n < 2 ^ 53 -> 2 ^ 52 <= mant n < 2 ^ 53.
Proof.
  intros H. pose proof (Zdigits2_bounds n ltac:(lia)) as [Hlo Hhi].
  pose proof (Zdigits2_range n H).
  unfold mant.
  assert (2 ^ 52 = 2 ^ (Zdigits2 n - 1) * 2 ^ (53 - Zdigits2 n)) as E52.
  { rewrite <- Z.pow_add_r by lia. f_equal. lia. }
  assert (2 ^ 53 = 2 ^ (Zdigits2 n) * 2 ^ (53 - Zdigits2 n)) as E53.
  { rewrite <- Z.pow_add_r by lia. f_equal. lia. }
  assert (0 < 2 ^ (53 - Zdigits2 n)) by (apply Z.pow_pos_nonneg; lia).
  split.
  - rewrite E52. apply Z.mul_le_mono_nonneg_r; lia.
  - rewrite E53. apply Z.mul_lt_mono_pos_r; lia.
Qed.

Lemma of_Z_normal (n : Z) :
  0 < n < 2 ^ 53 ->
  binary_normalize prec emax n 0 false = S754_finite false (Z.to_pos (mant n)) (expo n).
Proof.
  intros H. pose proof (Zdigits2_range n H) as Hd. pose proof (mant_range n H) as Hm.
  destruct n as [|p|p]; try lia.
  cbn [binary_normalize]. unfold binary_round.
  rewrite Z.add_0_r. rewrite fexp_small by (cbn [Zdigits2] in Hd; lia).
  unfold mant, expo in *. cbn [Zdigits2] in *.
  set (d := Zpos (digits2_pos p)) in *.
  unfold shl_align. rewrite Z.sub_0_r.
  match goal with |- context [match ?x with Z0 => _ | Zpos _ => _ | Zneg _ => _ end] => destruct x as [|k|k] eqn:E end; try lia.
  - replace (53 - d) with 0 in * by lia. rewrite Z.mul_1_r in *.
    rewrite binary_round_aux_53 by lia. cbn [round_nearest_even].
    unfold settle. destruct (Z.ltb_spec (Zpos p) (2 ^ 53)); [|lia].
    reflexivity.
  - assert (53 - d = Zpos k) as E' by lia. rewrite E' in *.
    pose proof (iter_xO p k) as Hi.
    rewrite binary_round_aux_53 by lia. cbn [round_nearest_even].
    unfold settle. rewrite Hi.
    destruct (Z.ltb_spec (Zpos p * 2 ^ Zpos k) (2 ^ 53)); [|lia].
    reflexivity.
Qed.

Lemma SFdiv_normal (mx my : positive) (ex ey : Z) :
  2 ^ 52 <= Zpos mx < 2 ^ 53 -> 2 ^ 52 <= Zpos my < 2 ^ 53 ->
  -52 <= ex <= 0 -> -52 <= ey <= 0 ->
  SFdiv prec emax (S754_finite false mx ex) (S754_finite false my ey) =
  binary_round_aux prec emax false ((Zpos mx * 2 ^ 53) / Zpos my) (ex - ey - 53)
                   (new_location (Zpos my) ((Zpos mx * 2 ^ 53) mod Zpos my)).
Proof.
  intros Hx Hy Hex Hey.
  unfold SFdiv, SFdiv_core_binary.
  rewrite (Zdigits2_unique (Zpos mx) 53), (Zdigits2_unique (Zpos my) 53) by (cbn; lia).
  rewrite fexp_small by lia.
  replace (Z.min (53 + ex - (53 + ey) - 53) (ex - ey)) with (ex - ey - 53) by lia.
  replace (ex - ey - (ex - ey - 53)) with 53 by lia.
  rewrite Z.shiftl_mul_pow2 by lia.
  unfold Z.div, Z.modulo.
  destruct (Z.div_eucl (Zpos mx * 2 ^ 53) (Zpos my)) as [q r].
  reflexivity.
Qed.


Lemma decimal_0_02 :
  SFdiv prec emax (binary_normalize prec emax 2 0 false) (binary_normalize prec emax 100 0 false) = literal_0_02.
Proof. vm_compute. reflexivity. Qed.

(** The literal against a rounded result. *)
Lemma SFltb_settle (m e : Z) :
  2 ^ 52 <= m <= 2 ^ 53 ->
  SFltb literal_0_02 (settle m e) = ((-58 <? e) || ((e =? -58) && (threshold <? m)))%bool.
Proof.
  intros Hm. unfold settle, literal_0_02, SFltb, SFcompare.
  destruct (Z.ltb_spec m (2 ^ 53)).
  - destruct m as [|p|p]; try (cbn in Hm; lia).
    cbn [Z.to_pos].
    destruct (Z.compare_spec (-58) e) as [E|L|G].
    + subst e. cbn [Z.ltb Z.eqb Z.compare orb andb].
      rewrite Pos.compare_cont_spec. cbn [Pos.switch_Eq].
      unfold Z.ltb. cbn [Z.compare threshold Z.to_pos].
      destruct (Pos.compare _ _); reflexivity.
    + replace (-58 <? e) with true by (symmetry; apply Z.ltb_lt; lia). reflexivity.
    + replace (-58 <? e) with false by (symmetry; apply Z.ltb_ge; lia).
      replace (e =? -58) with false by (symmetry; apply Z.eqb_neq; lia). reflexivity.
  - assert (m = 2 ^ 53) by lia. subst m.
    replace (threshold <? 2 ^ 53) with true by reflexivity. rewrite andb_true_r.
    destruct (Z.compare_spec (-58) (e + 1)) as [E|L|G].
    + replace e with (-59) by lia. reflexivity.
    + replace (-58 <? e) with (negb (e =? -58)).
      2:{ destruct (Z.eqb_spec e (-58)); cbn [negb]; symmetry; [apply Z.ltb_ge | apply Z.ltb_lt]; lia. }
      destruct (e =? -58); reflexivity.
    + replace (-58 <? e) with false by (symmetry; apply Z.ltb_ge; lia).
      replace (e =? -58) with false by (symmetry; apply Z.eqb_neq; lia). reflexivity.
Qed.

Lemma new_location_eq (nb k : Z) :
  new_location nb k =
  if k =? 0 then loc_Exact
  else loc_Inexact
         (if Z.even nb then 2 * k ?= nb
          else match 2 * k + 1 ?= nb with Gt => Gt | _ => Lt end).
Proof.
  unfold new_location.
  destruct (Z.even nb); unfold new_location_even, new_location_odd;
    destruct (k =? 0); reflexivity.
Qed.

Lemma new_location_above (nb k : Z) :
  0 <= k < nb -> nb < 2 * k -> new_location nb k = loc_Inexact Gt.
Proof.
  intros Hk H. rewrite new_location_eq.
  replace (k =? 0) with false by (symmetry; apply Z.eqb_neq; lia).
  destruct (Z.even nb).
  - replace (2 * k ?= nb) with Gt; [reflexivity|]. symmetry. apply Z.compare_gt_iff. lia.
  - replace (2 * k + 1 ?= nb) with Gt; [reflexivity|]. symmetry. apply Z.compare_gt_iff. lia.
Qed.

Lemma new_location_inexact (nb k : Z) :
  0 < k -> exists c, new_location nb k = loc_Inexact c.
Proof.
  intros Hk. rewrite new_location_eq.
  replace (k =? 0) with false by (symmetry; apply Z.eqb_neq; lia).
  eexists; reflexivity.
Qed.

Lemma halved_location (q : Z) (c : comparison) :
  0 < q -> Z.odd q = true ->
  loc_of_shr_record (shr_1 (shr_record_of_loc q (loc_Inexact c))) = loc_Inexact Gt.
Proof.
  intros Hq Ho. destruct q as [|p|p]; try lia.
  destruct p as [p|p|]; try discriminate Ho; destruct c; reflexivity.
Qed.

Lemma gt_small (q e : Z) (l : location) :
  2 ^ 52 <= q < 2 ^ 53 -> -1074 <= e <= 969 ->
  SFltb literal_0_02 (binary_round_aux prec emax false q e l) = above e (round_nearest_even q l).
Proof.
  intros Hq He. rewrite binary_round_aux_53 by assumption.
  pose proof (round_nearest_even_range q l).
  apply SFltb_settle. lia.
Qed.

Lemma gt_large (q e : Z) (l : location) :
  2 ^ 53 <= q < 2 ^ 54 -> -1074 <= e <= 968 ->
  SFltb literal_0_02 (binary_round_aux prec emax false q e l) =
  above (e + 1)
        (round_nearest_even (q / 2)
           (loc_of_shr_record (shr_1 (shr_record_of_loc q l)))).
Proof.
  intros Hq He. rewrite binary_round_aux_54 by assumption. cbv zeta.
  assert (2 ^ 52 <= q / 2 < 2 ^ 53).
  { change (2 ^ 53) with (2 * 2 ^ 52) in Hq. change (2 ^ 54) with (2 * 2 ^ 53) in Hq.
    split; [apply Z.div_le_lower_bound | apply Z.div_lt_upper_bound]; lia. }
  pose proof (round_nearest_even_range (q / 2)
                (loc_of_shr_record (shr_1 (shr_record_of_loc q l)))).
  apply SFltb_settle. lia.
Qed.

(** A positive integer and its 53-digit mantissa. *)
Lemma mant_scale (n : Z) :
  0 < n < 2 ^ 53 ->
  exists a, 0 <= a <= 52 /\ mant n = n * 2 ^ a /\ expo n = - a.
Proof.
  intros H. pose proof (Zdigits2_range n H).
  exists (53 - Zdigits2 n). unfold mant, expo. lia.
Qed.

Lemma pow2_shift (b k : Z) : 0 <= b -> 0 <= k -> 2 ^ (b + k) = 2 ^ k * 2 ^ b.
Proof. intros. rewrite Z.pow_add_r by lia. lia. Qed.

Lemma pow2_le (a b k : Z) : 0 <= a -> 0 <= b -> 0 <= k -> a <= b + k -> 2 ^ a <= 2 ^ k * 2 ^ b.
Proof.
  intros. rewrite <- pow2_shift by lia. apply Z.pow_le_mono_r; lia.
Qed.

Lemma pow2_ge (a b k : Z) : 0 <= a -> 0 <= b -> 0 <= k -> b + k <= a -> 2 ^ k * 2 ^ b <= 2 ^ a.
Proof.
  intros. rewrite <- pow2_shift by lia. apply Z.pow_le_mono_r; lia.
Qed.

Lemma ltb_true (x y : Z) : x < y -> (x <? y) = true.
Proof. apply Z.ltb_lt. Qed.
Lemma ltb_false (x y : Z) : y <= x -> (x <? y) = false.
Proof. apply Z.ltb_ge. Qed.

Lemma above_high (e m : Z) : -58 < e -> above e m = true.
Proof. intros. unfold above. rewrite ltb_true by lia. reflexivity. Qed.

Lemma above_low (e m : Z) : e < -58 -> above e m = false.
Proof.
  intros. unfold above. rewrite ltb_false by lia.
  replace (e =? -58) with false by (symmetry; apply Z.eqb_neq; lia). reflexivity.
Qed.

Lemma above_at (m : Z) : above (-58) m = (threshold <? m).
Proof. reflexivity. Qed.

Lemma ratio_above_threshold (s t : Z) :
  0 < s < 2 ^ 53 -> 0 < t < 2 ^ 53 ->
  SFltb literal_0_02 (SFdiv prec emax (binary_normalize prec emax s 0 false)
                         (binary_normalize prec emax t 0 false)) = (t <? 50 * s).
Proof.
  intros Hs Ht.
  rewrite !of_Z_normal by assumption.
  destruct (mant_scale s Hs) as (a & Ha & Ems & Ees).
  destruct (mant_scale t Ht) as (b & Hb & Emt & Eet).
  pose proof (mant_range s Hs) as Rs. pose proof (mant_range t Ht) as Rt.
  rewrite SFdiv_normal; rewrite ?Z2Pos.id by lia; try lia.
  rewrite Ees, Eet.
  set (ms := mant s) in *. set (mt := mant t) in *.
  set (q := ms * 2 ^ 53 / mt). set (r := (ms * 2 ^ 53) mod mt).
  assert (Hdiv : ms * 2 ^ 53 = mt * q + r) by (apply Z.div_mod; lia).
  assert (Hr : 0 <= r < mt) by (apply Z.mod_pos_bound; lia).
  assert (HA : 0 < 2 ^ a) by (apply Z.pow_pos_nonneg; lia).
  assert (HB : 0 < 2 ^ b) by (apply Z.pow_pos_nonneg; lia).
  assert (Hq : 2 ^ 52 <= q < 2 ^ 54).
  { split; [apply Z.div_le_lower_bound | apply Z.div_lt_upper_bound]; lia. }
  assert (Hcase : a - b <= 4 \/ a - b = 5 \/ a - b = 6 \/ 7 <= a - b) by lia.
  destruct (Z.lt_ge_cases ms mt) as [Hlt | Hge].
  - (* the quotient has 53 digits *)
    assert (q < 2 ^ 53) by (apply Z.div_lt_upper_bound; lia).
    rewrite gt_small by lia.
    destruct Hcase as [K | [K | [K | K]]].
    + pose proof (pow2_le a b 4 ltac:(lia) ltac:(lia) ltac:(lia) ltac:(lia)) as HP.
      change (2 ^ 4) with 16 in HP.
      rewrite above_high by lia. symmetry. apply ltb_true. nia.
    + assert (HP : 2 ^ a = 32 * 2 ^ b).
      { replace a with (b + 5) by lia. now rewrite pow2_shift by lia. }
      replace (- a - - b - 53) with (-58) by lia. rewrite above_at.
      set (R := s * 2 ^ 58 - t * q).
      assert (Er : r = 2 ^ b * R).
      { unfold R. change (2 ^ 58) with (32 * 2 ^ 53). nia. }
      assert (HR : 0 <= R < t) by nia.
      pose proof (round_nearest_even_range q (new_location mt r)) as Hrne.
      destruct (Z.ltb_spec t (50 * s)) as [Hgt | Hle].
      * (* more than one fiftieth *)
        assert (H2 : (2 * threshold + 1) * t < 2 * (t * q + R)).
        { unfold R, threshold. lia. }
        assert (Hq' : threshold <= q).
        { destruct (Z.le_gt_cases threshold q); [assumption|].
          assert (t * q <= t * (threshold - 1)) by (apply Z.mul_le_mono_nonneg_l; lia).
          lia. }
        apply ltb_true.
        destruct (Z.eq_dec q threshold) as [Eq | Nq]; [|lia].
        rewrite new_location_above; [cbn [round_nearest_even]; lia | lia | ].
        rewrite Er, Emt. rewrite Eq in H2. nia.
      * apply ltb_false.
        assert (50 * q <= 2 ^ 58).
        { assert (t * (50 * q) <= t * 2 ^ 58) by (unfold R in HR; nia).
          apply Z.mul_le_mono_pos_l with (p := t); lia. }
        unfold threshold. lia.
    + replace (- a - - b - 53) with (-59) by lia.
      rewrite above_low by lia. symmetry. apply ltb_false.
      assert (HP : 2 ^ a = 64 * 2 ^ b).
      { replace a with (b + 6) by lia. now rewrite pow2_shift by lia. }
      nia.
    + pose proof (pow2_ge a b 7 ltac:(lia) ltac:(lia) ltac:(lia) ltac:(lia)) as HP.
      change (2 ^ 7) with 128 in HP.
      rewrite above_low by lia. symmetry. apply ltb_false. nia.
  - (* the quotient has 54 digits *)
    assert (2 ^ 53 <= q) by (apply Z.div_le_lower_bound; lia).
    rewrite gt_large by lia.
    destruct Hcase as [K | [K | [K | K]]].
    + pose proof (pow2_le a b 4 ltac:(lia) ltac:(lia) ltac:(lia) ltac:(lia)) as HP.
      change (2 ^ 4) with 16 in HP.
      rewrite above_high by lia. symmetry. apply ltb_true. nia.
    + assert (HP : 2 ^ a = 32 * 2 ^ b).
      { replace a with (b + 5) by lia. now rewrite pow2_shift by lia. }
      rewrite above_high by lia. symmetry. apply ltb_true. nia.
    + assert (HP : 2 ^ a = 64 * 2 ^ b).
      { replace a with (b + 6) by lia. now rewrite pow2_shift by lia. }
      replace (- a - - b - 53 + 1) with (-58) by lia. rewrite above_at.
      set (R := s * 2 ^ 59 - t * q).
      assert (Er : r = 2 ^ b * R).
      { unfold R. change (2 ^ 59) with (64 * 2 ^ 53). nia. }
      assert (HR : 0 <= R < t) by nia.
      set (l' := loc_of_shr_record (shr_1 (shr_record_of_loc q (new_location mt r)))).
      pose proof (round_nearest_even_range (q / 2) l') as Hrne.
      destruct (Z.ltb_spec t (50 * s)) as [Hgt | Hle].
      * assert (H2 : (2 * threshold + 1) * t < t * q + R).
        { unfold R, threshold. lia. }
        assert (Hq' : 2 * threshold + 1 <= q).
        { destruct (Z.le_gt_cases (2 * threshold + 1) q); [assumption|].
          assert (t * q <= t * (2 * threshold)) by (apply Z.mul_le_mono_nonneg_l; lia).
          lia. }
        apply ltb_true.
        destruct (Z.eq_dec q (2 * threshold + 1)) as [Eq | Nq].
        -- assert (0 < r) by (rewrite Eq in H2; nia).
           destruct (new_location_inexact mt r ltac:(lia)) as [c Hc].
           unfold l'. rewrite Hc, halved_location; [ | lia | rewrite Eq; reflexivity].
           cbn [round_nearest_even]. rewrite Eq. unfold threshold. change ((2 * 5764607523034235 + 1) / 2) with 5764607523034235. lia.
        -- assert (threshold + 1 <= q / 2) by (apply Z.div_le_lower_bound; lia). lia.
      * apply ltb_false.
        assert (50 * q <= 2 ^ 59).
        { assert (t * (50 * q) <= t * 2 ^ 59) by (unfold R in HR; nia).
          apply Z.mul_le_mono_pos_l with (p := t); lia. }
        assert (q / 2 < threshold) by (apply Z.div_lt_upper_bound; unfold threshold; lia).
        lia.
    + pose proof (pow2_ge a b 7 ltac:(lia) ltac:(lia) ltac:(lia) ltac:(lia)) as HP.
      change (2 ^ 7) with 128 in HP.
      rewrite above_low by lia. symmetry. apply ltb_false. nia.
Qed.

End Binary64Facts.

(** ** Binary64: the product of a draw and an integer *)

Section DrawFacts.
Import JsNumber Binary64.

Lemma iter_pos_iter {A : Type} (f : A -> A) (p : positive) (x : A) :
  iter_pos f p x = Pos.iter f x p.
Proof.
  revert x. induction p as [p IH | p IH |]; intros x; cbn [iter_pos Pos.iter].
  - rewrite !IH. rewrite <- !Pos.iter_swap. reflexivity.
  - now rewrite !IH.
  - reflexivity.
Qed.

Lemma shr_1_m (mrs : shr_record) : 0 <= shr_m mrs -> shr_m (shr_1 mrs) = shr_m mrs / 2.
Proof. destruct mrs as [m r s]. cbn [shr_m]. apply shr_m_1. Qed.

Lemma shr_1_r (mrs : shr_record) : 0 <= shr_m mrs -> shr_r (shr_1 mrs) = Z.odd (shr_m mrs).
Proof.
  destruct mrs as [m r s]. cbn [shr_m]. intros Hm.
  destruct m as [|p|p]; try lia; [reflexivity|].
  destruct p; reflexivity.
Qed.

Lemma shifted_start (P : Z) (l : location) :
  0 <= P -> l = loc_Exact -> shifted P 0 (shr_record_of_loc P l).
Proof.
  intros HP ->. split; [exact HP|]. exists 0. cbn. split; [lia|]. split; [lia|]. split; [discriminate | lia].
Qed.

Lemma shifted_shr_1 (P j : Z) (mrs : shr_record) :
  0 <= j -> shifted P j mrs -> shifted P (j + 1) (shr_1 mrs).
Proof.
  intros Hj (Hm & rest & EP & Hrest & Ht & Hf).
  assert (Hp : 0 < 2 ^ j) by (apply Z.pow_pos_nonneg; lia).
  unfold shifted. rewrite shr_1_m, shr_1_r by exact Hm.
  rewrite Z.pow_add_r, Z.pow_1_r by lia.
  set (m := shr_m mrs) in *.
  pose proof (Z.div_mod m 2 ltac:(lia)) as Hdm.
  pose proof (Z.mod_pos_bound m 2 ltac:(lia)) as Hb.
  split; [apply Z.div_pos; lia|].
  exists (rest + (m mod 2) * 2 ^ j).
  pose proof (Zmod_odd m) as Ho.
  split; [|split; [|split]].
  - rewrite EP. rewrite Hdm at 1. ring.
  - nia.
  - intros Hodd. rewrite Hodd in Ho. rewrite Ho. lia.
  - intros Hodd. rewrite Hodd in Ho. rewrite Ho. lia.
Qed.

Lemma shifted_iter (P : Z) (p : positive) (mrs : shr_record) :
  shifted P 0 mrs -> shifted P (Zpos p) (iter_pos shr_1 p mrs).
Proof.
  intros H. rewrite iter_pos_iter.
  induction p as [|p IH] using Pos.peano_ind.
  - cbn [Pos.iter]. apply (shifted_shr_1 P 0); [lia | exact H].
  - rewrite Pos.iter_succ, Pos2Z.inj_succ. unfold Z.succ.
    apply shifted_shr_1; [lia | exact IH].
Qed.

(** What [shr_fexp] leaves of an exact mantissa. *)
Lemma shr_fexp_shifted (P E : Z) :
  0 <= P ->
  exists j mrs,
    shr_fexp prec emax P E loc_Exact = (mrs, E + j) /\ 0 <= j /\ shifted P j mrs /\
    (j = 0 \/ E + j = fexp prec emax (Zdigits2 P + E)).
Proof.
  intros HP. unfold shr_fexp, shr.
  destruct (fexp prec emax (Zdigits2 P + E) - E) as [|p|p] eqn:Ek.
  - exists 0, (shr_record_of_loc P loc_Exact). rewrite Z.add_0_r.
    split; [reflexivity|]. split; [lia|]. split; [now apply shifted_start | now left].
  - exists (Zpos p), (iter_pos shr_1 p (shr_record_of_loc P loc_Exact)).
    split; [reflexivity|]. split; [lia|].
    split; [apply shifted_iter; now apply shifted_start | right; lia].
  - exists 0, (shr_record_of_loc P loc_Exact). rewrite Z.add_0_r.
    split; [reflexivity|]. split; [lia|]. split; [now apply shifted_start | now left].
Qed.

(** Rounding to nearest adds at most half of the last place. *)
Lemma round_shifted (P j : Z) (mrs : shr_record) :
  0 <= j -> shifted P j mrs ->
  let M := round_nearest_even (shr_m mrs) (loc_of_shr_record mrs) in
  0 <= M /\ 2 * (M * 2 ^ j) <= 2 * P + 2 ^ j /\ M <= P + 1.
Proof.
  intros Hj (Hm & rest & EP & Hrest & Ht & Hf). cbv zeta.
  assert (Hp : 0 < 2 ^ j) by (apply Z.pow_pos_nonneg; lia).
  destruct mrs as [m r s]. cbn [shr_m shr_r loc_of_shr_record] in *.
  assert (Hmj : m <= m * 2 ^ j) by nia.
  destruct r.
  - specialize (Ht eq_refl).
    assert (round_nearest_even m (if s then loc_Inexact Gt else loc_Inexact Eq) <= m + 1)
      by (destruct s; cbn [round_nearest_even]; [|destruct (Z.even m)]; lia).
    assert (m <= round_nearest_even m (if s then loc_Inexact Gt else loc_Inexact Eq))
      by (destruct s; cbn [round_nearest_even]; [|destruct (Z.even m)]; lia).
    destruct s; split; try lia; split; nia.
  - specialize (Hf eq_refl).
    assert (round_nearest_even m (if s then loc_Inexact Lt else loc_Exact) = m) as ->
      by (destruct s; reflexivity).
    destruct s; split; try lia; split; nia.
Qed.

Lemma draw_shape (m : positive) (e : Z) :
  inUnitInterval (S754_finite false m e) = true ->
  -1074 <= e <= -53 /\ Zpos m < 2 ^ 53.
Proof.
  unfold inUnitInterval. cbn [negb andb]. intros H.
  apply andb_true_iff in H as [Hb Hlt].
  unfold bounded, canonical_mantissa in Hb. apply andb_true_iff in Hb as [Hc _].
  apply Z.eqb_eq in Hc. unfold fexp, emin, prec, emax in Hc.
  pose proof (digits2_pos_bounds m) as [Hlo Hhi].
  assert (Hd : Zpos (digits2_pos m) <= 53) by lia.
  assert (Hm : Zpos m < 2 ^ 53).
  { eapply Z.lt_le_trans; [exact Hhi|]. apply Z.pow_le_mono_r; lia. }
  split; [|exact Hm]. cut (-1074 <= e /\ e <= -53); [tauto|].
  unfold ltb, SFltb in Hlt.
  change (of_Z 1) with (S754_finite false 4503599627370496 (-52)) in Hlt.
  cbn [SFcompare] in Hlt.
  split; [clear - Hc; lia|].
  destruct (Z.compare_spec e (-52)) as [E | L | G].
  - exfalso. subst e.
    assert (Hd53 : Zpos (digits2_pos m) = 53) by (clear - Hc Hd; lia).
    rewrite Hd53 in Hlo. change (2 ^ (53 - 1)) with 4503599627370496 in Hlo.
    rewrite Pos.compare_cont_spec in Hlt. cbn [Pos.switch_Eq] in Hlt.
    destruct (Pos.compare_spec m 4503599627370496) as [E | L | G]; try discriminate Hlt.
    apply Pos2Z.pos_lt_pos in L. clear - L Hlo. lia.
  - clear - L. lia.
  - discriminate Hlt.
Qed.


Lemma Zdigits2_le (m d : Z) : 0 < m -> m < 2 ^ d -> 0 <= d -> Zdigits2 m <= d.
Proof.
  intros Hm Hlt Hd. pose proof (Zdigits2_bounds m Hm) as [Hlo _].
  destruct (Z.le_gt_cases (Zdigits2 m) d) as [H | H]; [exact H|].
  assert (2 ^ d <= 2 ^ (Zdigits2 m - 1)) by (apply Z.pow_le_mono_r; lia). lia.
Qed.

Lemma pow2_split (a b : Z) : 0 <= a -> 0 <= b -> 2 ^ (a + b) = 2 ^ a * 2 ^ b.
Proof. intros. apply Z.pow_add_r; assumption. Qed.

Lemma pow2_pos (a : Z) : 0 <= a -> 0 < 2 ^ a.
Proof. intros. apply Z.pow_pos_nonneg; lia. Qed.

(** The integer below a mantissa at an exponent, against a bound given at
    a finer scale. *)
Lemma floorZ_below (M : positive) (E' E j n : Z) :
  E < 0 -> 0 <= j -> E' = E + j -> 0 < n ->
  Zpos M * 2 ^ j < n * 2 ^ (- E) ->
  0 <= floorZ (S754_finite false M E') < n.
Proof.
  intros HE Hj -> Hn Hlt. cbn [floorZ cond_Zopp].
  destruct (Z.leb_spec 0 (E + j)) as [Hpos | Hneg].
  - assert (Ej : j = (E + j) + (- E)) by lia.
    rewrite Ej, pow2_split in Hlt by lia.
    pose proof (pow2_pos (E + j) Hpos). pose proof (pow2_pos (- E) ltac:(lia)).
    split; [lia|].
    apply Z.mul_lt_mono_pos_r with (p := 2 ^ (- E)); [assumption|].
    now rewrite <- Z.mul_assoc.
  - assert (EE : - E = (- (E + j)) + j) by lia.
    rewrite EE, pow2_split in Hlt by lia.
    pose proof (pow2_pos (- (E + j)) ltac:(lia)). pose proof (pow2_pos j Hj).
    split; [apply Z.div_pos; lia|].
    apply Z.div_lt_upper_bound; [assumption|].
    rewrite Z.mul_assoc in Hlt.
    apply Z.mul_lt_mono_pos_r in Hlt; [|assumption]. lia.
Qed.

Lemma draw_times (m : positive) (e n : Z) :
  inUnitInterval (S754_finite false m e) = true -> 0 < n < 2 ^ 53 ->
  let r := mul (S754_finite false m e) (of_Z n) in
  (r = S754_zero false \/ exists M E, r = S754_finite false M E) /\
  0 <= floorZ r < n.
Proof.
  intros Hu Hn. destruct (draw_shape m e Hu) as [He Hm].
  cbv zeta. unfold mul, of_Z. rewrite (of_Z_normal n Hn). cbn [SFmul xorb].
  destruct (mant_scale n Hn) as (a & Ha & Emn & Een).
  pose proof (mant_range n Hn) as Rmn.
  rewrite Pos2Z.inj_mul, Z2Pos.id by lia. rewrite Een.
  set (mn := mant n) in *. set (P := Zpos m * mn). set (E := e + - a).
  assert (HP : 0 < P) by (unfold P; lia).
  assert (HP106 : P < 2 ^ 106).
  { unfold P. change (2 ^ 106) with (2 ^ 53 * 2 ^ 53).
    apply Z.mul_lt_mono_nonneg; lia. }
  pose proof (Zdigits2_le P 106 HP HP106 ltac:(lia)) as Hd.
  pose proof (Zdigits2_bounds P HP) as [Hdlo _].
  unfold binary_round_aux.
  destruct (shr_fexp_shifted P E ltac:(lia)) as (j1 & mrs1 & E1 & Hj1 & S1 & K1).
  rewrite E1.
  destruct (round_shifted P j1 mrs1 Hj1 S1) as (HM0 & HMb & HM1).
  set (M := round_nearest_even (shr_m mrs1) (loc_of_shr_record mrs1)) in *.
  destruct (shr_fexp_shifted M (E + j1) HM0) as (j2 & mrs2 & E2 & Hj2 & S2 & K2).
  rewrite E2.
  destruct S2 as (Hm2 & rest & EM & Hrest & _ & _).
  unfold fexp, emin, prec, emax in K1, K2.
  assert (B1 : j1 <= 53 /\ (j1 = 53 -> Zdigits2 P = 106) /\ E + j1 <= 0)
    by (unfold E in *; lia).
  destruct B1 as (Hj1' & Hj53 & He1).
  assert (HdM : Zdigits2 M <= 107).
  { destruct (Z.eq_dec M 0) as [-> | NM]; [cbn; lia|].
    apply Zdigits2_le; [lia | | lia].
    change (2 ^ 107) with (2 * 2 ^ 106). lia. }
  assert (He2 : E + j1 + j2 <= 54) by lia.
  destruct (shr_m mrs2) as [|M2|M2] eqn:Em2; [| |lia].
  - split; [now left|]. cbn. lia.
  - replace (E + j1 + j2 <=? emax - prec) with true
      by (symmetry; apply Z.leb_le; unfold emax, prec; lia).
    split; [right; eauto|].
    apply (floorZ_below M2 (E + j1 + j2) E (j1 + j2) n); try lia.
    (* the value stays below n *)
    assert (Hp1 : 0 < 2 ^ j1) by (apply pow2_pos; lia).
      assert (Hp2 : 0 < 2 ^ j2) by (apply pow2_pos; lia).
      assert (Hpe : 2 ^ 53 <= 2 ^ (- e)) by (apply Z.pow_le_mono_r; lia).
      assert (EB : n * 2 ^ (- E) = mn * 2 ^ (- e)).
      { unfold E. replace (- (e + - a)) with (a + - e) by lia.
        rewrite pow2_split by lia. rewrite Emn. ring. }
      rewrite EB.
      assert (H1 : Zpos M2 * 2 ^ j2 <= M) by lia.
      assert (H2 : 2 * (Zpos M2 * 2 ^ (j1 + j2)) <= 2 * P + 2 ^ j1).
      { rewrite pow2_split by lia.
        replace (2 * (Zpos M2 * (2 ^ j1 * 2 ^ j2)))
          with (2 * ((Zpos M2 * 2 ^ j2) * 2 ^ j1)) by ring.
        eapply Z.le_trans; [|exact HMb].
        apply Z.mul_le_mono_nonneg_l; [lia|].
        apply Z.mul_le_mono_nonneg_r; lia. }
      assert (H3 : P + mn <= mn * 2 ^ (- e)).
      { unfold P. replace (Zpos m * mn + mn) with (mn * (Zpos m + 1)) by ring.
        apply Z.mul_le_mono_nonneg_l; lia. }
      assert (H4 : 2 ^ j1 < 2 * mn).
      { destruct (Z.eq_dec j1 53) as [E53 | N53].
        - rewrite E53. specialize (Hj53 E53). rewrite Hj53 in Hdlo.
          change (2 ^ (106 - 1)) with (2 ^ 53 * 2 ^ 52) in Hdlo.
          change (2 ^ 53) with (2 * 2 ^ 52).
          destruct (Z.eq_dec mn (2 ^ 52)) as [Emin | Nmin]; [|lia].
          exfalso. unfold P in Hdlo. rewrite Emin in Hdlo.
          apply Z.mul_le_mono_pos_r in Hdlo; lia.
        - assert (2 ^ j1 <= 2 ^ 52) by (apply Z.pow_le_mono_r; lia). lia. }
      lia.
Qed.

(** [Math.floor(Math.random() * n)] is one of [0], ..., [n - 1]: the
    rounding of the product never reaches [n]. *)
Lemma randomBelow_range (n : Z) (u : Draw) :
  0 < n < 2 ^ 53 -> 0 <= Interview.randomBelow n u < n.
Proof.
  intros Hn. unfold Interview.randomBelow. destruct u as [x Hx]. cbn [drawn].
  destruct x as [s | s | | s m e]; try discriminate Hx.
  - destruct s; [discriminate Hx|].
    unfold mul, of_Z. rewrite (of_Z_normal n Hn). cbn. lia.
  - destruct s; [discriminate Hx|].
    apply (draw_times m e n Hx Hn).
Qed.

(** The number that [Math.floor] returns is that integer. *)
Lemma floor_of_product (n : Z) (u : Draw) :
  0 < n < 2 ^ 53 ->
  floor (mul (drawn u) (of_Z n)) = of_Z (Interview.randomBelow n u).
Proof.
  intros Hn. unfold Interview.randomBelow. destruct u as [x Hx]. cbn [drawn].
  destruct x as [s | s | | s m e]; try discriminate Hx.
  - destruct s; [discriminate Hx|].
    unfold mul. change (of_Z n) with (binary_normalize prec emax n 0 false).
    rewrite (of_Z_normal n Hn). reflexivity.
  - destruct s; [discriminate Hx|].
    destruct (proj1 (draw_times m e n Hx Hn)) as [E | (M & E' & E)];
      rewrite E; reflexivity.
Qed.

End DrawFacts.

(** ** The skin-tone detector *)

Section DetectorFacts.
Import JsNumber Binary64 Camera.

Lemma isSkinTone_iff (p : Pixel) : isSkinTone p = true <-> SkinTone p.
Proof.
  unfold isSkinTone, SkinTone.
  rewrite !andb_true_iff, !Z.gtb_lt. lia.
Qed.

Lemma skinPixels_from (data : ImageData) (acc : Z) :
  fold_left (fun skinPixels p => if isSkinTone p then skinPixels + 1 else skinPixels)
            data acc = acc + skinPixels data.
Proof.
  unfold skinPixels. revert acc.
  induction data as [|p data IH]; intros acc; cbn [fold_left]; [lia|].
  rewrite IH, (IH (if isSkinTone p then 0 + 1 else 0)).
  destruct (isSkinTone p); lia.
Qed.

Lemma skinPixels_cons (p : Pixel) (data : ImageData) :
  skinPixels (p :: data) = (if isSkinTone p then 1 else 0) + skinPixels data.
Proof.
  unfold skinPixels at 1. cbn [fold_left]. rewrite skinPixels_from.
  destruct (isSkinTone p); lia.
Qed.

(** The loop counts the pixels that satisfy the test. *)
Lemma skinPixels_counts (data : ImageData) (n : Z) :
  counts SkinTone data n -> skinPixels data = n.
Proof.
  induction 1 as [|p data n Hp _ IH|p data n Hp _ IH]; [reflexivity| |];
    rewrite skinPixels_cons, IH.
  - apply isSkinTone_iff in Hp. rewrite Hp. lia.
  - destruct (isSkinTone p) eqn:E; [|lia]. apply isSkinTone_iff in E. contradiction.
Qed.

Lemma counts_range (P : Pixel -> Prop) (data : ImageData) (n : Z) :
  counts P data n -> 0 <= n <= totalPixels data.
Proof.
  unfold totalPixels.
  induction 1; cbn [List.length]; rewrite ?Nat2Z.inj_succ; lia.
Qed.

Lemma counts_total (data : ImageData) : exists n, counts SkinTone data n.
Proof.
  induction data as [|p data [n IH]].
  - exists 0. constructor.
  - destruct (isSkinTone p) eqn:E.
    + exists (n + 1). constructor; [now apply isSkinTone_iff | assumption].
    + exists n. apply counts_out; [|assumption].
      intros H. apply isSkinTone_iff in H. congruence.
Qed.

(** The comparison of the rounded quotient with the literal agrees with the
    comparison of the exact fraction with one fiftieth. *)
Lemma quotient_above_literal (s t : Z) :
  0 <= s <= t -> t < 2 ^ 53 ->
  gtb (div (of_Z s) (of_Z t)) (decimal 2 100) = (t <? 50 * s).
Proof.
  intros Hs Ht. unfold decimal, gtb, div, of_Z.
  rewrite decimal_0_02.
  destruct (Z.eq_dec s 0) as [-> | Hs0].
  - rewrite (proj2 (Z.ltb_ge t (50 * 0))) by lia.
    destruct (Z.eq_dec t 0) as [-> | Ht0]; [reflexivity|].
    rewrite (of_Z_normal t) by lia. reflexivity.
  - apply ratio_above_threshold; lia.
Qed.

Lemma fraction_above_0_02 (s t : Z) :
  0 <= s <= t -> ((2 # 100) < inject_Z s / inject_Z t)%Q <-> t < 50 * s.
Proof.
  intros Hs.
  destruct t as [|t|t]; try lia.
  - assert (s = 0) as -> by lia. unfold Qlt, Qdiv, Qmult, Qinv; cbn. lia.
  - unfold Qlt, Qdiv, Qmult, Qinv, inject_Z. cbn [Qnum Qden].
    rewrite Z.mul_1_r. cbn [Pos.mul]. lia.
Qed.

Lemma facePresent_spec (data : ImageData) :
  totalPixels data < 2 ^ 53 ->
  facePresent data = (totalPixels data <? 50 * skinPixels data).
Proof.
  intros Ht. destruct (counts_total data) as [n Hn].
  pose proof (counts_range _ _ _ Hn). apply skinPixels_counts in Hn.
  unfold facePresent, skinRatio. apply quotient_above_literal; lia.
Qed.

End DetectorFacts.

Section CameraFacts.
Import JsNumber Camera.

Lemma videoReady_refs (refs : Refs) (video : Video) :
  videoReady refs = Some video ->
  videoRef refs = Some video /\
  exists canvas, canvasRef refs = Some canvas /\ has2d canvas = true.
Proof.
  unfold videoReady. destruct (videoRef refs) as [v|]; [|discriminate].
  destruct (canvasRef refs) as [canvas|]; [|discriminate].
  destruct (has2d canvas) eqn:H2d; cbn [negb orb]; [|discriminate].
  destruct ((videoWidth v =? 0) || (videoHeight v =? 0))%bool; [discriminate|].
  intros [= ->]. split; [reflexivity | exists canvas; split; [reflexivity | assumption]].
Qed.

Lemma clientSide_faceDetected (closure : Closure) (refs : Refs) (now : Z)
      (st : State) (video : Video) :
  videoReady refs = Some video ->
  let st' := performClientSideDetection closure refs now st in
  faceDetected st' = facePresent (frame video) /\
  error st' = error st /\
  backendDetectionEnabled st' = backendDetectionEnabled st.
Proof.
  intros H. unfold performClientSideDetection. rewrite H.
  cbv zeta. cbn [faceDetected error backendDetectionEnabled]. auto.
Qed.

End CameraFacts.

(** C9.  The fallback detector reports a face exactly when the fraction of
    skin-tone pixels of the frame exceeds 0.02, a pixel being skin-tone when
    r > 95, g > 40, b > 20, max - min > 15, |r - g| > 15, r > g and r > b
    ([Camera.SkinTone]).  [n] is the number of such pixels; the frame has
    fewer than 2^53 pixels.  Both copies of the detector report what
    [Camera.facePresent] computes: the hook sets [faceDetected] to it, the
    self-test screen sets the face count to 1 and the status to success when
    it holds and the face count to 0 when it does not. *)
Theorem skin_tone_detector (data : Camera.ImageData) (n : Z) :
  Camera.counts Camera.SkinTone data n ->
  Camera.totalPixels data < 2 ^ 53 ->
  (Camera.facePresent data = true <->
   ((2 # 100) < inject_Z n / inject_Z (Camera.totalPixels data))%Q)
  /\ (forall closure refs now st video,
        Camera.videoReady refs = Some video -> Camera.frame video = data ->
        Camera.faceDetected (Camera.performClientSideDetection closure refs now st)
        = Camera.facePresent data)
  /\ (forall refs st video,
        Camera.videoReady refs = Some video ->
        let st' := Camera.checkClientSideDetection refs data st in
        if Camera.facePresent data
        then Camera.faceCount st' = 1 /\ Camera.checkStatus st' = Camera.check_success
             /\ Camera.cameraReady st' = Camera.cameraReady st ++ [true]
        else Camera.faceCount st' = 0 /\ Camera.checkStatus st' = Camera.checkStatus st
             /\ Camera.cameraReady st' = Camera.cameraReady st).
Proof.
  intros Hn Ht. split; [|split].
  - rewrite facePresent_spec by assumption.
    pose proof (counts_range _ _ _ Hn) as Hr.
    rewrite (skinPixels_counts _ _ Hn), Z.ltb_lt.
    symmetry. apply fraction_above_0_02. assumption.
  - intros closure refs now st video Hv <-.
    apply (clientSide_faceDetected closure refs now st video Hv).
  - intros refs st video Hv.
    destruct (videoReady_refs _ _ Hv) as (Ev & canvas & Ec & H2d).
    unfold Camera.checkClientSideDetection. rewrite Ec, Ev, H2d.
    destruct (Camera.facePresent data); cbv zeta;
      cbn [Camera.faceCount Camera.checkStatus Camera.cameraReady]; auto.
Qed.

Lemma skin_tone_detector_witness :
  Camera.facePresent [Samples.skin_pixel; Samples.dark_pixel] = true <->
  ((2 # 100) < inject_Z 1 / inject_Z (Camera.totalPixels [Samples.skin_pixel; Samples.dark_pixel]))%Q.
Proof.
  refine (proj1 (skin_tone_detector [Samples.skin_pixel; Samples.dark_pixel] 1 _ _)).
  - apply (Camera.counts_in Camera.SkinTone Samples.skin_pixel [Samples.dark_pixel] 0).
    + unfold Camera.SkinTone, Samples.skin_pixel. cbn. lia.
    + apply Camera.counts_out; [|constructor].
      unfold Camera.SkinTone, Samples.dark_pixel. cbn. lia.
  - reflexivity.
Defined.

(** [startFaceDetection] installs an interval whose period is 1000 ms and
    whose handler is [detectFace].  A firing of the handler, in a closure
    where the camera is active and backend detection is enabled and with the
    video ready, sends one request to the detection endpoint; when the
    request fails (the fetch rejects, the body is not JSON or the reply is
    unsuccessful) the firing ends with the local skin-tone heuristic:
    [faceDetected] is what [Camera.facePresent] computes on the frame, the
    error cell is left as it was and backend detection is switched off. *)
Lemma backend_failure_falls_back
        (closure : Camera.Closure) (refs : Camera.Refs) (reply : Camera.DetectReply)
        (now : Z) (st : Camera.State) (video : Camera.Video) :
  Camera.c_isActive closure = true ->
  Camera.c_backendDetectionEnabled closure = true ->
  Camera.videoReady refs = Some video ->
  Camera.faceDetectionRef (Camera.startFaceDetection closure refs st)
  = Some (Camera.mkInterval (Camera.DetectFace closure) 1000)
  /\ snd (Camera.detectFace closure refs reply now st)
     = [Camera.PostDetect (Camera.frame video)]
  /\ (Camera.failed reply ->
      let st' := fst (Camera.detectFace closure refs reply now st) in
      Camera.faceDetected st' = Camera.facePresent (Camera.frame video) /\
      Camera.error st' = Camera.error st /\
      Camera.backendDetectionEnabled st' = false).
Proof.
  intros Ha Hb Hv.
  destruct (videoReady_refs _ _ Hv) as (Ev & canvas & Ec & H2d).
  split; [|split].
  - unfold Camera.startFaceDetection. now rewrite Ev, Ec.
  - unfold Camera.detectFace, Camera.performBackendDetection.
    rewrite Ev, Ec, Ha, Hb, Hv.
    destruct reply as [| |data]; [reflexivity | reflexivity |].
    destruct (Camera.success data); reflexivity.
  - intros Hf. unfold Camera.detectFace, Camera.performBackendDetection.
    rewrite Ev, Ec, Ha, Hb, Hv.
    assert (forall st0,
               Camera.error st0 = Camera.error st ->
               Camera.backendDetectionEnabled st0 = false ->
               let st' := Camera.performClientSideDetection closure refs now st0 in
               Camera.faceDetected st' = Camera.facePresent (Camera.frame video) /\
               Camera.error st' = Camera.error st /\
               Camera.backendDetectionEnabled st' = false) as Hclient.
    { intros st0 He Hd.
      destruct (clientSide_faceDetected closure refs now st0 video Hv) as (F & E & B).
      cbv zeta. rewrite F, E, B. auto. }
    destruct reply as [| |data]; cbn in Hf; try rewrite Hf; cbn [fst];
      apply Hclient; reflexivity.
Qed.

(** The self-test screen runs its own loop: while the camera is active and
    the check is pending its effect installs an interval of 500 ms, and a
    firing whose request fails ends with the skin-tone test on the frame it
    drew. *)
Lemma cameraCheck_falls_back (refs : Camera.Refs) (reply : Camera.DetectReply)
      (st : Camera.CheckState) (video : Camera.Video) :
  Camera.videoReady refs = Some video ->
  (Camera.checkStatus st = Camera.checking ->
   Camera.detectionIntervalRef (Camera.detectionEffect true st) = Some 500)
  /\ (Camera.failed reply ->
      Camera.detectFaces true refs reply st
      = (Camera.checkClientSideDetection refs (Camera.frame video) st,
         [Camera.PostDetect (Camera.frame video)])).
Proof.
  intros Hv. split.
  - intros Hc. unfold Camera.detectionEffect. now rewrite Hc.
  - intros Hf. unfold Camera.detectFaces. rewrite Hv.
    destruct reply as [| |data]; try reflexivity.
    cbn in Hf. now rewrite Hf.
Qed.

(** C6, in the interval that [startCamera] installs.  The camera starts,
    [isActive] becomes true and an interval of period 1000 ms is installed,
    but its handler is the [detectFace] of the first render, in whose
    closure [isActive] is false: every firing returns at the guard, sends no
    request to the detection endpoint and runs no fallback, whatever the
    state, the refs and the reply of the backend. *)
Theorem camera_interval_never_polls
        (refs : Camera.Refs) (st : Camera.State)
        (video : Camera.Video) (canvas : Camera.Canvas) :
  Camera.videoRef refs = Some video ->
  Camera.canvasRef refs = Some canvas ->
  let st' := fst (Camera.startCamera None refs st) in
  Camera.isActive st' = true
  /\ Camera.faceDetectionRef st'
     = Some (Camera.mkInterval (Camera.DetectFace Camera.firstRender) 1000)
  /\ forall refs' reply now st'',
       Camera.detectFace Camera.firstRender refs' reply now st'' = (st'', []).
Proof.
  intros Hv Hc. cbv zeta. unfold Camera.startCamera, Camera.startFaceDetection.
  rewrite Hv, Hc. cbn [fst Camera.isActive Camera.faceDetectionRef].
  repeat split.
  intros refs' reply now st''. unfold Camera.detectFace.
  destruct (Camera.videoRef refs'), (Camera.canvasRef refs'); reflexivity.
Qed.

Lemma camera_interval_never_polls_witness :
  let st' := fst (Camera.startCamera None Samples.ready_refs Camera.initial) in
  Camera.isActive st' = true
  /\ Camera.faceDetectionRef st'
     = Some (Camera.mkInterval (Camera.DetectFace Camera.firstRender) 1000)
  /\ forall refs' reply now st'',
       Camera.detectFace Camera.firstRender refs' reply now st'' = (st'', []).
Proof.
  refine (camera_interval_never_polls Samples.ready_refs Camera.initial
            (Camera.mkVideo 2 1 [Samples.skin_pixel; Samples.dark_pixel])
            (Camera.mkCanvas true) _ _); reflexivity.
Defined.

(** ** The interview session *)

Section InterviewFacts.
Import Types JsString RegExp Interview.

Variable RegExp_i : engine.

Lemma submitResponse_eq (draws : Draws) (questionId answer : string) (duration : Q)
      (audioBlob : option Blob) (render st : State) (s : Session.t) :
  currentSession render = Some s ->
  submitResponse RegExp_i draws questionId answer duration audioBlob render st =
  match hasRelevantKeywords RegExp_i (Session.jobDescription s) answer with
  | Threw => Threw
  | Returned relevant =>
      Returned (setCurrentSession st
                  (withResponses s
                     (Session.responses s ++
                      [buildResponse draws relevant questionId answer duration audioBlob])))
  end.
Proof. intros H. unfold submitResponse. now rewrite H. Qed.

(** A call that returns has appended the response it built to the
    responses that its closure holds. *)
Lemma submitResponse_returned (draws : Draws) (questionId answer : string)
      (duration : Q) (audioBlob : option Blob) (render st st' : State) (s : Session.t) :
  currentSession render = Some s ->
  submitResponse RegExp_i draws questionId answer duration audioBlob render st
  = Returned st' ->
  exists relevant,
    hasRelevantKeywords RegExp_i (Session.jobDescription s) answer = Returned relevant /\
    currentSession st' =
    Some (withResponses s
            (Session.responses s ++
             [buildResponse draws relevant questionId answer duration audioBlob])).
Proof.
  intros Hs H. rewrite (submitResponse_eq _ _ _ _ _ _ _ _ Hs) in H.
  destruct (hasRelevantKeywords RegExp_i (Session.jobDescription s) answer)
    as [relevant|]; [|discriminate].
  injection H as <-. exists relevant. split; reflexivity.
Qed.

(** The call returns unless the constructor rejects the pattern. *)
Lemma hasRelevantKeywords_returns (jd : JobDescription.t) (answer : string) :
  (forall requirements,
      JobDescription.requirements jd = Some requirements ->
      isEmpty requirements = false ->
      RegExp_i (requirementsPattern requirements) <> SyntaxError) ->
  exists relevant, hasRelevantKeywords RegExp_i jd answer = Returned relevant.
Proof.
  intros H. unfold hasRelevantKeywords.
  destruct (JobDescription.requirements jd) as [requirements|]; [|eauto].
  destruct (isEmpty requirements) eqn:E; [eauto|].
  specialize (H requirements eq_refl E).
  destruct (RegExp_i (requirementsPattern requirements)); [contradiction | eauto].
Qed.

(** A callback whose closure holds no session sets nothing. *)
Lemma invoke_without_session (render st : State) (c : Call) :
  currentSession render = None -> isStart c = false -> invoke RegExp_i render st c = st.
Proof.
  intros H Hc. destruct c; try discriminate Hc; cbn [invoke].
  - unfold submitResponse. rewrite H. reflexivity.
  - unfold nextQuestion. rewrite H. reflexivity.
  - unfold stopInterview. rewrite H. reflexivity.
  - unfold completeInterview. rewrite H. reflexivity.
Qed.

Lemma step_without_session (st : State) (c : Call) :
  currentSession st = None -> isStart c = false -> step RegExp_i st c = st.
Proof. apply invoke_without_session. Qed.

(** What a call leaves as the current session: the one that was there, or
    what the call makes of the session that its closure holds. *)
Lemma invoke_evolves (render st : State) (c : Call) (s : Session.t) :
  currentSession render = Some s -> isStart c = false ->
  currentSession (invoke RegExp_i render st c) = currentSession st \/
  exists s', currentSession (invoke RegExp_i render st c) = Some s' /\ evolves s c s'.
Proof.
  intros H Hc. destruct c; try discriminate Hc; cbn [invoke].
  - rewrite (submitResponse_eq _ _ _ _ _ _ _ _ H).
    destruct (hasRelevantKeywords RegExp_i (Session.jobDescription s) answer)
      as [relevant|]; [|now left].
    right. eexists. split; [reflexivity | constructor].
  - left. unfold nextQuestion. rewrite H.
    destruct (currentQuestionIndex render <? _); reflexivity.
  - right. unfold stopInterview. rewrite H. eexists. split; [reflexivity|].
    constructor; reflexivity.
  - unfold completeInterview. rewrite H.
    destruct (Session.responses s) as [|r l] eqn:E; [now left|].
    right. eexists. split; [reflexivity|].
    eapply evolves_completed;
      cbn [Session.responses Session.status Session.result Session.id];
      try reflexivity; congruence.
Qed.

Lemma step_evolves (st : State) (c : Call) (s : Session.t) :
  currentSession st = Some s -> isStart c = false ->
  exists s', currentSession (step RegExp_i st c) = Some s' /\ evolves s c s'.
Proof.
  intros H Hc. unfold step.
  destruct (invoke_evolves st st c s H Hc) as [E | (s' & E & Hev)].
  - exists s. split; [now rewrite E | constructor].
  - exists s'. auto.
Qed.

Lemma evolves_id (s s' : Session.t) (c : Call) :
  evolves s c s' -> Session.id s' = Session.id s.
Proof. destruct 1; auto. Qed.

Lemma evolves_responses (s s' : Session.t) (c : Call) :
  evolves s c s' -> exists l, Session.responses s' = Session.responses s ++ l.
Proof.
  destruct 1.
  - exists []. now rewrite app_nil_r.
  - eexists. reflexivity.
  - exists []. now rewrite app_nil_r.
  - exists []. now rewrite app_nil_r.
Qed.

Lemma evolves_result (s s' : Session.t) (c : Call) :
  evolves s c s' -> isComplete c = false -> Session.result s' = Session.result s.
Proof. destruct 1; intros Hc; try discriminate Hc; auto. Qed.

Lemma evolves_status (s s' : Session.t) (c : Call) :
  evolves s c s' ->
  Session.status s' = Session.status s \/
  Session.status s' = stopped \/
  (Session.status s' = completed /\ Session.result s' <> None).
Proof.
  destruct 1; auto.
  right. right. split; [assumption | congruence].
Qed.

Lemma completed_has_result_invoke (render st : State) (c : Call) :
  completed_has_result render -> completed_has_result st ->
  completed_has_result (invoke RegExp_i render st c).
Proof.
  intros Hr Inv s' Hs' Hst.
  destruct (isStart c) eqn:Hc.
  - destruct c; try discriminate Hc.
    cbn [invoke startInterview fst currentSession] in Hs'.
    injection Hs' as <-. discriminate Hst.
  - destruct (currentSession render) as [s|] eqn:Hs.
    + destruct (invoke_evolves render st c s Hs Hc) as [E | (s'' & E & Hev)].
      * rewrite E in Hs'. now apply (Inv s').
      * rewrite E in Hs'. injection Hs' as ->.
        destruct Hev; try congruence.
        -- apply (Hr s Hs). assumption.
        -- apply (Hr s Hs). assumption.
    + rewrite (invoke_without_session render st c Hs Hc) in Hs'. now apply (Inv s').
Qed.

Lemma completed_has_result_step (st : State) (c : Call) :
  completed_has_result st -> completed_has_result (step RegExp_i st c).
Proof. intros H. now apply completed_has_result_invoke. Qed.

Lemma completed_has_result_run (calls : list Call) (st : State) :
  completed_has_result st -> completed_has_result (run RegExp_i st calls).
Proof.
  revert st. induction calls as [|c calls IH]; intros st Inv; [assumption|].
  cbn [run fold_left]. apply IH. now apply completed_has_result_step.
Qed.

(** *** Calls through the callbacks of earlier renders *)

Lemma Forall_hd {A : Type} (P : A -> Prop) (l : list A) (d : A) :
  Forall P l -> P d -> P (hd d l).
Proof. intros H Hd. destruct H; assumption. Qed.

Lemma Forall_nth {A : Type} (P : A -> Prop) (l : list A) (n : nat) (d : A) :
  Forall P l -> P d -> P (nth n l d).
Proof.
  intros H Hd. revert n. induction H as [|x l Hx _ IH]; intros [|n]; cbn; auto.
Qed.

(** What every call keeps, whichever render it goes through, holds of all
    the renders of a replay. *)
Lemma replay_invariant (P : State -> Prop) :
  (forall render st c, P render -> P st -> P (invoke RegExp_i render st c)) ->
  P initial ->
  forall invocations renders,
    Forall P renders -> Forall P (replay RegExp_i renders invocations).
Proof.
  intros Hstep H0. induction invocations as [|i invocations IH]; intros renders H;
    [exact H|].
  cbn [replay fold_left]. apply IH. unfold invokeThrough. constructor; [|exact H].
  assert (Hl : P (latest renders)) by (unfold latest; now apply Forall_hd).
  apply Hstep; [now apply Forall_nth | exact Hl].
Qed.

(** Calls that all go through the callbacks of the latest render are a
    run. *)
Lemma replay_latest (calls : list Call) (st : State) (older : list State) :
  latest (replay RegExp_i (st :: older) (List.map (through 0) calls))
  = run RegExp_i st calls.
Proof.
  revert st older. induction calls as [|c calls IH]; intros st older; [reflexivity|].
  cbn [List.map replay fold_left run]. unfold invokeThrough at 1.
  cbn [age made latest hd nth]. apply (IH (step RegExp_i st c)).
Qed.

(** A session that is not in progress stays so through every run of calls
    other than [startInterview], and it stays the same session. *)
Lemma left_in_progress_run (calls : list Call) (st : State) (s : Session.t) :
  currentSession st = Some s ->
  List.forallb (fun c => negb (isStart c)) calls = true ->
  Session.status s <> in_progress ->
  exists s',
    currentSession (run RegExp_i st calls) = Some s' /\
    Session.id s' = Session.id s /\
    Session.status s' <> in_progress.
Proof.
  revert st s. induction calls as [|c calls IH]; intros st s Hs Hc Hst.
  - exists s. auto.
  - cbn [List.forallb] in Hc. apply andb_true_iff in Hc as [Hc Hcs].
    apply negb_true_iff in Hc.
    destruct (step_evolves st c s Hs Hc) as (s1 & E & Hev).
    assert (Session.status s1 <> in_progress) as H1.
    { destruct (evolves_status _ _ _ Hev) as [H | [H | [H _]]]; congruence. }
    destruct (IH _ s1 E Hcs H1) as (s' & E' & Hid & Hst').
    exists s'. cbn [run fold_left]. split; [exact E'|].
    split; [|assumption]. rewrite Hid. apply (evolves_id _ _ _ Hev).
Qed.

(** A call other than [startInterview] stores a session in progress only
    when the session was in progress already, in the state at the call or
    in the closure. *)
Lemma in_progress_invoke (render st : State) (c : Call) :
  isStart c = false ->
  sessionStatus (invoke RegExp_i render st c) = Some in_progress ->
  sessionStatus st = Some in_progress \/ sessionStatus render = Some in_progress.
Proof.
  intros Hc H. destruct (currentSession render) as [s|] eqn:Hs.
  - destruct (invoke_evolves render st c s Hs Hc) as [E | (s' & E & Hev)].
    + left. unfold sessionStatus in *. now rewrite <- E.
    + right. unfold sessionStatus in *. rewrite E in H. rewrite Hs.
      cbn [option_map] in *. injection H as H.
      destruct (evolves_status _ _ _ Hev) as [K | [K | [K _]]]; congruence.
  - left. now rewrite (invoke_without_session render st c Hs Hc) in H.
Qed.

(** A call that is neither [startInterview] nor [completeInterview]
    computes no result. *)
Lemma result_invoke (render st : State) (c : Call) :
  isStart c = false -> isComplete c = false ->
  sessionResult (invoke RegExp_i render st c) = sessionResult st \/
  sessionResult (invoke RegExp_i render st c) = sessionResult render.
Proof.
  intros Hc Hk. destruct (currentSession render) as [s|] eqn:Hs.
  - destruct (invoke_evolves render st c s Hs Hc) as [E | (s' & E & Hev)].
    + left. unfold sessionResult. now rewrite E.
    + right. unfold sessionResult. rewrite E, Hs. cbn [option_map].
      now rewrite (evolves_result _ _ _ Hev Hk).
  - left. now rewrite (invoke_without_session render st c Hs Hc).
Qed.

End InterviewFacts.

(** C1, as the specification states it: once the result of a session is
    set, no later call on that session changes it.  A second
    [completeInterview] does: the session that was completed after 60
    seconds gets a new result, with a duration of 98 seconds, when the call
    is repeated at 99000 ms. *)
Lemma result_reassigned_by_second_completion :
  ~ (forall (RegExp_i : RegExp.engine) (st : Interview.State) (c : Interview.Call)
            (r : Types.Result.t),
        Interview.reachable RegExp_i st ->
        Interview.isStart c = false ->
        Interview.sessionResult st = Some (Some r) ->
        Interview.sessionResult (Interview.step RegExp_i st c) = Some (Some r)).
Proof.
  intros H.
  set (again := Interview.CompleteInterview Samples.completionDraws 99000).
  assert (exists r, Interview.sessionResult Samples.completedOnce = Some (Some r))
    as [r Hr] by (eexists; vm_compute; reflexivity).
  assert (option_map (option_map Types.Result.interviewDuration)
                     (Interview.sessionResult Samples.completedOnce)
          = Some (Some 60)) as Before by (vm_compute; reflexivity).
  assert (option_map (option_map Types.Result.interviewDuration)
                     (Interview.sessionResult
                        (Interview.step RegExp.reference_RegExp_i
                                        Samples.completedOnce again))
          = Some (Some 98)) as After by (vm_compute; reflexivity).
  rewrite (H RegExp.reference_RegExp_i Samples.completedOnce again r) in After.
  - rewrite Hr in Before. cbn [option_map] in Before, After. congruence.
  - eexists. reflexivity.
  - reflexivity.
  - exact Hr.
Qed.

(** C1, amended.  Calls may go through the callbacks of any render so far.
    In every state they lead to, a session whose status is 'completed' has
    a result.  [startInterview] installs a session without a result.
    [submitResponse], [nextQuestion] and [stopInterview] compute no result:
    after them the session has the result it had, or the result of the
    session in the closure of the call, so a call through the callbacks of
    the latest render leaves the result as it is.  [completeInterview]
    returns a result exactly when the session in its closure has a
    response: it has then stored that session with the result it returns,
    computed from those responses, and with the status 'completed';
    otherwise it returns null and changes nothing. *)
Theorem result_written_by_completion_only
        (RegExp_i : RegExp.engine) (invocations : list Interview.Invocation) :
  let renders := Interview.replay RegExp_i Interview.mounted invocations in
  Forall Interview.completed_has_result renders
  /\ (forall render st env id createdAt startTime studentInfo jobDescription,
        Interview.sessionResult
          (Interview.invoke RegExp_i render st
             (Interview.StartInterview env id createdAt startTime studentInfo
                                       jobDescription))
        = Some None)
  /\ (forall render st c,
        Interview.isStart c = false -> Interview.isComplete c = false ->
        (Interview.sessionResult (Interview.invoke RegExp_i render st c)
         = Interview.sessionResult st \/
         Interview.sessionResult (Interview.invoke RegExp_i render st c)
         = Interview.sessionResult render) /\
        Interview.sessionResult (Interview.step RegExp_i st c)
        = Interview.sessionResult st)
  /\ (forall draws now render st,
        match Interview.completeInterview draws now render st with
        | (st', Some result) =>
            exists s,
              Interview.currentSession render = Some s /\
              Types.Session.responses s <> [] /\
              result = Interview.buildResult
                         draws now (Interview.interviewStartTime render) s /\
              Interview.sessionResult st' = Some (Some result) /\
              Interview.sessionStatus st' = Some Types.completed /\
              Interview.sessionResponses st' = Some (Types.Session.responses s)
        | (st', None) =>
            st' = st /\
            forall s, Interview.currentSession render = Some s ->
                      Types.Session.responses s = []
        end).
Proof.
  intros renders. split; [|split; [|split]].
  - apply replay_invariant.
    + apply completed_has_result_invoke.
    + intros s Hs. discriminate Hs.
    + constructor; [|constructor]. intros s Hs. discriminate Hs.
  - reflexivity.
  - intros render st c Hc Hk. split; [now apply result_invoke|].
    destruct (result_invoke RegExp_i st st c Hc Hk) as [E | E]; exact E.
  - intros draws now render st. unfold Interview.completeInterview.
    destruct (Interview.currentSession render) as [s|]; [|split; [reflexivity|]].
    + destruct (Types.Session.responses s) eqn:Er.
      * split; [reflexivity|]. intros s0 [= <-]. exact Er.
      * exists s. rewrite Er. repeat split. discriminate.
    + discriminate.
Qed.

(** C2, as the specification states it: no operation moves a session out of
    'stopped' back to 'in-progress'.  The callbacks store a session rebuilt
    from the one in their closure: [stopInterview] followed by a
    [submitResponse] through the callbacks of the render before it leaves
    the session 'in-progress', with the new response. *)
Lemma stale_submitResponse_reopens_session :
  ~ (forall (RegExp_i : RegExp.engine) (invocations : list Interview.Invocation)
            (i : Interview.Invocation) (s : Types.Session.t),
        let renders := Interview.replay RegExp_i Interview.mounted invocations in
        Interview.currentSession (Interview.latest renders) = Some s ->
        Types.Session.status s <> Types.in_progress ->
        Interview.isStart (Interview.made i) = false ->
        Interview.sessionStatus
          (Interview.latest (Interview.invokeThrough RegExp_i renders i))
        <> Some Types.in_progress).
Proof.
  intros H.
  apply (H RegExp.reference_RegExp_i Scenarios.startedAndStopped
           (Interview.through 1 Samples.answer1) Scenarios.stoppedSession).
  - vm_compute. reflexivity.
  - discriminate.
  - reflexivity.
  - vm_compute. reflexivity.
Qed.

(** C2, amended.  The hook starts without a session; [startInterview]
    creates every session with the status 'in-progress'; [stopInterview]
    stores the session of its closure with the status 'stopped' and
    [completeInterview], when that session has a response, with the status
    'completed'; [nextQuestion] keeps the status, and so does a
    [submitResponse] through the callbacks of the latest render.  When every
    call goes through the callbacks of the latest render, a session that has
    left 'in-progress' never has that status again, whatever sequence of
    these operations is called on it.  Through whatever callbacks, a call
    other than [startInterview] leaves a session 'in-progress' only if the
    session was so at the call or is so in the closure of the call. *)
Theorem status_lifecycle (RegExp_i : RegExp.engine) (render st : Interview.State) :
  Interview.currentSession Interview.initial = None
  /\ (forall env id createdAt startTime studentInfo jobDescription,
      let '(st', session) :=
        Interview.startInterview env id createdAt startTime studentInfo
                                 jobDescription st in
      Interview.currentSession st' = Some session /\
      Types.Session.status session = Types.in_progress)
  /\ (forall now,
        match Interview.currentSession render with
        | Some _ =>
            exists s', Interview.stopInterview now render st
                       = (Interview.setCurrentSession st s', Some s') /\
                       Types.Session.status s' = Types.stopped
        | None => Interview.stopInterview now render st = (st, None)
        end)
  /\ (forall draws now s,
        Interview.currentSession render = Some s ->
        Interview.sessionStatus (fst (Interview.completeInterview draws now render st))
        = match Types.Session.responses s with
          | [] => Interview.sessionStatus st
          | _ :: _ => Some Types.completed
          end)
  /\ (forall draws questionId answer duration audioBlob,
        Interview.sessionStatus
          (Interview.step RegExp_i st
             (Interview.SubmitResponse draws questionId answer duration audioBlob))
        = Interview.sessionStatus st)
  /\ Interview.sessionStatus (Interview.invoke RegExp_i render st Interview.NextQuestion)
     = Interview.sessionStatus st
  /\ (forall calls s,
        Interview.currentSession st = Some s ->
        List.forallb (fun c => negb (Interview.isStart c)) calls = true ->
        Types.Session.status s <> Types.in_progress ->
        exists s',
          Interview.currentSession (Interview.run RegExp_i st calls) = Some s' /\
          Types.Session.id s' = Types.Session.id s /\
          Types.Session.status s' <> Types.in_progress)
  /\ (forall c,
        Interview.isStart c = false ->
        Interview.sessionStatus (Interview.invoke RegExp_i render st c)
        = Some Types.in_progress ->
        Interview.sessionStatus st = Some Types.in_progress \/
        Interview.sessionStatus render = Some Types.in_progress).
Proof.
  split; [reflexivity|]. split; [intros; cbn; auto|].
  split; [|split; [|split; [|split; [|split]]]].
  - intros now. destruct (Interview.currentSession render) as [s|] eqn:Hs.
    + eexists. unfold Interview.stopInterview. rewrite Hs. split; reflexivity.
    + unfold Interview.stopInterview. now rewrite Hs.
  - intros draws now s Hs. unfold Interview.completeInterview. rewrite Hs.
    destruct (Types.Session.responses s); reflexivity.
  - intros draws questionId answer duration audioBlob.
    destruct (Interview.currentSession st) as [s|] eqn:Hs.
    + unfold Interview.step. cbn [Interview.invoke].
      rewrite (submitResponse_eq RegExp_i _ _ _ _ _ _ _ _ Hs).
      destruct (Interview.hasRelevantKeywords _ _ _).
      * unfold Interview.sessionStatus. cbn. now rewrite Hs.
      * reflexivity.
    + now rewrite step_without_session.
  - cbn [Interview.invoke]. unfold Interview.nextQuestion.
    destruct (Interview.currentSession render) as [s|]; [|reflexivity].
    destruct (_ <? _); reflexivity.
  - intros calls s Hs Hc Hst. now apply left_in_progress_run.
  - intros c. apply in_progress_invoke.
Qed.

(** C3, at a session whose requirements do not compile.  When the
    constructor rejects the pattern made from the requirements, the call
    throws before anything is stored: no response is appended. *)
Theorem submitResponse_throws_on_rejected_pattern
        (RegExp_i : RegExp.engine) (draws : Interview.Draws)
        (questionId answer : string) (duration : Q) (audioBlob : option Types.Blob)
        (st : Interview.State) (s : Types.Session.t) (requirements : string) :
  Interview.currentSession st = Some s ->
  Types.JobDescription.requirements (Types.Session.jobDescription s)
  = Some requirements ->
  JsString.isEmpty requirements = false ->
  RegExp_i (Interview.requirementsPattern requirements) = RegExp.SyntaxError ->
  Interview.submitResponse RegExp_i draws questionId answer duration audioBlob st st
  = Interview.Threw
  /\ Interview.sessionResponses
       (Interview.step RegExp_i st
          (Interview.SubmitResponse draws questionId answer duration audioBlob))
     = Some (Types.Session.responses s).
Proof.
  intros Hs Hr He Hx.
  assert (Interview.submitResponse RegExp_i draws questionId answer duration
                                   audioBlob st st = Interview.Threw) as T.
  { rewrite (submitResponse_eq RegExp_i _ _ _ _ _ _ _ _ Hs).
    unfold Interview.hasRelevantKeywords. now rewrite Hr, He, Hx. }
  split; [assumption|].
  unfold Interview.step. cbn [Interview.invoke]. rewrite T.
  unfold Interview.sessionResponses. now rewrite Hs.
Qed.

Lemma submitResponse_throws_on_rejected_pattern_witness :
  Interview.submitResponse RegExp.reference_RegExp_i Samples.draws
    "fallback-0" "I have used C++ for ten years." (45 # 1)%Q None
    (Interview.step RegExp.reference_RegExp_i Interview.initial
                    (Samples.start Samples.systems))
    (Interview.step RegExp.reference_RegExp_i Interview.initial
                    (Samples.start Samples.systems))
  = Interview.Threw.
Proof.
  refine (proj1 (submitResponse_throws_on_rejected_pattern
                   RegExp.reference_RegExp_i Samples.draws
                   "fallback-0" "I have used C++ for ten years." (45 # 1)%Q None
                   (Interview.step RegExp.reference_RegExp_i Interview.initial
                                   (Samples.start Samples.systems))
                   _ "C++, Rust" _ _ _ _)); reflexivity.
Defined.

(** ** The heuristic scores *)

Section ScoreFacts.
Import Types Interview.

Lemma confidenceScore_bounds (u : JsNumber.Draw) (len : Z)
      (examples quantified relevant : bool) :
  70 <= confidenceScore u len examples quantified relevant <= 100.
Proof.
  pose proof (randomBelow_range 20 u ltac:(cbn; lia)).
  unfold confidenceScore.
  destruct (len >? 100), (len >? 200), examples, quantified, relevant; lia.
Qed.

Lemma clarityScore_bounds (u : JsNumber.Draw) (duration : Q) (nKeywords : nat) :
  75 <= clarityScore u duration nKeywords <= 100.
Proof.
  pose proof (randomBelow_range 20 u ltac:(cbn; lia)).
  unfold clarityScore.
  destruct (Qltb (30 # 1) duration && Qltb duration (180 # 1))%bool,
           (Nat.ltb 10 nKeywords); lia.
Qed.

Lemma relevance_bounds (examples quantified relevant : bool) :
  60 <= relevance examples quantified relevant <= 97.
Proof. destruct examples, quantified, relevant; cbn; lia. Qed.

End ScoreFacts.

(** C8.  Whatever the answer, the duration and the outcome of the pattern
    tests, the response that a returning [submitResponse] appends carries a
    confidence in [70, 100], a clarity in [75, 100] and a relevance score in
    [60, 100], for all draws of [Math.random()], the products
    [Math.random() * 20] being the binary64 products; the three are
    integers by their type. *)
Theorem scores_bounded
        (RegExp_i : RegExp.engine) (draws : Interview.Draws)
        (questionId answer : string) (duration : Q) (audioBlob : option Types.Blob)
        (render st st' : Interview.State) (s : Types.Session.t) :
  Interview.currentSession render = Some s ->
  Interview.submitResponse RegExp_i draws questionId answer duration audioBlob render st
  = Interview.Returned st' ->
  exists response,
    Interview.sessionResponses st' = Some (Types.Session.responses s ++ [response]) /\
    70 <= Types.Response.confidence response <= 100 /\
    75 <= Types.Response.clarity response <= 100 /\
    60 <= Types.Response.relevanceScore response <= 100.
Proof.
  intros Hs H.
  destruct (submitResponse_returned RegExp_i _ _ _ _ _ _ _ _ _ Hs H) as (relevant & _ & E).
  eexists. split.
  - unfold Interview.sessionResponses. rewrite E. reflexivity.
  - cbn [Interview.buildResponse Types.Response.confidence Types.Response.clarity
         Types.Response.relevanceScore].
    split; [apply confidenceScore_bounds|].
    split; [apply clarityScore_bounds|].
    pose proof (relevance_bounds (Interview.hasSpecificExamples answer)
                                 (Interview.hasQuantifiableResults answer) relevant).
    lia.
Qed.

Lemma scores_bounded_witness :
  exists response,
    Interview.sessionResponses
      (Interview.run RegExp.reference_RegExp_i Interview.initial
                     [Samples.start Samples.frontend; Samples.answer1])
    = Some (Types.Session.responses Samples.fresh ++ [response]) /\
    70 <= Types.Response.confidence response <= 100 /\
    75 <= Types.Response.clarity response <= 100 /\
    60 <= Types.Response.relevanceScore response <= 100.
Proof.
  refine (scores_bounded RegExp.reference_RegExp_i Samples.draws "fallback-0"
            Samples.anAnswer (45 # 1)%Q None Samples.started Samples.started
            _ Samples.fresh _ _).
  - reflexivity.
  - vm_compute. reflexivity.
Defined.

(** C10.  The keyword list of the response that a returning
    [submitResponse] appends has at most 10 entries, no entry occurs twice,
    and every entry has at least 4 characters, is in lower case, is a word
    of the lower-cased answer and is the lower-case form of a word of the
    answer. *)
Theorem keywords_of_response
        (RegExp_i : RegExp.engine) (draws : Interview.Draws)
        (questionId answer : string) (duration : Q) (audioBlob : option Types.Blob)
        (render st st' : Interview.State) (s : Types.Session.t) :
  Interview.currentSession render = Some s ->
  Interview.submitResponse RegExp_i draws questionId answer duration audioBlob render st
  = Interview.Returned st' ->
  exists response,
    Interview.sessionResponses st' = Some (Types.Session.responses s ++ [response]) /\
    (List.length (Types.Response.keywords response) <= 10)%nat /\
    NoDup (Types.Response.keywords response) /\
    forall w, In w (Types.Response.keywords response) ->
      (4 <= String.length w)%nat /\
      JsString.toLowerCase w = w /\
      JsString.word_of w (JsString.toLowerCase answer) /\
      exists w0, JsString.word_of w0 answer /\ JsString.toLowerCase w0 = w.
Proof.
  intros Hs H.
  destruct (submitResponse_returned RegExp_i _ _ _ _ _ _ _ _ _ Hs H) as (relevant & _ & E).
  eexists. split; [unfold Interview.sessionResponses; rewrite E; reflexivity|].
  cbn [Interview.buildResponse Types.Response.keywords].
  split; [apply firstn_le_length|].
  split; [apply NoDup_firstn, unique_NoDup|].
  intros w Hw. apply In_firstn in Hw. unfold Interview.uniqueKeywords in Hw.
  apply (proj1 (In_unique _ _)) in Hw. apply matchWords_word in Hw as [Hlen Hword].
  split; [assumption|].
  destruct Hword as (pre & post & Epp & Hchars & Hpre & Hpost).
  destruct (map_append_inv _ _ _ _ Epp) as (pre0 & rest & Ea & Epre & Erest).
  destruct (map_append_inv _ _ _ _ Erest) as (w0 & post0 & Er & Ew & Epost).
  assert (JsString.toLowerCase w0 = w) as Hw0 by exact Ew.
  split; [rewrite <- Hw0; apply toLowerCase_idem|].
  split; [exists pre, post; auto|].
  exists w0. split; [|assumption].
  exists pre0, post0. subst pre w post.
  rewrite forallb_word_toLowerCase in Hchars.
  rewrite ends_with_word_toLowerCase in Hpre.
  rewrite starts_with_word_toLowerCase in Hpost.
  rewrite Ea, Er. auto.
Qed.

Lemma keywords_of_response_witness :
  exists response,
    Interview.sessionResponses
      (Interview.run RegExp.reference_RegExp_i Interview.initial
                     [Samples.start Samples.frontend; Samples.answer1])
    = Some (Types.Session.responses Samples.fresh ++ [response]) /\
    (List.length (Types.Response.keywords response) <= 10)%nat /\
    NoDup (Types.Response.keywords response) /\
    forall w, In w (Types.Response.keywords response) ->
      (4 <= String.length w)%nat /\
      JsString.toLowerCase w = w /\
      JsString.word_of w (JsString.toLowerCase Samples.anAnswer) /\
      exists w0, JsString.word_of w0 Samples.anAnswer /\ JsString.toLowerCase w0 = w.
Proof.
  refine (keywords_of_response RegExp.reference_RegExp_i Samples.draws "fallback-0"
            Samples.anAnswer (45 # 1)%Q None Samples.started Samples.started
            _ Samples.fresh _ _).
  - reflexivity.
  - vm_compute. reflexivity.
Defined.

(** The responses of the current session only grow: whatever is called on
    a session, its responses keep their place at the front of the list. *)
Lemma responses_only_grow (RegExp_i : RegExp.engine) (st : Interview.State)
      (c : Interview.Call) (s : Types.Session.t) :
  Interview.currentSession st = Some s -> Interview.isStart c = false ->
  exists l, Interview.sessionResponses (Interview.step RegExp_i st c)
            = Some (Types.Session.responses s ++ l).
Proof.
  intros Hs Hc. destruct (step_evolves RegExp_i st c s Hs Hc) as (s' & E & Hev).
  destruct (evolves_responses _ _ _ Hev) as [l Hl]. exists l.
  unfold Interview.sessionResponses. now rewrite E, <- Hl.
Qed.

(** When the constructor accepts the pattern, or there are no requirements,
    [submitResponse] returns and has appended one response. *)
Lemma submitResponse_appends_when_accepted
      (RegExp_i : RegExp.engine) (draws : Interview.Draws)
      (questionId answer : string) (duration : Q) (audioBlob : option Types.Blob)
      (render st : Interview.State) (s : Types.Session.t) :
  Interview.currentSession render = Some s ->
  (forall requirements,
      Types.JobDescription.requirements (Types.Session.jobDescription s)
      = Some requirements ->
      JsString.isEmpty requirements = false ->
      RegExp_i (Interview.requirementsPattern requirements) <> RegExp.SyntaxError) ->
  exists st' response,
    Interview.submitResponse RegExp_i draws questionId answer duration audioBlob
                             render st
    = Interview.Returned st' /\
    Interview.sessionResponses st' = Some (Types.Session.responses s ++ [response]).
Proof.
  intros Hs Hok.
  destruct (hasRelevantKeywords_returns RegExp_i _ answer Hok) as [relevant Hr].
  rewrite (submitResponse_eq RegExp_i _ _ _ _ _ _ _ _ Hs), Hr.
  eexists. eexists. split; reflexivity.
Qed.

(** ** Audio capture *)

Section ListeningFacts.
Import Listening.







End ListeningFacts.




(** ** Question acquisition *)

Section QuestionFacts.
Import Types Network Questions.

Lemma mapi_from_length {A B : Type} (f : A -> nat -> B) (i : nat) (l : list A) :
  List.length (mapi_from f i l) = List.length l.
Proof.
  revert i. induction l as [|x l IH]; intros i; cbn; [reflexivity | now rewrite IH].
Qed.

Lemma mapi_from_map {A B C : Type} (f : A -> nat -> B) (g : B -> C) (h : A -> C)
      (i : nat) (l : list A) :
  (forall x j, g (f x j) = h x) ->
  List.map g (mapi_from f i l) = List.map h l.
Proof.
  intros H. revert i. induction l as [|x l IH]; intros i; cbn; [reflexivity|].
  now rewrite H, IH.
Qed.

Lemma fallbackQuestions_length (jd : JobDescription.t) :
  List.length (fallbackQuestions jd) = 6%nat.
Proof. unfold fallbackQuestions. destruct (JobDescription.type jd); reflexivity. Qed.

Lemma generateFallbackQuestions_texts (jd : JobDescription.t) :
  List.map Question.text (generateFallbackQuestions jd) = fallbackQuestions jd.
Proof.
  unfold generateFallbackQuestions, mapi.
  rewrite (mapi_from_map _ Question.text (fun x => x)); [apply map_id | reflexivity].
Qed.

Lemma generateFallbackQuestions_types (jd : JobDescription.t) :
  List.map Question.type (generateFallbackQuestions jd)
  = repeat (JobDescription.type jd) 6.
Proof.
  unfold generateFallbackQuestions, mapi.
  rewrite (mapi_from_map _ Question.type (fun _ => questionType jd)) by reflexivity.
  unfold questionType, fallbackQuestions.
  destruct (JobDescription.type jd); reflexivity.
Qed.

Lemma fromBackend_failed (env : Env) (jd : JobDescription.t) :
  storageReadable env = false \/ failed (reply env) -> fromBackend env jd = None.
Proof.
  unfold fromBackend, failed. intros [H | H]; rewrite H; [reflexivity|].
  destruct (storageReadable env); reflexivity.
Qed.

End QuestionFacts.

(** C5, as the specification states it: a failed request never yields the
    empty list.  The hook [useGeneratedQuestions] does: when the fetch
    rejects, [generateQuestions] resolves to the empty list. *)
Lemma generateQuestions_resolves_to_empty_list :
  ~ (forall (reply : Network.Reply) (now : nat -> Z) (jobDescription : string)
            (st : GeneratedQuestions.State),
        Network.failed reply ->
        snd (GeneratedQuestions.generateQuestions reply now jobDescription st) <> []).
Proof.
  intros H.
  apply (H (Network.NetworkError "Failed to fetch") (fun _ => 0)
           "Frontend engineer, React"%string GeneratedQuestions.initial); reflexivity.
Qed.

(** C5, amended.  When the request of [generateQuestionsFromBackend] fails
    (the stored entries cannot be read, the fetch rejects, the body is not
    JSON, the status is not ok or the body holds no list of questions), the
    promise resolves to the fallback set: the 6 fixed questions of the type
    of the job description, each with that type.  The hook
    [useGeneratedQuestions] has no fallback: on failure [generateQuestions]
    resolves to the empty list, records an error message and keeps its
    questions.  Both are total: no exception reaches the caller. *)
Theorem fallback_questions_on_failure
        (env : Questions.Env) (jd : Types.JobDescription.t) :
  Questions.storageReadable env = false \/ Network.failed (Questions.reply env) ->
  Questions.generateQuestionsFromBackend env jd = Questions.generateFallbackQuestions jd
  /\ List.length (Questions.generateQuestionsFromBackend env jd) = 6%nat
  /\ List.map Types.Question.text (Questions.generateQuestionsFromBackend env jd)
     = Questions.fallbackQuestions jd
  /\ List.map Types.Question.type (Questions.generateQuestionsFromBackend env jd)
     = repeat (Types.JobDescription.type jd) 6
  /\ (Network.failed (Questions.reply env) ->
      forall now jobDescription st,
        let '(st', questions) :=
          GeneratedQuestions.generateQuestions (Questions.reply env) now
                                               jobDescription st in
        questions = [] /\
        GeneratedQuestions.error st' <> None /\
        GeneratedQuestions.questions st' = GeneratedQuestions.questions st /\
        GeneratedQuestions.loading st' = false).
Proof.
  intros H.
  assert (Questions.generateQuestionsFromBackend env jd
          = Questions.generateFallbackQuestions jd) as E.
  { unfold Questions.generateQuestionsFromBackend. now rewrite fromBackend_failed. }
  rewrite E. split; [reflexivity|].
  split.
  { rewrite <- (length_map Types.Question.text), generateFallbackQuestions_texts.
    apply fallbackQuestions_length. }
  split; [apply generateFallbackQuestions_texts|].
  split; [apply generateFallbackQuestions_types|].
  intros Hf now jobDescription st. unfold Network.failed in Hf.
  destruct (Questions.reply env) as [m | [|] [m | e [m | texts]]];
    cbn in Hf |- *; try discriminate Hf; repeat split; discriminate.
Qed.

Lemma fallback_questions_on_failure_witness :
  Questions.generateQuestionsFromBackend Samples.offline Samples.frontend
  = Questions.generateFallbackQuestions Samples.frontend.
Proof.
  refine (proj1 (fallback_questions_on_failure Samples.offline Samples.frontend _)).
  right. reflexivity.
Defined.

(** ** The analytics panel *)

Section AnalyticsFacts.
Import Analytics.










End AnalyticsFacts.


(* ====================================================================== *)
(** * Further properties of the code *)
(* ====================================================================== *)

(* ====================================================================== *)
(** ** Moving through the questions *)
(* ====================================================================== *)

Section NavigationFacts.
Import Types Interview Navigation.

Lemma questions_withResponses (s : Session.t) (responses : list Response.t) :
  Session.questions (withResponses s responses) = Session.questions s.
Proof. reflexivity. Qed.

Lemma pointsAtQuestion_step (RegExp_i : RegExp.engine) (st : State) (c : Call) :
  pointsAtQuestion st -> pointsAtQuestion (step RegExp_i st c).
Proof.
  unfold pointsAtQuestion. intros [H0 H].
  destruct c as [env id createdAt startTime studentInfo jd
                | draws questionId answer duration audioBlob | | now | draws now];
    unfold step; cbn [invoke].
  - cbn. split; [lia | now left].
  - unfold submitResponse.
    destruct (currentSession st) as [s|] eqn:Es; [|rewrite Es; auto].
    destruct (hasRelevantKeywords RegExp_i (Session.jobDescription s) answer);
      [|rewrite Es; auto].
    cbn. auto.
  - unfold nextQuestion.
    destruct (currentSession st) as [s|] eqn:Es; cbn [fst]; [|rewrite Es; auto].
    destruct (Z.ltb_spec (currentQuestionIndex st)
                (Z.of_nat (List.length (Session.questions s)) - 1)) as [Hlt | Hge];
      cbn [fst setCurrentQuestionIndex currentQuestionIndex currentSession];
      rewrite Es.
    + split; [lia | right; lia].
    + auto.
  - unfold stopInterview.
    destruct (currentSession st) as [s|] eqn:Es; cbn; [auto | rewrite Es; auto].
  - unfold completeInterview.
    destruct (currentSession st) as [s|] eqn:Es; cbn; [|rewrite Es; auto].
    destruct (Session.responses s); cbn; [rewrite Es; auto | auto].
Qed.

Lemma pointsAtQuestion_run (RegExp_i : RegExp.engine) (calls : list Call) (st : State) :
  pointsAtQuestion st -> pointsAtQuestion (run RegExp_i st calls).
Proof.
  revert st. induction calls as [|c calls IH]; intros st H; [exact H|].
  cbn. apply IH. now apply pointsAtQuestion_step.
Qed.

Lemma pointsAtQuestion_initial : pointsAtQuestion initial.
Proof. unfold pointsAtQuestion. cbn. split; [lia | reflexivity]. Qed.

Lemma nextQuestion_session (render st : State) :
  currentSession (fst (nextQuestion render st)) = currentSession st.
Proof.
  unfold nextQuestion. destruct (currentSession render) as [s|]; [|reflexivity].
  destruct (_ <? _); reflexivity.
Qed.

Lemma nextQuestion_index (st : State) (s : Session.t) :
  currentSession st = Some s ->
  currentQuestionIndex (fst (nextQuestion st st)) =
  if currentQuestionIndex st <? Z.of_nat (List.length (Session.questions s)) - 1
  then currentQuestionIndex st + 1 else currentQuestionIndex st.
Proof.
  intros Es. unfold nextQuestion. rewrite Es.
  destruct (_ <? _); reflexivity.
Qed.

Lemma nextQuestion_returns (st : State) (s : Session.t) :
  currentSession st = Some s ->
  snd (nextQuestion st st) =
  (currentQuestionIndex st <? Z.of_nat (List.length (Session.questions s)) - 1).
Proof.
  intros Es. unfold nextQuestion. rewrite Es.
  destruct (_ <? _); reflexivity.
Qed.

Lemma advance_session (k : nat) (st : State) :
  currentSession (advance k st) = currentSession st.
Proof.
  revert st. induction k as [|k IH]; intros st; cbn; [reflexivity|].
  now rewrite IH, nextQuestion_session.
Qed.

Lemma advance_index (k : nat) (st : State) (s : Session.t) :
  currentSession st = Some s ->
  currentQuestionIndex st < Z.of_nat (List.length (Session.questions s)) ->
  currentQuestionIndex (advance k st) =
  Z.min (currentQuestionIndex st + Z.of_nat k)
        (Z.of_nat (List.length (Session.questions s)) - 1).
Proof.
  revert st. induction k as [|k IH]; intros st Es Hlt.
  - cbn [advance]. lia.
  - cbn [advance].
    assert (Es' := nextQuestion_session st st). rewrite Es in Es'.
    assert (Hi := nextQuestion_index st s Es).
    destruct (Z.ltb_spec (currentQuestionIndex st)
                (Z.of_nat (List.length (Session.questions s)) - 1)) as [H | H];
      rewrite (IH _ Es') by lia; rewrite Hi; lia.
Qed.




End NavigationFacts.


(** X2.  From a state whose index points at a question, [k] calls of
    [nextQuestion] move the index forward by [k] but never beyond the last
    question, leave the session alone, and the call after them returns true
    exactly when the last question has not been reached. *)
Theorem nextQuestion_stops_at_last_question
        (st : Interview.State) (s : Types.Session.t) (k : nat) :
  Interview.currentSession st = Some s ->
  Interview.currentQuestionIndex st < Z.of_nat (List.length (Types.Session.questions s)) ->
  let last := Z.of_nat (List.length (Types.Session.questions s)) - 1 in
  let st' := Navigation.advance k st in
  Interview.currentQuestionIndex st'
    = Z.min (Interview.currentQuestionIndex st + Z.of_nat k) last /\
  Interview.currentSession st' = Some s /\
  snd (Interview.nextQuestion st' st')
    = (Interview.currentQuestionIndex st + Z.of_nat k <? last).
Proof.
  intros Es Hlt last st'.
  assert (Hs : Interview.currentSession st' = Some s)
    by (unfold st'; now rewrite advance_session).
  assert (Hi := advance_index k st s Es Hlt). fold st' in Hi. fold last in Hi.
  split; [exact Hi|]. split; [exact Hs|].
  rewrite (nextQuestion_returns st' s Hs). fold last. rewrite Hi.
  destruct (Z.ltb_spec (Interview.currentQuestionIndex st + Z.of_nat k) last);
    destruct (Z.ltb_spec (Z.min (Interview.currentQuestionIndex st + Z.of_nat k) last) last);
    try reflexivity; lia.
Qed.

Lemma nextQuestion_stops_at_last_question_witness :
  Interview.currentQuestionIndex (Navigation.advance 7 Samples.started)
    = Z.min (Interview.currentQuestionIndex Samples.started + Z.of_nat 7)
            (Z.of_nat (List.length (Types.Session.questions Samples.fresh)) - 1) /\
  Interview.currentSession (Navigation.advance 7 Samples.started) = Some Samples.fresh /\
  snd (Interview.nextQuestion (Navigation.advance 7 Samples.started)
                              (Navigation.advance 7 Samples.started))
    = (Interview.currentQuestionIndex Samples.started + Z.of_nat 7
       <? Z.of_nat (List.length (Types.Session.questions Samples.fresh)) - 1).
Proof.
  refine (nextQuestion_stops_at_last_question Samples.started Samples.fresh 7 _ _).
  - reflexivity.
  - vm_compute. reflexivity.
Defined.

(** ** Quotients that are exact *)

Section QuotientFacts.
Import JsNumber Binary64.

Lemma div_self (n : Z) : 0 < n < 2 ^ 53 -> div (of_Z n) (of_Z n) = of_Z 1.
Proof.
  intros Hn. unfold div, of_Z.
  rewrite (of_Z_normal n Hn).
  assert (Hm := mant_range n Hn).
  assert (Hpos : Zpos (Z.to_pos (mant n)) = mant n) by (apply Z2Pos.id; lia).
  destruct (mant_scale n Hn) as (a & Ha & _ & He).
  rewrite SFdiv_normal; rewrite ?Hpos; try lia.
  rewrite (Z.mul_comm (mant n) (2 ^ 53)).
  rewrite Z.div_mul, Z.mod_mul by lia.
  rewrite binary_round_aux_54 by lia.
  rewrite new_location_eq. cbn [Z.eqb].
  replace (expo n - expo n - 53 + 1) with (-52) by lia.
  vm_compute. reflexivity.
Qed.

Lemma div_by_zero (n : Z) : 0 < n < 2 ^ 53 -> div (of_Z n) (of_Z 0) = S754_infinity false.
Proof.
  intros Hn. unfold div, of_Z. rewrite (of_Z_normal n Hn). reflexivity.
Qed.

Lemma hundred_percent : mul (of_Z 1) (of_Z 100) = of_Z 100.
Proof. vm_compute. reflexivity. Qed.

End QuotientFacts.

(** X3.  In every state that calls of the hook lead to, each call going
    through the callbacks of the latest render, with a session that has
    questions, [questionsRemaining] lies between 0 and the number of
    questions minus one; it is 0 exactly when [nextQuestion] would return
    false, and then [progress] is exactly 100.  With a session that has no
    questions, [questionsRemaining] is -1 and [progress] is [Infinity]. *)
Theorem remaining_and_progress
        (RegExp_i : RegExp.engine) (calls : list Interview.Call) (s : Types.Session.t) :
  Interview.currentSession (Interview.run RegExp_i Interview.initial calls) = Some s ->
  let st := Interview.run RegExp_i Interview.initial calls in
  let n := Z.of_nat (List.length (Types.Session.questions s)) in
  (Types.Session.questions s <> [] ->
   0 <= Navigation.questionsRemaining st < n /\
   (Navigation.questionsRemaining st = 0 <-> snd (Interview.nextQuestion st st) = false) /\
   (Navigation.questionsRemaining st = 0 -> n < 2 ^ 53 ->
    Navigation.progress st = JsNumber.of_Z 100)) /\
  (Types.Session.questions s = [] ->
   Navigation.questionsRemaining st = -1 /\
   Navigation.progress st = S754_infinity false).
Proof.
  intros Es st n. fold st in Es.
  assert (H : Navigation.pointsAtQuestion st)
    by (apply pointsAtQuestion_run, pointsAtQuestion_initial).
  destruct H as [H0 H]. rewrite Es in H.
  unfold Navigation.questionsRemaining, Navigation.progress. rewrite Es. fold n.
  rewrite (nextQuestion_returns st s Es). fold n.
  split.
  - intros Hq.
    assert (Hn : 0 < n)
      by (unfold n; destruct (Types.Session.questions s); [congruence | cbn; lia]).
    split; [lia|]. split.
    + destruct (Z.ltb_spec (Interview.currentQuestionIndex st) (n - 1)); split;
        intros; try lia; try reflexivity; discriminate.
    + intros Hr Hbig.
      replace (Interview.currentQuestionIndex st + 1) with n by lia.
      rewrite div_self by lia. apply hundred_percent.
  - intros Hq. unfold n in *. rewrite Hq in *. cbn [List.length Z.of_nat] in *.
    assert (Hi : Interview.currentQuestionIndex st = 0) by lia.
    rewrite Hi. split; [reflexivity | vm_compute; reflexivity].
Qed.

Lemma remaining_and_progress_witness :
  let st := Interview.run RegExp.reference_RegExp_i Interview.initial
                          [Samples.start Samples.frontend] in
  let n := Z.of_nat (List.length (Types.Session.questions Samples.fresh)) in
  (Types.Session.questions Samples.fresh <> [] ->
   0 <= Navigation.questionsRemaining st < n /\
   (Navigation.questionsRemaining st = 0 <-> snd (Interview.nextQuestion st st) = false) /\
   (Navigation.questionsRemaining st = 0 -> n < 2 ^ 53 ->
    Navigation.progress st = JsNumber.of_Z 100)) /\
  (Types.Session.questions Samples.fresh = [] ->
   Navigation.questionsRemaining st = -1 /\
   Navigation.progress st = S754_infinity false).
Proof.
  refine (remaining_and_progress RegExp.reference_RegExp_i
            [Samples.start Samples.frontend] Samples.fresh _).
  reflexivity.
Defined.

(* ====================================================================== *)
(** ** The stored interviews *)
(* ====================================================================== *)

Section StorageFacts.
Import Types Interview Storage.

Lemma buildResult_responses (draws : CompletionDraws) (now startTime : Z) (s : Session.t) :
  Result.responses (buildResult draws now startTime s) = Session.responses s.
Proof. reflexivity. Qed.

Lemma buildResult_duration (draws : CompletionDraws) (now startTime : Z) (s : Session.t) :
  Result.interviewDuration (buildResult draws now startTime s)
  = elapsedSeconds now startTime.
Proof. reflexivity. Qed.

Lemma stored_invoke (RegExp_i : RegExp.engine) (render st : State) (c : Call) :
  interviews (invoke RegExp_i render st c) = interviews st \/
  (isComplete c = true /\
   exists s, interviews (invoke RegExp_i render st c) = interviews st ++ [s] /\
             currentSession (invoke RegExp_i render st c) = Some s /\
             storedCompleted s).
Proof.
  destruct c as [env id createdAt startTime studentInfo jd
                | draws questionId answer duration audioBlob | | now | draws now];
    cbn [invoke].
  - left. reflexivity.
  - left. unfold submitResponse.
    destruct (currentSession render) as [s|]; [|reflexivity].
    destruct (hasRelevantKeywords RegExp_i (Session.jobDescription s) answer);
      reflexivity.
  - left. unfold nextQuestion.
    destruct (currentSession render) as [s|]; [|reflexivity].
    destruct (_ <? _); reflexivity.
  - left. unfold stopInterview.
    destruct (currentSession render) as [s|]; reflexivity.
  - unfold completeInterview.
    destruct (currentSession render) as [s|]; [|now left].
    destruct (Session.responses s) as [|r rs] eqn:Er; [now left|].
    right. split; [reflexivity|].
    eexists. cbn [fst interviews currentSession]. split; [reflexivity|].
    split; [reflexivity|].
    unfold storedCompleted. cbn [Session.status Session.responses Session.result
                                 Session.duration].
    split; [reflexivity|]. split; [discriminate|].
    eexists. split; [reflexivity|].
    split; [rewrite buildResult_responses; exact Er | reflexivity].
Qed.

Lemma completions_latest (calls : list Call) :
  completions (List.map made (List.map (through 0) calls)) = completions calls.
Proof. rewrite List.map_map. cbn [made]. now rewrite List.map_id. Qed.

End StorageFacts.

(** X4.  Through any calls of the hook, whichever renders their callbacks
    come from, the [interviews] entry only grows at its end: nothing stored
    is removed or rewritten.  At most one session is added for each call of
    [completeInterview] and none by the other callbacks; every session
    added has the status 'completed', at least one response, and a result
    computed from exactly its responses, whose duration is the session's.
    So it is in particular in every run of calls through the callbacks of
    the latest render. *)
Theorem only_completed_sessions_are_stored (RegExp_i : RegExp.engine) :
  (forall (renders : list Interview.State) (invocations : list Interview.Invocation),
     exists added,
       Interview.interviews
         (Interview.latest (Interview.replay RegExp_i renders invocations))
       = Interview.interviews (Interview.latest renders) ++ added /\
       Forall Storage.storedCompleted added /\
       (List.length added
        <= Storage.completions (List.map Interview.made invocations))%nat) /\
  (forall (st : Interview.State) (calls : list Interview.Call),
     exists added,
       Interview.interviews (Interview.run RegExp_i st calls)
       = Interview.interviews st ++ added /\
       Forall Storage.storedCompleted added /\
       (List.length added <= Storage.completions calls)%nat).
Proof.
  assert (G : forall invocations renders,
             exists added,
               Interview.interviews
                 (Interview.latest (Interview.replay RegExp_i renders invocations))
               = Interview.interviews (Interview.latest renders) ++ added /\
               Forall Storage.storedCompleted added /\
               (List.length added
                <= Storage.completions (List.map Interview.made invocations))%nat).
  { induction invocations as [|i invocations IH]; intros renders.
    - exists []. cbn. rewrite app_nil_r. repeat split; [constructor | lia].
    - cbn [Interview.replay fold_left].
      destruct (IH (Interview.invokeThrough RegExp_i renders i))
        as (added & Hi & Ha & Hn).
      fold (Interview.replay RegExp_i (Interview.invokeThrough RegExp_i renders i)
                             invocations).
      unfold Storage.completions in *. cbn [List.map filter].
      unfold Interview.invokeThrough at 2 in Hi. cbn [Interview.latest hd] in Hi.
      fold (Interview.latest renders) in Hi.
      destruct (stored_invoke RegExp_i
                  (nth (Interview.age i) renders (Interview.latest renders))
                  (Interview.latest renders) (Interview.made i))
        as [Hs | (Hc & s & Hs & _ & Hst)].
      + exists added. rewrite Hs in Hi. split; [exact Hi|]. split; [exact Ha|].
        destruct (Interview.isComplete (Interview.made i)); cbn [List.length]; lia.
      + exists (s :: added). rewrite Hs, <- app_assoc in Hi.
        split; [exact Hi|]. split; [now constructor|].
        rewrite Hc. cbn [List.length]. lia. }
  split; [intros renders invocations; apply G|].
  intros st calls.
  destruct (G (List.map (Interview.through 0) calls) [st]) as (added & Hi & Ha & Hn).
  rewrite replay_latest, completions_latest in *. exists added. auto.
Qed.

(* ====================================================================== *)
(** ** Identifiers of the questions *)
(* ====================================================================== *)

Section IdentifierFacts.
Import Types JsString Questions Identifiers.
Open Scope string_scope.

Lemma string_of_uint_digits (d : Decimal.uint) :
  forallb isDigit (DecimalString.NilEmpty.string_of_uint d) = true.
Proof. induction d; cbn; auto. Qed.

Lemma show_nat_digits (n : nat) : forallb isDigit (show_nat n) = true.
Proof.
  unfold show_nat, DecimalString.NilZero.string_of_uint.
  destruct (Nat.to_uint n); try apply string_of_uint_digits. reflexivity.
Qed.

Lemma digit_not_hyphen (c : ascii) : isDigit c = true -> negb (Ascii.eqb c "-") = true.
Proof. destruct c as [[] [] [] [] [] [] [] []]; cbn; congruence. Qed.

Lemma forallb_impl (p q : ascii -> bool) (s : string) :
  (forall c, p c = true -> q c = true) -> forallb p s = true -> forallb q s = true.
Proof.
  intros H. induction s as [|c s IH]; cbn; [reflexivity|].
  intros Hs. apply andb_true_iff in Hs as [Hc Hs]. now rewrite (H c Hc), IH.
Qed.

Lemma show_nat_hyphenFree (n : nat) : hyphenFree (show_nat n) = true.
Proof.
  unfold hyphenFree. eapply forallb_impl; [apply digit_not_hyphen | apply show_nat_digits].
Qed.

Lemma to_uint_not_Nil (n : nat) : Nat.to_uint n <> Decimal.Nil.
Proof.
  intros E. assert (H := DecimalNat.Unsigned.to_of (Nat.to_uint n)).
  rewrite DecimalNat.Unsigned.of_to, E in H. discriminate.
Qed.

Lemma show_nat_inj (n m : nat) : show_nat n = show_nat m -> n = m.
Proof.
  unfold show_nat. intros H.
  apply DecimalNat.Unsigned.to_uint_inj.
  apply (f_equal DecimalString.NilZero.uint_of_string) in H.
  rewrite !DecimalString.NilZero.usu in H by apply to_uint_not_Nil.
  now injection H.
Qed.

Lemma hyphenFree_no_hyphen (a b : string) : hyphenFree (a ++ String "-" b) = false.
Proof.
  unfold hyphenFree. rewrite forallb_append. cbn. apply andb_false_r.
Qed.

(** A hyphen followed by a hyphen-free tail: the tail is what follows the
    last hyphen, whatever precedes. *)
Lemma after_last_hyphen (a b d1 d2 : string) :
  hyphenFree d1 = true -> hyphenFree d2 = true ->
  a ++ String "-" d1 = b ++ String "-" d2 -> d1 = d2.
Proof.
  intros H1 H2. revert b. induction a as [|c a IH]; intros [|c' b] H; cbn in H.
  - now injection H.
  - injection H as _ H. rewrite H, hyphenFree_no_hyphen in H1. discriminate.
  - injection H as _ H. rewrite <- H, hyphenFree_no_hyphen in H2. discriminate.
  - injection H as _ H. now apply (IH b).
Qed.

Lemma In_mapi_from {A B : Type} (f : A -> nat -> B) (i : nat) (l : list A) (y : B) :
  In y (mapi_from f i l) ->
  exists x j, (i <= j)%nat /\ y = f x j.
Proof.
  revert i. induction l as [|x l IH]; intros i; cbn; [tauto|].
  intros [<- | H].
  - exists x, i. split; [lia | reflexivity].
  - destruct (IH _ H) as (x' & j & Hj & ->). exists x', j. split; [lia | reflexivity].
Qed.

(** Identifiers that end in the position are pairwise distinct. *)
Lemma mapi_from_NoDup {A : Type} (f : A -> nat -> Question.t) (i : nat) (l : list A) :
  (forall x y j k, Question.id (f x j) = Question.id (f y k) -> j = k) ->
  NoDup (ids (mapi_from f i l)).
Proof.
  intros Hinj. revert i. induction l as [|x l IH]; intros i; cbn; [constructor|].
  constructor; [|apply IH].
  intros Hin. unfold ids in Hin. apply in_map_iff in Hin as (q & Hq & Hin).
  apply In_mapi_from in Hin as (y & j & Hj & ->).
  apply Hinj in Hq. lia.
Qed.

Lemma fallback_ids_distinct (jd : JobDescription.t) :
  NoDup (ids (generateFallbackQuestions jd)).
Proof.
  unfold generateFallbackQuestions, mapi. apply mapi_from_NoDup.
  intros x y j k H. cbn in H.
  apply show_nat_inj.
  apply (after_last_hyphen "fallback" "fallback");
    [apply show_nat_hyphenFree | apply show_nat_hyphenFree | exact H].
Qed.

Lemma stamped_ids_distinct (a b : string) (j k : nat) :
  "q-" ++ a ++ "-" ++ show_nat j = "q-" ++ b ++ "-" ++ show_nat k -> j = k.
Proof.
  intros H. apply show_nat_inj.
  apply (after_last_hyphen ("q-" ++ a) ("q-" ++ b));
    [apply show_nat_hyphenFree | apply show_nat_hyphenFree |].
  rewrite !append_assoc. exact H.
Qed.

Lemma backend_ids_distinct (env : Env) (jd : JobDescription.t) :
  NoDup (ids (generateQuestionsFromBackend env jd)).
Proof.
  unfold generateQuestionsFromBackend, fromBackend.
  destruct (storageReadable env); [|apply fallback_ids_distinct].
  destruct (Network.delivered (reply env)) as [texts|]; [|apply fallback_ids_distinct].
  unfold mapi. apply mapi_from_NoDup.
  intros x y j k H. cbn [Question.id] in H. now apply stamped_ids_distinct in H.
Qed.

End IdentifierFacts.

Section SessionQuestionFacts.
Import Types Interview Identifiers.

Lemma session_ids_invoke (RegExp_i : RegExp.engine) (render st : State) (c : Call) :
  (forall s, currentSession render = Some s -> NoDup (ids (Session.questions s))) ->
  (forall s, currentSession st = Some s -> NoDup (ids (Session.questions s))) ->
  forall s, currentSession (invoke RegExp_i render st c) = Some s ->
            NoDup (ids (Session.questions s)).
Proof.
  intros Hr H s.
  destruct c as [env id createdAt startTime studentInfo jd
                | draws questionId answer duration audioBlob | | now | draws now];
    cbn [invoke].
  - cbn. intros [= <-]. cbn. apply backend_ids_distinct.
  - unfold submitResponse.
    destruct (currentSession render) as [s0|] eqn:Es; [|apply H].
    destruct (hasRelevantKeywords RegExp_i (Session.jobDescription s0) answer).
    + cbn. intros [= <-]. cbn. now apply Hr.
    + apply H.
  - rewrite nextQuestion_session. apply H.
  - unfold stopInterview.
    destruct (currentSession render) as [s0|] eqn:Es; cbn; [|apply H].
    intros [= <-]. cbn. now apply Hr.
  - unfold completeInterview.
    destruct (currentSession render) as [s0|] eqn:Es; cbn; [|apply H].
    destruct (Session.responses s0); cbn.
    + apply H.
    + intros [= <-]. cbn. now apply Hr.
Qed.

Lemma session_ids_run (RegExp_i : RegExp.engine) (calls : list Call) (st : State) :
  (forall s, currentSession st = Some s -> NoDup (ids (Session.questions s))) ->
  forall s, currentSession (run RegExp_i st calls) = Some s ->
            NoDup (ids (Session.questions s)).
Proof.
  revert st. induction calls as [|c calls IH]; intros st H; [exact H|].
  cbn. apply IH. now apply session_ids_invoke.
Qed.

End SessionQuestionFacts.

(** X5.  The questions of a session have pairwise distinct identifiers,
    whether they come from the backend ([q-<clock>-<index>], whatever the
    clock reads) or from the fallback table ([fallback-<index>]): so it is
    in every state that calls of the hook lead to, whichever renders their
    callbacks come from, and for every list that [generateQuestions] of
    [useGeneratedQuestions] builds. *)
Theorem question_ids_are_distinct
        (RegExp_i : RegExp.engine) (calls : list Interview.Call)
        (invocations : list Interview.Invocation) :
  (forall env jd,
     NoDup (Identifiers.ids (Questions.generateQuestionsFromBackend env jd))) /\
  (forall now texts,
     NoDup (Identifiers.ids (GeneratedQuestions.generated now texts))) /\
  (forall s,
     Interview.currentSession (Interview.run RegExp_i Interview.initial calls) = Some s ->
     NoDup (Identifiers.ids (Types.Session.questions s))) /\
  Forall (fun st => forall s, Interview.currentSession st = Some s ->
                              NoDup (Identifiers.ids (Types.Session.questions s)))
         (Interview.replay RegExp_i Interview.mounted invocations).
Proof.
  split; [apply backend_ids_distinct|]. split; [|split].
  - intros now texts. unfold GeneratedQuestions.generated, Questions.mapi.
    apply mapi_from_NoDup.
    intros x y j k H. cbn [Types.Question.id] in H. now apply stamped_ids_distinct in H.
  - apply session_ids_run. discriminate.
  - apply (replay_invariant RegExp_i
             (fun st => forall s, Interview.currentSession st = Some s ->
                                  NoDup (Identifiers.ids (Types.Session.questions s)))).
    + intros render st c. apply session_ids_invoke.
    + discriminate.
    + constructor; [discriminate | constructor].
Qed.

(* ====================================================================== *)
(** ** Questions delivered by the backend *)
(* ====================================================================== *)

Section TrimFacts.
Import JsString Identifiers.
Open Scope string_scope.

Lemma trimStart_spec (s : string) :
  exists before,
    s = before ++ trimStart s /\ forallb isSpace before = true /\
    startsWithSpace (trimStart s) = false.
Proof.
  induction s as [|c s (before & Hs & Hb & Ht)].
  - exists EmptyString. repeat split.
  - cbn [trimStart]. destruct (isSpace c) eqn:Ec.
    + exists (String c before). cbn. rewrite Ec, Hb, <- Hs. repeat split. exact Ht.
    + exists EmptyString. cbn. rewrite Ec. repeat split.
Qed.

Lemma trimEnd_spec (s : string) :
  exists after,
    s = trimEnd s ++ after /\ forallb isSpace after = true /\
    endsWithSpace (trimEnd s) = false /\
    (startsWithSpace s = false -> startsWithSpace (trimEnd s) = false).
Proof.
  induction s as [|c s (after & Hs & Ha & He & _)].
  - exists EmptyString. repeat split.
  - cbn [trimEnd]. destruct (trimEnd s) as [|d t] eqn:Et.
    + cbn [append] in Hs. subst after. destruct (isSpace c) eqn:Ec.
      * exists (String c s). cbn. rewrite Ec, Ha. repeat split.
      * exists s. cbn. rewrite Ec. repeat split. exact Ha.
    + exists after. cbn [append] in Hs |- *. rewrite <- Hs. repeat split; auto.
Qed.

Lemma trim_trimmedFrom (s : string) : trimmedFrom s (trim s).
Proof.
  unfold trimmedFrom, trim.
  destruct (trimStart_spec s) as (before & Hs & Hb & Ht).
  destruct (trimEnd_spec (trimStart s)) as (after & Hs' & Ha & He & Hst).
  split; [|split; [now apply Hst | exact He]].
  exists before, after. repeat split; try assumption.
  rewrite <- Hs'. exact Hs.
Qed.

End TrimFacts.

Section DeliveredFacts.
Import Types Network Questions Identifiers.

Lemma mapi_from_Forall {A B : Type} (f : A -> nat -> B) (P : B -> Prop) (i : nat)
      (l : list A) :
  (forall x j, P (f x j)) -> Forall P (mapi_from f i l).
Proof.
  intros H. revert i. induction l as [|x l IH]; intros i; cbn; constructor; auto.
Qed.

Lemma fromBackend_delivered (env : Env) (jd : JobDescription.t) (texts : list string) :
  storageReadable env = true -> delivered (reply env) = Some texts ->
  generateQuestionsFromBackend env jd =
  mapi (fun text index =>
          Question.mk ("q-" ++ show_Z (now env index) ++ "-" ++ show_nat index)%string
                      (JsString.trim text) (questionType jd) 120
                      (difficultyOf jd) "general"%string (categoryOf jd))
       texts.
Proof.
  intros Hs Hd. unfold generateQuestionsFromBackend, fromBackend. now rewrite Hs, Hd.
Qed.

End DeliveredFacts.

(** X6.  When the local storage is readable and the endpoint delivers a list
    of texts, [generateQuestionsFromBackend] returns one question for each
    text, in the order delivered: its text is the delivered text without the
    white space at its two ends (nothing else is removed), its type is the
    type of the job description and its time limit 120.  The fallback table
    is not consulted: an empty list delivered gives an interview without
    questions. *)
Theorem delivered_questions_are_kept
        (env : Questions.Env) (jd : Types.JobDescription.t) (texts : list string) :
  Questions.storageReadable env = true ->
  Network.delivered (Questions.reply env) = Some texts ->
  let questions := Questions.generateQuestionsFromBackend env jd in
  List.map Types.Question.text questions = List.map JsString.trim texts /\
  Forall2 Identifiers.trimmedFrom texts (List.map Types.Question.text questions) /\
  Forall (fun q => Types.Question.type q = Types.JobDescription.type jd /\
                   Types.Question.timeLimit q = 120) questions /\
  (questions = [] <-> texts = []).
Proof.
  intros Hs Hd questions. unfold questions.
  rewrite (fromBackend_delivered env jd texts Hs Hd). unfold Questions.mapi.
  assert (Ht : List.map Types.Question.text
                 (Questions.mapi_from
                    (fun text index =>
                       Types.Question.mk
                         ("q-" ++ Types.show_Z (Questions.now env index) ++ "-"
                          ++ Types.show_nat index)%string
                         (JsString.trim text) (Questions.questionType jd) 120
                         (Questions.difficultyOf jd) "general"%string
                         (Questions.categoryOf jd)) 0 texts)
               = List.map JsString.trim texts)
    by (apply mapi_from_map; reflexivity).
  split; [exact Ht|]. split; [|split].
  - rewrite Ht. clear. induction texts as [|t texts IH]; cbn; constructor;
      [apply trim_trimmedFrom | exact IH].
  - apply mapi_from_Forall. intros x j. cbn. split; [|reflexivity].
    unfold Questions.questionType. now destruct (Types.JobDescription.type jd).
  - destruct texts; cbn; split; intros H; try reflexivity; discriminate.
Qed.

Lemma delivered_questions_are_kept_witness :
  let questions := Questions.generateQuestionsFromBackend Scenarios.online Samples.frontend in
  List.map Types.Question.text questions
  = List.map JsString.trim ["  What is a React hook? "; "Tell me about closures."]%string /\
  Forall2 Identifiers.trimmedFrom
          ["  What is a React hook? "; "Tell me about closures."]%string
          (List.map Types.Question.text questions) /\
  Forall (fun q => Types.Question.type q = Types.JobDescription.type Samples.frontend /\
                   Types.Question.timeLimit q = 120) questions /\
  (questions = [] <-> ["  What is a React hook? "; "Tell me about closures."]%string = []).
Proof.
  refine (delivered_questions_are_kept Scenarios.online Samples.frontend
            ["  What is a React hook? "; "Tell me about closures."]%string _ _);
    reflexivity.
Defined.

(** X7.  Whatever [Math.random()] returns, the index computed for the
    emotional tone, the floor of the binary64 product of the draw and 5,
    lies within the table: the response that [submitResponse] builds
    carries one of the five tones, never an undefined one. *)
Theorem response_carries_one_of_the_tones
        (draws : Interview.Draws) (relevant : bool) (questionId answer : string)
        (duration : Q) (audioBlob : option Types.Blob) :
  0 <= Interview.randomBelow 5 (Interview.toneDraw draws) < 5 /\
  exists tone,
    Types.Response.emotionalTone
      (Interview.buildResponse draws relevant questionId answer duration audioBlob)
    = Some tone /\
    nth_error Interview.emotionalTones
              (Z.to_nat (Interview.randomBelow 5 (Interview.toneDraw draws)))
    = Some tone /\
    In tone Interview.emotionalTones.
Proof.
  assert (H := randomBelow_range 5 (Interview.toneDraw draws) ltac:(cbn; lia)).
  split; [exact H|].
  cbn [Interview.buildResponse Types.Response.emotionalTone].
  unfold Interview.pickTone.
  change (Z.of_nat (List.length Interview.emotionalTones)) with 5.
  destruct (Z.ltb_spec (Interview.randomBelow 5 (Interview.toneDraw draws)) 0)
    as [Hneg | _]; [lia|].
  destruct (nth_error Interview.emotionalTones
              (Z.to_nat (Interview.randomBelow 5 (Interview.toneDraw draws))))
    as [tone|] eqn:E.
  - exists tone. split; [reflexivity|]. split; [reflexivity|].
    now apply nth_error_In in E.
  - apply nth_error_None in E. cbn [Interview.emotionalTones List.length] in E. lia.
Qed.

(* ====================================================================== *)
(** ** The patterns of [submitResponse] *)
(* ====================================================================== *)

Section LanguageFacts.
Import JsString RegExp Language.
Open Scope string_scope.

Variable ignoreCase : bool.

Lemma Matches_Empty_inv (w : string) : Matches ignoreCase Empty w -> w = EmptyString.
Proof. now inversion 1. Qed.

Lemma Matches_Never_inv (w : string) : ~ Matches ignoreCase Never w.
Proof. inversion 1. Qed.

Lemma Matches_Seq_inv (r1 r2 : regex) (w : string) :
  Matches ignoreCase (Seq r1 r2) w ->
  exists w1 w2, w = w1 ++ w2 /\ Matches ignoreCase r1 w1 /\ Matches ignoreCase r2 w2.
Proof. inversion 1; subst. eauto. Qed.

Lemma Matches_Alt_inv (r1 r2 : regex) (w : string) :
  Matches ignoreCase (Alt r1 r2) w -> Matches ignoreCase r1 w \/ Matches ignoreCase r2 w.
Proof. inversion 1; subst; auto. Qed.

Lemma append_eq_nil (a b : string) : a ++ b = EmptyString -> a = EmptyString /\ b = EmptyString.
Proof. destruct a; cbn; [auto | discriminate]. Qed.

(** A non-empty match of a repetition starts with a non-empty match of the
    repeated pattern. *)
Lemma Matches_Star_cons (r : regex) (c : ascii) (w : string) :
  Matches ignoreCase (Star r) (String c w) ->
  exists w1 w2,
    w = w1 ++ w2 /\ Matches ignoreCase r (String c w1) /\ Matches ignoreCase (Star r) w2.
Proof.
  intros H. remember (Star r) as sr eqn:Er. remember (String c w) as cw eqn:Ew.
  revert c w Ew.
  induction H as [ | | | | | | | r' | r' w1 w2 H1 _ H2 IH2]; try discriminate.
  intros c w Ew. injection Er as ->.
  destruct w1 as [|d w1].
  - cbn in Ew. now apply IH2.
  - cbn in Ew. injection Ew as -> <-. exists w1, w2. auto.
Qed.

Lemma nullable_Matches (r : regex) :
  nullable r = true <-> Matches ignoreCase r EmptyString.
Proof.
  induction r as [ | | p | | | r1 IH1 r2 IH2 | r1 IH1 r2 IH2 | r IH]; cbn.
  - split; [discriminate | inversion 1].
  - split; [constructor | reflexivity].
  - split; [discriminate | inversion 1].
  - split; [discriminate | inversion 1].
  - split; [discriminate | inversion 1].
  - rewrite orb_true_iff, IH1, IH2. split.
    + intros [H | H]; [now apply MatchesLeft | now apply MatchesRight].
    + apply Matches_Alt_inv.
  - rewrite andb_true_iff, IH1, IH2. split.
    + intros [H1 H2]. now apply (MatchesSeq ignoreCase r1 r2 EmptyString EmptyString).
    + intros H. apply Matches_Seq_inv in H as (w1 & w2 & Hw & H1 & H2).
      symmetry in Hw. apply append_eq_nil in Hw as [-> ->]. auto.
  - split; [constructor | reflexivity].
Qed.

Lemma Matches_of_bool (b : bool) (w : string) :
  Matches ignoreCase (of_bool b) w <-> b = true /\ w = EmptyString.
Proof.
  destruct b; cbn; split.
  - intros H. now apply Matches_Empty_inv in H.
  - intros [_ ->]. constructor.
  - intros H. now apply Matches_Never_inv in H.
  - intros [H _]. discriminate.
Qed.

Lemma deriv_Matches (c : ascii) (r : regex) (w : string) :
  Matches ignoreCase (deriv ignoreCase c r) w <-> Matches ignoreCase r (String c w).
Proof.
  revert w.
  induction r as [ | | p | | | r1 IH1 r2 IH2 | r1 IH1 r2 IH2 | r IH]; intros w;
    cbn [deriv].
  - split; inversion 1.
  - split; inversion 1.
  - rewrite Matches_of_bool. split.
    + intros [H ->]. now constructor.
    + inversion 1; subst. auto.
  - rewrite Matches_of_bool. split.
    + intros [H ->]. now constructor.
    + inversion 1; subst. auto.
  - rewrite Matches_of_bool. split.
    + intros [H ->]. apply negb_true_iff in H. now constructor.
    + inversion 1; subst. split; [now apply negb_true_iff | reflexivity].
  - split.
    + intros H. apply Matches_Alt_inv in H as [H | H].
      * apply MatchesLeft. now apply IH1.
      * apply MatchesRight. now apply IH2.
    + intros H. apply Matches_Alt_inv in H as [H | H].
      * apply MatchesLeft. now apply IH1.
      * apply MatchesRight. now apply IH2.
  - assert (Hfirst : forall w1 w2,
               Matches ignoreCase r1 (String c w1) -> Matches ignoreCase r2 w2 ->
               Matches ignoreCase (Seq r1 r2) (String c (w1 ++ w2))).
    { intros w1 w2 H1 H2.
      apply (MatchesSeq ignoreCase r1 r2 (String c w1) w2 H1 H2). }
    assert (Hsplit : Matches ignoreCase (Seq r1 r2) (String c w) ->
               (exists w1 w2, w = w1 ++ w2 /\ Matches ignoreCase r1 (String c w1) /\
                              Matches ignoreCase r2 w2) \/
               (Matches ignoreCase r1 EmptyString /\ Matches ignoreCase r2 (String c w))).
    { intros H. apply Matches_Seq_inv in H as (w1 & w2 & Hw & H1 & H2).
      destruct w1 as [|d w1]; cbn in Hw.
      - right. subst w2. auto.
      - injection Hw as -> ->. left. eauto. }
    destruct (nullable r1) eqn:En.
    + split.
      * intros H. apply Matches_Alt_inv in H as [H | H].
        -- apply Matches_Seq_inv in H as (w1 & w2 & -> & H1 & H2).
           apply Hfirst; [now apply IH1 | exact H2].
        -- apply (MatchesSeq ignoreCase r1 r2 EmptyString (String c w)).
           ++ now apply nullable_Matches.
           ++ now apply IH2.
      * intros H. apply Hsplit in H as [(w1 & w2 & -> & H1 & H2) | [_ H2]].
        -- apply MatchesLeft. apply MatchesSeq; [now apply IH1 | exact H2].
        -- apply MatchesRight. now apply IH2.
    + split.
      * intros H. apply Matches_Seq_inv in H as (w1 & w2 & -> & H1 & H2).
        apply Hfirst; [now apply IH1 | exact H2].
      * intros H. apply Hsplit in H as [(w1 & w2 & -> & H1 & H2) | [H1 _]].
        -- apply MatchesSeq; [now apply IH1 | exact H2].
        -- apply nullable_Matches in H1. congruence.
  - split.
    + intros H. apply Matches_Seq_inv in H as (w1 & w2 & -> & H1 & H2).
      apply (MatchesMore ignoreCase r (String c w1) w2); [now apply IH | exact H2].
    + intros H. apply Matches_Star_cons in H as (w1 & w2 & -> & H1 & H2).
      apply MatchesSeq; [now apply IH | exact H2].
Qed.

(** [matches_at_start] finds the matches that start the string. *)
Lemma matches_at_start_spec (r : regex) (s : string) :
  matches_at_start ignoreCase r s = true <->
  exists w rest, s = w ++ rest /\ Matches ignoreCase r w.
Proof.
  revert r. induction s as [|c s IH]; intros r; cbn [matches_at_start].
  - rewrite orb_false_r, nullable_Matches. split.
    + intros H. exists EmptyString, EmptyString. auto.
    + intros (w & rest & Hw & H). symmetry in Hw.
      apply append_eq_nil in Hw as [-> _]. exact H.
  - rewrite orb_true_iff, nullable_Matches, IH. split.
    + intros [H | (w & rest & -> & H)].
      * exists EmptyString, (String c s). auto.
      * exists (String c w), rest. split; [reflexivity | now apply deriv_Matches].
    + intros (w & rest & Hw & H). destruct w as [|d w].
      * now left.
      * cbn in Hw. injection Hw as -> ->. right. exists w, rest.
        split; [reflexivity | now apply deriv_Matches].
Qed.

(** [test] finds the matches anywhere in the string. *)
Lemma test_spec (r : regex) (s : string) :
  test ignoreCase r s = true <->
  exists w, Matches ignoreCase r w /\ occursIn w s.
Proof.
  unfold occursIn. induction s as [|c s IH]; cbn [test].
  - rewrite orb_false_r, matches_at_start_spec. split.
    + intros (w & rest & Hw & H). exists w. split; [exact H|].
      exists EmptyString, rest. exact Hw.
    + intros (w & H & before & after & Hw). symmetry in Hw.
      apply append_eq_nil in Hw as [-> Hw]. apply append_eq_nil in Hw as [-> ->].
      exists EmptyString, EmptyString. auto.
  - rewrite orb_true_iff, matches_at_start_spec, IH. split.
    + intros [(w & rest & Hw & H) | (w & H & before & after & ->)].
      * exists w. split; [exact H|]. exists EmptyString, rest. exact Hw.
      * exists w. split; [exact H|]. exists (String c before), after. reflexivity.
    + intros (w & H & before & after & Hw). destruct before as [|d before].
      * left. exists w, after. auto.
      * cbn in Hw. injection Hw as -> ->. right. exists w. split; [exact H|].
        exists before, after. reflexivity.
Qed.

Lemma Matches_alts (rs : list regex) (w : string) :
  Matches ignoreCase (alts rs) w <-> exists r, In r rs /\ Matches ignoreCase r w.
Proof.
  induction rs as [|r rs IH].
  - cbn. split; [inversion 1 | intros (r & [] & _)].
  - destruct rs as [|r' rs].
    + cbn. split.
      * intros H. exists r. auto.
      * intros (r0 & [<- | []] & H). exact H.
    + change (alts (r :: r' :: rs)) with (Alt r (alts (r' :: rs))). split.
      * intros H. apply Matches_Alt_inv in H as [H | H].
        -- exists r. split; [now left | exact H].
        -- apply IH in H as (r0 & Hin & H). exists r0. split; [now right | exact H].
      * intros (r0 & [<- | Hin] & H).
        -- now apply MatchesLeft.
        -- apply MatchesRight. apply IH. eauto.
Qed.

End LanguageFacts.

Section IgnoreCaseFacts.
Import JsString RegExp Language.
Open Scope string_scope.

Lemma Matches_lit (word w : string) :
  Matches true (lit word) w <-> sameIgnoringCase word w.
Proof.
  unfold sameIgnoringCase. revert w. induction word as [|p word IH]; intros w; cbn [lit].
  - split.
    + intros H. apply Matches_Empty_inv in H. now subst.
    + destruct w; cbn; [constructor | discriminate].
  - split.
    + intros H. apply Matches_Seq_inv in H as (w1 & w2 & -> & H1 & H2).
      inversion H1; subst. cbn. apply IH in H2. rewrite H2.
      match goal with H : chr_matches true _ _ = true |- _ =>
        cbn in H; apply Ascii.eqb_eq in H; now rewrite H end.
    + destruct w as [|c w]; cbn; [discriminate|]. intros [= Hc Hw].
      apply (MatchesSeq true (Chr p) (lit word) (String c EmptyString) w).
      * constructor. cbn. rewrite Hc. apply Ascii.eqb_refl.
      * now apply IH.
Qed.

Lemma Matches_lits (words : list string) (w : string) :
  (exists r, In r (List.map lit words) /\ Matches true r w) <->
  exists word, In word words /\ sameIgnoringCase word w.
Proof.
  split.
  - intros (r & Hin & H). apply in_map_iff in Hin as (word & <- & Hin).
    exists word. split; [exact Hin | now apply Matches_lit].
  - intros (word & Hin & H). exists (lit word).
    split; [now apply in_map | now apply Matches_lit].
Qed.

End IgnoreCaseFacts.

(** X8.  [hasSpecificExamples] holds of an answer exactly when the answer
    contains, in whatever case, one of the words 'example', 'instance',
    'time when', 'experience', 'project', 'situation'. *)
Theorem specific_examples_are_the_six_words (answer : string) :
  Interview.hasSpecificExamples answer = true <->
  exists word,
    In word ["example"; "instance"; "time when"; "experience"; "project";
             "situation"]%string /\
    Language.containsIgnoringCase word answer.
Proof.
  unfold Interview.hasSpecificExamples, Interview.specificExamples,
         Language.containsIgnoringCase.
  rewrite test_spec. split.
  - intros (w & H & Hocc). apply Matches_alts in H.
    apply (Matches_lits ["example"; "instance"; "time when"; "experience"; "project";
                         "situation"]%string) in H as (word & Hin & Hw).
    exists word. split; [exact Hin|]. exists w. auto.
  - intros (word & Hin & w & Hw & Hocc). exists w. split; [|exact Hocc].
    apply Matches_alts.
    apply (Matches_lits ["example"; "instance"; "time when"; "experience"; "project";
                         "situation"]%string).
    exists word. auto.
Qed.

Section QuantifiedFacts.
Import JsString RegExp Language.
Open Scope string_scope.

Lemma occursIn_inside (a w b s : string) : occursIn (a ++ w ++ b) s -> occursIn w s.
Proof.
  intros (before & after & ->). exists (before ++ a), (b ++ after).
  now rewrite !append_assoc.
Qed.

Lemma Matches_digits (w : string) :
  Matches true (Star Digit) w -> forallb isDigit w = true.
Proof.
  intros H. remember (Star Digit) as r eqn:Er.
  induction H as [ | | | | | | | r' | r' w1 w2 H1 _ H2 IH2]; try discriminate.
  - reflexivity.
  - injection Er as ->. inversion H1; subst. cbn.
    match goal with H : isDigit _ = true |- _ => rewrite H end.
    now apply IH2.
Qed.

Lemma last_char (p : ascii -> bool) (c : ascii) (s : string) :
  forallb p (String c s) = true ->
  exists s' d, String c s = s' ++ String d EmptyString /\ p d = true.
Proof.
  revert c. induction s as [|c' s IH]; intros c H.
  - exists EmptyString, c. cbn in H. rewrite andb_true_r in H. auto.
  - cbn [forallb] in H. apply andb_true_iff in H as [_ H].
    destruct (IH c' H) as (s' & d & -> & Hd).
    exists (String c s'), d. auto.
Qed.

(** A run of digits ends with a digit. *)
Lemma Matches_Plus_Digit (w : string) :
  Matches true (Plus Digit) w ->
  exists w' d, w = w' ++ String d EmptyString /\ isDigit d = true.
Proof.
  unfold Plus. intros H. apply Matches_Seq_inv in H as (w1 & w2 & -> & H1 & H2).
  inversion H1; subst. apply Matches_digits in H2.
  apply (last_char isDigit). cbn.
  match goal with H : isDigit _ = true |- _ => now rewrite H end.
Qed.

Lemma Plus_Digit_one (d : ascii) :
  isDigit d = true -> Matches true (Plus Digit) (String d EmptyString).
Proof.
  intros H. unfold Plus.
  apply (MatchesSeq true Digit (Star Digit) (String d EmptyString) EmptyString).
  - now constructor.
  - constructor.
Qed.

(** A dollar sign has no other case. *)
Lemma matches_dollar (c : ascii) : chr_matches true "$" c = true -> c = "$"%char.
Proof.
  destruct c as [[] [] [] [] [] [] [] []]; cbn; intros H; try discriminate; reflexivity.
Qed.

(** Digits and then a word, possibly followed by more. *)
Lemma digits_then_word (word : string) (tail : regex) (w answer : string) :
  Matches true (Seq (Plus Digit) (Seq (lit word) tail)) w -> occursIn w answer ->
  digitThen word answer.
Proof.
  intros H Hocc.
  apply Matches_Seq_inv in H as (ds & rest & -> & Hds & H).
  apply Matches_Seq_inv in H as (y & t & -> & Hy & _).
  apply Matches_Plus_Digit in Hds as (ds' & d & -> & Hd).
  apply Matches_lit in Hy.
  exists d, y. split; [exact Hd|]. split; [exact Hy|].
  apply (occursIn_inside ds' _ t).
  rewrite !append_assoc in Hocc. exact Hocc.
Qed.

Lemma word_then_nothing (word w : string) :
  Matches true (Seq (Plus Digit) (lit word)) w ->
  Matches true (Seq (Plus Digit) (Seq (lit word) Empty)) w.
Proof.
  intros H. apply Matches_Seq_inv in H as (ds & y & -> & Hds & Hy).
  apply MatchesSeq; [exact Hds|].
  rewrite <- (append_nil_r y). apply MatchesSeq; [exact Hy | constructor].
Qed.

Lemma digit_word_matches (word : string) (d : ascii) (y : string) :
  isDigit d = true -> sameIgnoringCase word y ->
  Matches true (Seq (Plus Digit) (lit word)) (String d y).
Proof.
  intros Hd Hy.
  apply (MatchesSeq true (Plus Digit) (lit word) (String d EmptyString) y).
  - now apply Plus_Digit_one.
  - now apply Matches_lit.
Qed.

End QuantifiedFacts.

(** X9.  [hasQuantifiableResults] holds of an answer exactly when the answer
    contains a digit immediately followed by '%', by ' year' or by
    ' people', or a dollar sign immediately followed by a digit, or one of
    the words 'increased', 'decreased', 'improved', 'achieved', 'delivered';
    letters count in whatever case. *)
Theorem quantifiable_results_are_figures_or_verbs (answer : string) :
  Interview.hasQuantifiableResults answer = true <->
  (exists word, In word ["%"; " year"; " people"]%string /\
                Language.digitThen word answer) \/
  Language.dollarThenDigit answer \/
  (exists word,
     In word ["increased"; "decreased"; "improved"; "achieved"; "delivered"]%string /\
     Language.containsIgnoringCase word answer).
Proof.
  unfold Interview.hasQuantifiableResults, Interview.quantifiableResults.
  rewrite test_spec. split.
  - intros (w & H & Hocc). apply Matches_alts in H as (r & Hin & H).
    cbn [In] in Hin.
    destruct Hin as [<- | [<- | [<- | [<- | Hin]]]].
    + left. exists "%"%string. split; [cbn; auto|].
      apply word_then_nothing in H. exact (digits_then_word _ _ w answer H Hocc).
    + left. exists " year"%string. split; [cbn; auto|].
      exact (digits_then_word _ _ w answer H Hocc).
    + left. exists " people"%string. split; [cbn; auto|].
      apply word_then_nothing in H. exact (digits_then_word _ _ w answer H Hocc).
    + right. left.
      apply Matches_Seq_inv in H as (w1 & w2 & -> & H1 & H2).
      inversion H1; subst.
      match goal with H : RegExp.chr_matches true _ _ = true |- _ =>
        apply matches_dollar in H; subst end.
      unfold RegExp.Plus in H2.
      apply Matches_Seq_inv in H2 as (d & ds & -> & Hd & _).
      inversion Hd; subst.
      match goal with c : ascii |- _ => exists c end.
      split; [assumption|].
      apply (occursIn_inside EmptyString _ ds). exact Hocc.
    + right. right.
      assert (Hv : exists r0,
                 In r0 (List.map RegExp.lit
                          ["increased"; "decreased"; "improved"; "achieved";
                           "delivered"]%string) /\
                 Language.Matches true r0 w)
        by (exists r; split; [exact Hin | exact H]).
      apply Matches_lits in Hv as (word & Hw & Hs).
      exists word. split; [exact Hw|]. exists w. auto.
  - intros [(word & Hin & d & y & Hd & Hy & Hocc) | [(d & Hd & Hocc) | (word & Hin & w & Hw & Hocc)]].
    + exists (String d y). split; [|exact Hocc]. apply Matches_alts.
      cbn [In] in Hin. destruct Hin as [<- | [<- | [<- | []]]].
      * eexists. split; [left; reflexivity|]. now apply digit_word_matches.
      * eexists. split; [right; left; reflexivity|].
        apply (Language.MatchesSeq true (RegExp.Plus RegExp.Digit) _
                 (String d EmptyString) y); [now apply Plus_Digit_one|].
        rewrite <- (append_nil_r y). apply Language.MatchesSeq.
        -- now apply Matches_lit.
        -- apply Language.MatchesRight. constructor.
      * eexists. split; [right; right; left; reflexivity|].
        now apply digit_word_matches.
    + exists (String "$" (String d EmptyString)). split; [|exact Hocc].
      apply Matches_alts. eexists. split; [right; right; right; left; reflexivity|].
      apply (Language.MatchesSeq true (RegExp.Chr "$") _
               (String "$" EmptyString) (String d EmptyString)).
      * constructor. reflexivity.
      * now apply Plus_Digit_one.
    + exists w. split; [|exact Hocc]. apply Matches_alts.
      assert (Hv : exists r0,
                 In r0 (List.map RegExp.lit
                          ["increased"; "decreased"; "improved"; "achieved";
                           "delivered"]%string) /\
                 Language.Matches true r0 w)
        by (apply Matches_lits; exists word; auto).
      destruct Hv as (r0 & Hr0 & Hm). exists r0. split; [|exact Hm].
      cbn [List.map In] in Hr0 |- *. tauto.
Qed.

(* ====================================================================== *)
(** ** Requirements that start or end with a separator *)
(* ====================================================================== *)

Section RequirementFacts.
Import JsString RegExp Interview Requirements.
Open Scope string_scope.

Lemma wordChar_is_pattern_character (c : ascii) :
  isWordChar c = true ->
  outside_fragment c = false /\ Ascii.eqb c "|" = false /\ isQuantifier c = false.
Proof.
  destruct c as [[] [] [] [] [] [] [] []]; cbn; intros H; try discriminate;
    repeat split.
Qed.

(** Reading a word leaves the alternatives closed so far as they are. *)
Lemma parse_word (w : string) :
  forallb isWordChar w = true ->
  forall done sq t rest,
  exists sq' t',
    parse done sq t (w ++ rest) = parse done sq' t' rest /\
    (w = EmptyString -> sq' = sq /\ t' = t).
Proof.
  induction w as [|c w IH]; intros Hw done sq t rest.
  - exists sq, t. auto.
  - cbn [forallb] in Hw. apply andb_true_iff in Hw as [Hc Hw].
    destruct (wordChar_is_pattern_character c Hc) as (Ho & Hp & Hq).
    cbn [append parse]. rewrite Ho, Hp, Hq.
    destruct (IH Hw done (close_term sq t)
                 (Atom (if Ascii.eqb c "." then AnyChar else Chr c)) rest)
      as (sq' & t' & H & _).
    exists sq', t'. split; [exact H | discriminate].
Qed.

Lemma nullable_alts (rs : list regex) : nullable (alts rs) = existsb nullable rs.
Proof.
  induction rs as [|r rs IH]; [reflexivity|].
  destruct rs as [|r' rs]; [cbn; now rewrite orb_false_r|].
  change (alts (r :: r' :: rs)) with (Alt r (alts (r' :: rs))).
  cbn [nullable existsb] in *. now rewrite IH.
Qed.

Lemma existsb_rev {A : Type} (p : A -> bool) (l : list A) :
  existsb p (rev l) = existsb p l.
Proof.
  induction l as [|x l IH]; [reflexivity|].
  cbn. rewrite existsb_app, IH. cbn. rewrite orb_false_r. apply orb_comm.
Qed.

(** The pattern made of words joined by [|] is accepted, and it matches the
    empty string as soon as one of the words is empty. *)
Lemma parse_joined (ws : list string) :
  Forall (fun w => forallb isWordChar w = true) ws ->
  forall done,
  exists r,
    parse done Empty NoAtom (join "|" ws) = Some (Some r) /\
    (existsb nullable done = true \/ In EmptyString ws \/ ws = [] ->
     nullable r = true).
Proof.
  induction ws as [|w ws IH]; intros Hws done.
  - eexists. split; [reflexivity|]. intros _.
    rewrite nullable_alts, existsb_rev. reflexivity.
  - inversion Hws as [|? ? Hw Hws']; subst.
    destruct ws as [|w' ws].
    + cbn [join].
      destruct (parse_word w Hw done Empty NoAtom EmptyString) as (sq' & t' & H & He).
      rewrite append_nil_r in H. rewrite H. cbn [parse].
      eexists. split; [reflexivity|].
      rewrite nullable_alts, existsb_rev. cbn [existsb].
      intros [Hd | [[Hin | []] | Hn]]; [| |discriminate].
      * rewrite Hd. apply orb_true_r.
      * destruct (He Hin) as [-> ->]. reflexivity.
    + change (join "|" (w :: w' :: ws)) with (w ++ "|" ++ join "|" (w' :: ws)).
      destruct (parse_word w Hw done Empty NoAtom ("|" ++ join "|" (w' :: ws)))
        as (sq' & t' & H & He).
      rewrite H. cbn [append parse]. cbn [outside_fragment existsb Ascii.eqb].
      change (Ascii.eqb "|" "|") with true. cbv iota.
      destruct (IH Hws' (close_term sq' t' :: done)) as (r & Hr & Hn).
      exists r. split; [exact Hr|].
      intros [Hd | [[Hin | Hin] | Hnil]]; [| | |discriminate]; apply Hn.
      * left. cbn [existsb]. rewrite Hd. apply orb_true_r.
      * left. destruct (He Hin) as [-> ->]. reflexivity.
      * right. left. exact Hin.
Qed.

Lemma split_runs_words (cur : string) (inRun : bool) (s : string) :
  forallb isWordChar cur = true -> forallb isPlain s = true ->
  Forall (fun w => forallb isWordChar w = true) (split_runs isSeparator cur inRun s).
Proof.
  revert cur inRun. induction s as [|c s IH]; intros cur inRun Hcur Hs.
  - cbn. constructor; [exact Hcur | constructor].
  - cbn [forallb] in Hs. apply andb_true_iff in Hs as [Hc Hs].
    cbn [split_runs]. destruct (isSeparator c) eqn:Esep.
    + destruct inRun; [now apply IH|].
      constructor; [exact Hcur | now apply IH].
    + apply IH; [|exact Hs]. apply forallb_snoc; [exact Hcur|].
      unfold isPlain in Hc. now rewrite Esep, orb_false_r in Hc.
Qed.

Lemma Forall_firstn {A : Type} (P : A -> Prop) (n : nat) (l : list A) :
  Forall P l -> Forall P (firstn n l).
Proof.
  intros H. revert n. induction H as [|x l Hx _ IH]; intros [|n]; cbn; constructor; auto.
Qed.

Lemma matches_everything (r : regex) (answer : string) :
  nullable r = true -> test true r answer = true.
Proof.
  intros H. destruct answer; cbn [test matches_at_start]; now rewrite H.
Qed.

(** Requirements that start with a separator have an empty first piece. *)
Lemma leading_separator (c : ascii) (rest : string) :
  isSeparator c = true -> In EmptyString (pieces (String c rest)).
Proof.
  intros H. unfold pieces, split. cbn [split_runs]. rewrite H. cbn. now left.
Qed.

End RequirementFacts.

Section PieceFacts.
Import JsString RegExp Language Interview Requirements.
Open Scope string_scope.

Lemma sameIgnoringCase_nil (x : string) :
  sameIgnoringCase EmptyString x <-> x = EmptyString.
Proof.
  unfold sameIgnoringCase. destruct x; cbn; split; intros H; try reflexivity; discriminate.
Qed.

Lemma sameIgnoringCase_cons (c : ascii) (w x : string) :
  sameIgnoringCase (String c w) x <->
  exists c' x', x = String c' x' /\ chr_matches true c c' = true /\ sameIgnoringCase w x'.
Proof.
  unfold sameIgnoringCase. cbn [chr_matches]. split.
  - destruct x as [|c' x']; cbn; [discriminate|]. intros [= Hc Hx].
    exists c', x'. rewrite Hc, Ascii.eqb_refl. auto.
  - intros (c' & x' & -> & Hc & Hx). cbn. apply Ascii.eqb_eq in Hc. now rewrite Hc, Hx.
Qed.

(** Reading a word appends it to what the current alternative matches. *)
Lemma parse_word_matches (w : string) :
  forallb isWordChar w = true ->
  forall done sq t rest,
  exists sq' t',
    parse done sq t (w ++ rest) = parse done sq' t' rest /\
    forall x,
      Matches true (close_term sq' t') x <->
      exists x1 x2, x = x1 ++ x2 /\ Matches true (close_term sq t) x1 /\
                    sameIgnoringCase w x2.
Proof.
  induction w as [|c w IH]; intros Hw done sq t rest.
  - exists sq, t. split; [reflexivity|]. intros x. split.
    + intros H. exists x, EmptyString. rewrite append_nil_r.
      split; [reflexivity|]. split; [exact H | reflexivity].
    + intros (x1 & x2 & -> & H & Hs). apply sameIgnoringCase_nil in Hs. subst x2.
      now rewrite append_nil_r.
  - cbn [forallb] in Hw. apply andb_true_iff in Hw as [Hc Hw].
    destruct (wordChar_is_pattern_character c Hc) as (Ho & Hp & Hq).
    assert (Hdot : Ascii.eqb c "." = false)
      by (destruct c as [[] [] [] [] [] [] [] []]; cbn in Hc |- *; congruence).
    cbn [append parse]. rewrite Ho, Hp, Hq, Hdot.
    destruct (IH Hw done (close_term sq t) (Atom (Chr c)) rest) as (sq' & t' & H & Hm).
    exists sq', t'. split; [exact H|]. intros x. rewrite Hm. cbn [close_term]. split.
    + intros (y1 & y2 & -> & Hy1 & Hy2).
      apply Matches_Seq_inv in Hy1 as (x1 & z & -> & Hx1 & Hz).
      inversion Hz; subst.
      exists x1. eexists. split; [apply append_assoc|]. split; [exact Hx1|].
      apply sameIgnoringCase_cons.
      match goal with c0 : ascii |- _ => exists c0, y2 end. auto.
    + intros (x1 & x2 & -> & Hx1 & Hx2).
      apply sameIgnoringCase_cons in Hx2 as (c' & x' & -> & Hc' & Hx').
      exists (x1 ++ String c' EmptyString), x'.
      split; [now rewrite append_assoc|]. split; [|exact Hx'].
      apply MatchesSeq; [exact Hx1 | now constructor].
Qed.

(** The pattern made of words joined by [|] matches the words, in whatever
    case, besides what the alternatives closed before match. *)
Lemma parse_joined_matches (ws : list string) :
  ws <> [] ->
  Forall (fun w => forallb isWordChar w = true) ws ->
  forall done,
  exists r,
    parse done Empty NoAtom (join "|" ws) = Some (Some r) /\
    forall x,
      Matches true r x <->
      (exists d, In d done /\ Matches true d x) \/
      (exists w, In w ws /\ sameIgnoringCase w x).
Proof.
  induction ws as [|w ws IH]; intros Hne Hws done; [congruence|].
  inversion Hws as [|? ? Hw Hws']; subst.
  assert (Hfirst : forall sq' t',
             (forall x, Matches true (close_term sq' t') x <->
                        exists x1 x2, x = x1 ++ x2 /\
                                      Matches true (close_term Empty NoAtom) x1 /\
                                      sameIgnoringCase w x2) ->
             forall x, Matches true (close_term sq' t') x <-> sameIgnoringCase w x).
  { intros sq' t' Hm x. rewrite Hm. cbn [close_term]. split.
    - intros (x1 & x2 & -> & H1 & H2). apply Matches_Empty_inv in H1. now subst.
    - intros H. exists EmptyString, x.
      split; [reflexivity|]. split; [constructor | exact H]. }
  destruct ws as [|w' ws].
  - cbn [join].
    destruct (parse_word_matches w Hw done Empty NoAtom EmptyString)
      as (sq' & t' & H & Hm).
    rewrite append_nil_r in H. rewrite H. cbn [parse].
    eexists. split; [reflexivity|]. intros x.
    rewrite Matches_alts. split.
    + intros (r0 & Hin & Hr0). apply in_rev in Hin. destruct Hin as [<- | Hin].
      * right. exists w. split; [now left | now apply (Hfirst sq' t' Hm)].
      * left. eauto.
    + intros [(d & Hin & Hd) | (w0 & [<- | []] & Hw0)].
      * exists d. split; [apply in_rev; rewrite rev_involutive; now right | exact Hd].
      * exists (close_term sq' t').
        split; [apply in_rev; rewrite rev_involutive; now left|].
        now apply (Hfirst sq' t' Hm).
  - change (join "|" (w :: w' :: ws)) with (w ++ "|" ++ join "|" (w' :: ws)).
    destruct (parse_word_matches w Hw done Empty NoAtom ("|" ++ join "|" (w' :: ws)))
      as (sq' & t' & H & Hm).
    rewrite H. cbn [append parse]. cbn [outside_fragment existsb Ascii.eqb].
    change (Ascii.eqb "|" "|") with true. cbv iota.
    destruct (IH ltac:(discriminate) Hws' (close_term sq' t' :: done)) as (r & Hr & Hx).
    exists r. split; [exact Hr|]. intros x. rewrite Hx. split.
    + intros [(d & [<- | Hin] & Hd) | (w0 & Hin & Hw0)].
      * right. exists w. split; [now left | now apply (Hfirst sq' t' Hm)].
      * left. eauto.
      * right. exists w0. split; [now right | exact Hw0].
    + intros [(d & Hin & Hd) | (w0 & [<- | Hin] & Hw0)].
      * left. exists d. split; [now right | exact Hd].
      * left. exists (close_term sq' t'). split; [now left|].
        now apply (Hfirst sq' t' Hm).
      * right. eauto.
Qed.

Lemma split_runs_not_nil (cur : string) (inRun : bool) (s : string) :
  split_runs isSeparator cur inRun s <> [].
Proof.
  revert cur inRun. induction s as [|c s IH]; intros cur inRun; cbn [split_runs];
    [discriminate|].
  destruct (isSeparator c); [destruct inRun; [apply IH | discriminate] | apply IH].
Qed.

Lemma pieces_not_nil (requirements : string) : pieces requirements <> [].
Proof.
  unfold pieces, split.
  pose proof (split_runs_not_nil EmptyString false requirements) as H.
  destruct (split_runs isSeparator EmptyString false requirements); [congruence|].
  discriminate.
Qed.

End PieceFacts.

(** X10.  When the requirements are written with letters, digits,
    underscores, commas and white space, the pattern built from them is
    accepted and [hasRelevantKeywords] holds of an answer exactly when the
    answer contains, in whatever case, one of the first five pieces that the
    separator cuts from the requirements; pieces beyond the fifth are not
    looked for. *)
Theorem relevant_keywords_are_the_first_five_pieces
        (jd : Types.JobDescription.t) (requirements answer : string) :
  Types.JobDescription.requirements jd = Some requirements ->
  requirements <> EmptyString ->
  JsString.forallb Requirements.isPlain requirements = true ->
  exists relevant,
    Interview.hasRelevantKeywords RegExp.reference_RegExp_i jd answer
    = Interview.Returned relevant /\
    (relevant = true <->
     exists piece,
       In piece (Requirements.pieces requirements) /\
       Language.containsIgnoringCase piece answer).
Proof.
  intros Hr Hne Hplain. unfold Interview.hasRelevantKeywords. rewrite Hr.
  destruct requirements as [|c rest]; [congruence|]. cbn [JsString.isEmpty].
  unfold RegExp.reference_RegExp_i, RegExp.fragment_RegExp_i,
         Interview.requirementsPattern.
  fold (Requirements.pieces (String c rest)).
  assert (Hw : Forall (fun w => JsString.forallb JsString.isWordChar w = true)
                      (Requirements.pieces (String c rest)))
    by (apply Forall_firstn, split_runs_words; [reflexivity | exact Hplain]).
  destruct (parse_joined_matches _ (pieces_not_nil (String c rest)) Hw [])
    as (r & Hp & Hm).
  rewrite Hp. eexists. split; [reflexivity|].
  rewrite test_spec. unfold Language.containsIgnoringCase. split.
  - intros (w & Hmw & Hocc). apply Hm in Hmw as [(d & [] & _) | (piece & Hin & Hs)].
    exists piece. split; [exact Hin|]. exists w. auto.
  - intros (piece & Hin & w & Hs & Hocc). exists w. split; [|exact Hocc].
    apply Hm. right. eauto.
Qed.

Lemma relevant_keywords_are_the_first_five_pieces_witness :
  exists relevant,
    Interview.hasRelevantKeywords RegExp.reference_RegExp_i Samples.frontend
                                  Samples.anAnswer
    = Interview.Returned relevant /\
    (relevant = true <->
     exists piece,
       In piece (Requirements.pieces "React, TypeScript") /\
       Language.containsIgnoringCase piece Samples.anAnswer).
Proof.
  refine (relevant_keywords_are_the_first_five_pieces Samples.frontend
            "React, TypeScript" Samples.anAnswer _ _ _).
  - reflexivity.
  - discriminate.
  - reflexivity.
Defined.

(** X11.  When the requirements are written with letters, digits,
    underscores, commas and white space and one of the first five pieces
    that the separator cuts is empty (so it is when the requirements start
    with a comma or a space), the pattern built from them has an empty
    alternative: the search succeeds on every answer, the empty one
    included, and [hasRelevantKeywords] is true whatever the candidate
    said. *)
Theorem empty_piece_makes_every_answer_relevant
        (jd : Types.JobDescription.t) (requirements answer : string) :
  Types.JobDescription.requirements jd = Some requirements ->
  requirements <> EmptyString ->
  JsString.forallb Requirements.isPlain requirements = true ->
  In EmptyString (Requirements.pieces requirements) ->
  Interview.hasRelevantKeywords RegExp.reference_RegExp_i jd answer
  = Interview.Returned true.
Proof.
  intros Hr Hne Hplain Hin. unfold Interview.hasRelevantKeywords. rewrite Hr.
  destruct requirements as [|c rest]; [congruence|]. cbn [JsString.isEmpty].
  unfold RegExp.reference_RegExp_i, RegExp.fragment_RegExp_i,
         Interview.requirementsPattern.
  fold (Requirements.pieces (String c rest)).
  assert (Hw : Forall (fun w => JsString.forallb JsString.isWordChar w = true)
                      (Requirements.pieces (String c rest)))
    by (apply Forall_firstn, split_runs_words; [reflexivity | exact Hplain]).
  destruct (parse_joined _ Hw []) as (r & Hp & Hn).
  rewrite Hp. f_equal. apply matches_everything. apply Hn. right. now left.
Qed.

Lemma empty_piece_makes_every_answer_relevant_witness :
  Interview.hasRelevantKeywords RegExp.reference_RegExp_i Scenarios.spaced
                                "I have never written any code."
  = Interview.Returned true.
Proof.
  refine (empty_piece_makes_every_answer_relevant Scenarios.spaced
            " React, TypeScript" "I have never written any code." _ _ _ _).
  - reflexivity.
  - discriminate.
  - reflexivity.
  - cbn. auto.
Defined.

(* ====================================================================== *)
(** ** The [CameraCheck] screen *)
(* ====================================================================== *)

Section CameraCheckFacts.
Import Camera CameraCheck.

Lemma settle_idle (st : State) :
  isActive (camera st) = false ->
  faceDetectionRef (camera st) = None ->
  sent st = [] ->
  Forall (fun closureActive => closureActive = false) (pending st) ->
  checkStatus (check st) <> check_success ->
  idle (settle st).
Proof.
  intros Ha Hf Hs Hp Hc. unfold idle, settle, withCheck, detectionEffect.
  rewrite Ha. cbn. repeat split; assumption.
Qed.

Lemma refs_inactive (els : Elements) (st : State) :
  isActive (camera st) = false -> refs els st = mkRefs None None.
Proof.
  intros H. unfold refs, videoMounted. rewrite H.
  now destruct (checkStatus (check st)).
Qed.

(** The check of a screen whose camera is not active. *)
Lemma performCameraCheck_inactive (devices : Devices) (media : option string)
      (els : Elements) (st : State) :
  isActive (camera st) = false ->
  let st' := performCameraCheck false devices media els st in
  isActive (camera st') = false /\
  faceDetectionRef (camera st') = faceDetectionRef (camera st) /\
  sent st' = sent st /\
  checkStatus (check st') <> check_success /\
  (pending st' = pending st \/ pending st' = pending st ++ [false]).
Proof.
  intros Ha. unfold performCameraCheck.
  destruct devices as [e | kinds].
  - cbn. repeat split; try assumption; try discriminate. now left.
  - destruct (hasVideoInput kinds).
    + rewrite refs_inactive by exact Ha.
      destruct media as [rejection|]; cbn.
      * repeat split; try assumption; try discriminate. now left.
      * repeat split; try assumption; try discriminate. now right.
    + cbn. repeat split; try assumption; try discriminate. now left.
Qed.

Lemma idle_step (st : State) (e : Event) : idle st -> idle (step st e).
Proof.
  intros (Ha & Hf & Hi & Hd & Hs & Hp & Hc). unfold step.
  destruct e as [devices media els | | | | | els reply]; cbn [handle].
  - rewrite Ha.
    destruct (performCameraCheck_inactive devices media els
                (mkState (check st) (errorMessage st) (troubleshootingStep st)
                         (retryCount st + 1) (camera st) (pending st) (sent st)
                         (streams st)) Ha)
      as (Ha' & Hf' & Hs' & Hc' & Hp').
    apply settle_idle; try assumption.
    + now rewrite Hf'.
    + now rewrite Hs'.
    + cbn [pending] in Hp'. destruct Hp' as [-> | ->]; [exact Hp|].
      apply Forall_app. split; [exact Hp | now constructor].
  - destruct (pending st) as [|closureActive rest] eqn:Ep.
    + apply settle_idle; try assumption. now rewrite Ep.
    + inversion Hp as [|? ? Hfalse Hrest]; subst.
      apply settle_idle; cbn; try assumption. discriminate.
  - apply settle_idle; assumption.
  - apply settle_idle; assumption.
  - apply settle_idle; assumption.
  - rewrite Hi. apply settle_idle; assumption.
Qed.

Lemma idle_run (events : list Event) (st : State) : idle st -> idle (run st events).
Proof.
  revert st. induction events as [|e events IH]; intros st H; [exact H|].
  cbn. apply IH. now apply idle_step.
Qed.

Lemma idle_mount (devices : Devices) (media : option string) (els : Elements) :
  idle (mount devices media els).
Proof.
  unfold mount. change (isActive (camera initial)) with false.
  destruct (performCameraCheck_inactive devices media els initial eq_refl)
    as (Ha & Hf & Hs & Hc & Hp).
  apply settle_idle.
  - exact Ha.
  - rewrite Hf. reflexivity.
  - rewrite Hs. reflexivity.
  - destruct Hp as [-> | ->]; cbn; repeat constructor.
  - exact Hc.
Qed.

End CameraCheckFacts.

(** X12.  On the [CameraCheck] screen the camera never becomes active.  The
    screen renders the video element only while [isActive] holds, and
    [startCamera] sets [isActive] only when the video element is there: so,
    from the mount on and through every retry, timer, click and tick,
    [isActive] is false, the video element is not rendered, neither
    detection interval is installed, no frame is sent to [/detect] and the
    status is never 'success'. *)
Theorem camera_check_never_activates_the_camera
        (devices : CameraCheck.Devices) (media : option string)
        (els : CameraCheck.Elements) (events : list CameraCheck.Event) :
  let st := CameraCheck.run (CameraCheck.mount devices media els) events in
  Camera.isActive (CameraCheck.camera st) = false /\
  CameraCheck.videoMounted st = false /\
  Camera.detectionIntervalRef (CameraCheck.check st) = None /\
  Camera.faceDetectionRef (CameraCheck.camera st) = None /\
  CameraCheck.sent st = [] /\
  Camera.checkStatus (CameraCheck.check st) <> Camera.check_success.
Proof.
  intros st.
  assert (H : CameraCheck.idle st) by (apply idle_run, idle_mount).
  destruct H as (Ha & Hf & Hi & _ & Hs & _ & Hc).
  repeat split; try assumption.
  unfold CameraCheck.videoMounted. rewrite Ha.
  now destruct (Camera.checkStatus (CameraCheck.check st)).
Qed.

(** X13.  On the [CameraCheck] screen a check that finds a camera and
    obtains the stream still fails: it leaves the status 'checking' with a
    two-second timer whose closure holds [isActive = false], and when a
    timer fires the status becomes 'error' with the message 'Camera failed
    to start properly' and [onCameraReady(false)] is called.  This holds
    in every state that the mount, retries, timers, clicks and ticks lead
    to. *)
Theorem camera_check_with_a_stream_ends_in_error
        (devices : CameraCheck.Devices) (media : option string)
        (els : CameraCheck.Elements) (events : list CameraCheck.Event) :
  let st := CameraCheck.run (CameraCheck.mount devices media els) events in
  (forall kinds els',
     CameraCheck.hasVideoInput kinds = true ->
     let checked :=
       CameraCheck.step st (CameraCheck.TryAgain (CameraCheck.Kinds kinds) None els') in
     Camera.checkStatus (CameraCheck.check checked) = Camera.checking /\
     CameraCheck.pending checked = CameraCheck.pending st ++ [false]) /\
  (CameraCheck.pending st <> [] ->
   let fired := CameraCheck.step st CameraCheck.TimerFires in
   Camera.checkStatus (CameraCheck.check fired) = Camera.check_error /\
   CameraCheck.errorMessage fired = "Camera failed to start properly"%string /\
   Camera.cameraReady (CameraCheck.check fired)
   = Camera.cameraReady (CameraCheck.check st) ++ [false]).
Proof.
  intros st.
  assert (H : CameraCheck.idle st) by (apply idle_run, idle_mount).
  destruct H as (Ha & _ & _ & _ & _ & Hp & _).
  split.
  - intros kinds els' Hk checked. unfold checked, CameraCheck.step.
    cbn [CameraCheck.handle]. unfold CameraCheck.performCameraCheck.
    rewrite Hk, Ha. rewrite refs_inactive by exact Ha. cbn. rewrite Ha. cbn. auto.
  - intros Hne fired. unfold fired, CameraCheck.step. cbn [CameraCheck.handle].
    destruct (CameraCheck.pending st) as [|closureActive rest]; [congruence|].
    inversion Hp as [|? ? Hfalse _]; subst. cbn. rewrite Ha. cbn. auto.
Qed.

(** X14.  When [getUserMedia] rejects, whatever the name of the error, the
    [CameraCheck] screen shows the generic message: [startCamera] throws a
    new [Error], whose name is 'Error', so the messages that
    [performCameraCheck] keeps for 'NotAllowedError', 'NotFoundError' and
    'NotReadableError' are not selected; the specific message is only in
    the [error] cell of the hook.  The status becomes 'error',
    [onCameraReady(false)] is called and no timer is scheduled. *)
Theorem rejected_camera_shows_the_generic_message
        (closureActive : bool) (kinds : list string) (rejection : string)
        (els : CameraCheck.Elements) (st : CameraCheck.State) :
  CameraCheck.hasVideoInput kinds = true ->
  let st' :=
    CameraCheck.performCameraCheck closureActive (CameraCheck.Kinds kinds)
                                   (Some rejection) els st in
  Camera.checkStatus (CameraCheck.check st') = Camera.check_error /\
  CameraCheck.errorMessage st'
  = "Unable to access camera. Please check your camera settings and try again."%string /\
  Camera.error (CameraCheck.camera st') = Some (Camera.cameraError rejection) /\
  Camera.cameraReady (CameraCheck.check st')
  = Camera.cameraReady (CameraCheck.check st) ++ [false] /\
  CameraCheck.pending st' = CameraCheck.pending st.
Proof.
  intros Hk st'. unfold st', CameraCheck.performCameraCheck. rewrite Hk.
  cbn. repeat split.
Qed.

Lemma rejected_camera_shows_the_generic_message_witness :
  let st' :=
    CameraCheck.performCameraCheck false
      (CameraCheck.Kinds ["audioinput"; "videoinput"]%string)
      (Some "NotAllowedError"%string) Scenarios.elements CameraCheck.initial in
  Camera.checkStatus (CameraCheck.check st') = Camera.check_error /\
  CameraCheck.errorMessage st'
  = "Unable to access camera. Please check your camera settings and try again."%string /\
  Camera.error (CameraCheck.camera st')
  = Some (Camera.cameraError "NotAllowedError") /\
  Camera.cameraReady (CameraCheck.check st')
  = Camera.cameraReady (CameraCheck.check CameraCheck.initial) ++ [false] /\
  CameraCheck.pending st' = CameraCheck.pending CameraCheck.initial.
Proof.
  refine (rejected_camera_shows_the_generic_message false
            ["audioinput"; "videoinput"]%string "NotAllowedError"
            Scenarios.elements CameraCheck.initial _).
  reflexivity.
Defined.

Section CheckStreamFacts.
Import Camera CameraCheck.

Lemma repeat_true_snoc (k : nat) : repeat true k ++ [true] = repeat true (S k).
Proof. induction k as [|k IH]; cbn; [reflexivity | now rewrite IH]. Qed.

(** The streams after a check of a screen whose camera is not active. *)
Lemma performCameraCheck_streams (devices : Devices) (media : option string)
      (els : Elements) (st : State) (k : nat) :
  isActive (camera st) = false ->
  Streams.streamRef (streams st) = None ->
  Streams.live (streams st) = repeat true k ->
  let st' := performCameraCheck false devices media els st in
  Streams.streamRef (streams st') = None /\
  Streams.live (streams st')
  = repeat true (k + if obtainsStream devices media then 1 else 0).
Proof.
  intros Ha Hr Hl. unfold performCameraCheck, obtainsStream.
  destruct devices as [e | kinds].
  - cbn. rewrite Nat.add_0_r. auto.
  - destruct (hasVideoInput kinds).
    + assert (Hv : videoMounted (report checking EmptyString st) = false)
        by (unfold videoMounted; cbn; exact Ha).
      rewrite Hv.
      destruct media as [rejection|]; cbn.
      * rewrite Nat.add_0_r. auto.
      * rewrite Hl, repeat_true_snoc, Nat.add_1_r. auto.
    + cbn. destruct media; rewrite Nat.add_0_r; auto.
Qed.

Lemma settle_streams (st : State) : streams (settle st) = streams st.
Proof. reflexivity. Qed.

Lemma streams_run (events : list Event) (st : State) (k : nat) :
  idle st ->
  Streams.streamRef (streams st) = None ->
  Streams.live (streams st) = repeat true k ->
  Streams.streamRef (streams (run st events)) = None /\
  Streams.live (streams (run st events)) = repeat true (k + streamsObtained events).
Proof.
  revert st k. induction events as [|e events IH]; intros st k Hi Hr Hl.
  - cbn. rewrite Nat.add_0_r. auto.
  - cbn [run fold_left]. fold (run (step st e) events).
    assert (Hstep : Streams.streamRef (streams (step st e)) = None /\
                    Streams.live (streams (step st e))
                    = repeat true
                        (k + match e with
                             | TryAgain devices media _ =>
                                 if obtainsStream devices media then 1 else 0
                             | _ => 0
                             end)).
    { unfold step. rewrite settle_streams.
      destruct Hi as (Ha & _ & Hint & _).
      destruct e as [devices media els | | | | | els reply]; cbn [handle].
      - rewrite Ha. now apply performCameraCheck_streams.
      - rewrite Nat.add_0_r. destruct (pending st) as [|[] rest]; cbn; auto.
      - rewrite Nat.add_0_r. auto.
      - rewrite Nat.add_0_r. auto.
      - rewrite Nat.add_0_r. auto.
      - rewrite Nat.add_0_r, Hint. auto. }
    destruct Hstep as [Hr' Hl'].
    destruct (IH (step st e) _ (idle_step st e Hi) Hr' Hl') as [Hr'' Hl''].
    split; [exact Hr''|]. rewrite Hl''. f_equal.
    unfold streamsObtained. cbn [filter].
    destruct e as [devices media els | | | | | els reply]; cbn [List.length]; try lia.
    destruct (obtainsStream devices media); cbn [List.length]; lia.
Qed.

End CheckStreamFacts.

Section BypassFacts.
Import Camera CameraCheck.

Lemma In_true_snoc_false (l : list bool) : In true (l ++ [false]) -> In true l.
Proof.
  intros H. apply in_app_or in H as [H | [H | []]]; [exact H | discriminate].
Qed.

Lemma performCameraCheck_guarded (devices : Devices) (media : option string)
      (els : Elements) (st : State) :
  isActive (camera st) = false ->
  reportsNoCamera devices = false ->
  let st' := performCameraCheck false devices media els st in
  checkStatus (check st') <> no_camera /\
  troubleshootingStep st' = troubleshootingStep st /\
  retryCount st' = retryCount st /\
  (In true (cameraReady (check st')) -> In true (cameraReady (check st))).
Proof.
  intros Ha Hd. unfold performCameraCheck.
  destruct devices as [e | kinds].
  - cbn. repeat split; try discriminate. apply In_true_snoc_false.
  - cbn in Hd. apply negb_false_iff in Hd. rewrite Hd.
    rewrite refs_inactive by exact Ha.
    destruct media as [rejection|]; cbn.
    + repeat split; try discriminate. apply In_true_snoc_false.
    + repeat split; try discriminate. auto.
Qed.

Lemma guarded_settle (st : State) :
  checkStatus (check (settle st)) = checkStatus (check st) /\
  cameraReady (check (settle st)) = cameraReady (check st) /\
  troubleshootingStep (settle st) = troubleshootingStep st /\
  retryCount (settle st) = retryCount st.
Proof.
  unfold settle, withCheck, detectionEffect.
  destruct (isActive (camera st)), (checkStatus (check st)); cbn; auto.
Qed.

Lemma guarded_step (st : State) (e : Event) :
  guarded st -> retryReportsNoCamera e = false -> offered st e = true ->
  guarded (step st e).
Proof.
  intros (Hidle & Hn & Ht & Hr) He Ho.
  split; [now apply idle_step|].
  destruct Hidle as (Ha & _ & Hi & _ & _ & Hp & Hc).
  unfold step.
  destruct (guarded_settle (handle st e)) as (-> & -> & -> & ->).
  unfold troubleshootingSteps in *.
  destruct e as [devices media els | | | | | els reply]; cbn [handle].
  - cbn in He. rewrite Ha.
    destruct (performCameraCheck_guarded devices media els
                (mkState (check st) (errorMessage st) (troubleshootingStep st)
                         (retryCount st + 1) (camera st) (pending st) (sent st)
                         (streams st)) Ha He)
      as (Hn' & -> & -> & Hr').
    cbn in Hr' |- *. split; [exact Hn'|]. split; [exact Ht|].
    intros H. apply Hr', Hr in H. lia.
  - destruct (pending st) as [|closureActive rest]; [auto|].
    inversion Hp as [|? ? Hfalse _]; subst. cbn.
    split; [discriminate|]. split; [exact Ht|].
    intros H. now apply Hr, In_true_snoc_false.
  - cbn. split; [exact Hn|]. split; [lia | exact Hr].
  - cbn. split; [exact Hn|]. split; [exact Ht|]. intros _.
    unfold offered in Ho. destruct (checkStatus (check st)); try discriminate.
    + now apply Z.leb_le in Ho.
    + congruence.
  - unfold offered in Ho. destruct (checkStatus (check st)); try discriminate.
    congruence.
  - unfold offered in Ho. rewrite Hi in Ho. destruct (checkStatus (check st)); discriminate.
Qed.

Lemma guarded_run (events : list Event) (st : State) :
  guarded st ->
  forallb (fun e => negb (retryReportsNoCamera e)) events = true ->
  possible st events ->
  guarded (run st events).
Proof.
  revert st. induction events as [|e events IH]; intros st H He Hp; [exact H|].
  cbn [forallb] in He. apply andb_true_iff in He as [He Hes].
  apply negb_true_iff in He. destruct Hp as [Ho Hp].
  cbn [run fold_left]. apply IH; [now apply guarded_step | exact Hes | exact Hp].
Qed.

Lemma guarded_mount (devices : Devices) (media : option string) (els : Elements) :
  reportsNoCamera devices = false -> guarded (mount devices media els).
Proof.
  intros Hd. split; [apply idle_mount|].
  unfold mount. change (isActive (camera initial)) with false.
  destruct (guarded_settle (performCameraCheck false devices media els initial))
    as (-> & -> & -> & ->).
  destruct (performCameraCheck_guarded devices media els initial eq_refl Hd)
    as (Hn & -> & -> & Hr).
  split; [exact Hn|]. split; [cbn; unfold troubleshootingSteps; lia|].
  intros H. apply Hr in H. destruct H.
Qed.

End BypassFacts.

(** X15.  On the [CameraCheck] screen, as long as no check reports that the
    device has no camera and every click is one that the screen offers,
    [onCameraReady(true)] is called only after 'Try Again' has been clicked
    three times: the interview is reached through 'Continue Without Camera',
    which the error screen offers from the third retry on.  The
    troubleshooting step shown is always one of the four. *)
Theorem camera_check_is_passed_only_after_three_retries
        (devices : CameraCheck.Devices) (media : option string)
        (els : CameraCheck.Elements) (events : list CameraCheck.Event) :
  CameraCheck.reportsNoCamera devices = false ->
  forallb (fun e => negb (CameraCheck.retryReportsNoCamera e)) events = true ->
  CameraCheck.possible (CameraCheck.mount devices media els) events ->
  let st := CameraCheck.run (CameraCheck.mount devices media els) events in
  (In true (Camera.cameraReady (CameraCheck.check st)) -> 3 <= CameraCheck.retryCount st) /\
  0 <= CameraCheck.troubleshootingStep st <= 3.
Proof.
  intros Hd He Hp st.
  assert (H : CameraCheck.guarded st)
    by (apply guarded_run; [now apply guarded_mount | exact He | exact Hp]).
  destruct H as (_ & _ & Ht & Hr). unfold CameraCheck.troubleshootingSteps in Ht.
  split; [exact Hr | lia].
Qed.

Lemma camera_check_is_passed_only_after_three_retries_witness :
  let st := CameraCheck.run
              (CameraCheck.mount Scenarios.webcam None Scenarios.elements)
              Scenarios.threeRetries in
  (In true (Camera.cameraReady (CameraCheck.check st)) -> 3 <= CameraCheck.retryCount st) /\
  0 <= CameraCheck.troubleshootingStep st <= 3.
Proof.
  refine (camera_check_is_passed_only_after_three_retries Scenarios.webcam None
            Scenarios.elements Scenarios.threeRetries _ _ _).
  - reflexivity.
  - reflexivity.
  - cbn. repeat split.
Defined.

(** X16.  The [CameraCheck] screen never releases the camera.  Every check
    that finds a camera and whose [getUserMedia] resolves, at the mount and
    at each retry, obtains a new stream; as there is no video element the
    hook does not keep it in [streamRef], and no stream is ever stopped:
    after any events all the streams obtained are live, one for each such
    check. *)
Theorem camera_check_leaves_every_stream_live
        (devices : CameraCheck.Devices) (media : option string)
        (els : CameraCheck.Elements) (events : list CameraCheck.Event) :
  let st := CameraCheck.run (CameraCheck.mount devices media els) events in
  Streams.streamRef (CameraCheck.streams st) = None /\
  Streams.live (CameraCheck.streams st)
  = repeat true ((if CameraCheck.obtainsStream devices media then 1 else 0)
                 + CameraCheck.streamsObtained events)%nat.
Proof.
  intros st. unfold st. apply streams_run.
  - apply idle_mount.
  - unfold CameraCheck.mount. rewrite settle_streams.
    apply (performCameraCheck_streams devices media els CameraCheck.initial 0);
      reflexivity.
  - unfold CameraCheck.mount. rewrite settle_streams.
    apply (performCameraCheck_streams devices media els CameraCheck.initial 0);
      reflexivity.
Qed.

(* ====================================================================== *)
(** ** The media streams *)
(* ====================================================================== *)

Section StreamFacts.
Import Streams.

Lemma nth_error_update_other {A : Type} (i j : nat) (x : A) (l : list A) :
  i <> j -> nth_error (Listening.update j x l) i = nth_error l i.
Proof.
  revert i j. induction l as [|y l IH]; intros i j Hne; [now destruct j|].
  destruct j as [|j], i as [|i]; cbn; try reflexivity; try congruence.
  apply IH. congruence.
Qed.

Lemma kept_step (st : State) (c : Call) (stream : nat) :
  isLive st stream /\ streamRef st <> Some stream ->
  isLive (step st c) stream /\ streamRef (step st c) <> Some stream.
Proof.
  unfold isLive. intros [Hl Hr].
  assert (Hlt : (stream < List.length (live st))%nat)
    by (apply nth_error_Some; congruence).
  destruct c as [granted videoMounted|]; cbn [step].
  - unfold startCamera. destruct granted; [|auto]. cbn [live streamRef]. split.
    + rewrite nth_error_app1 by exact Hlt. exact Hl.
    + destruct videoMounted; [|exact Hr]. intros [= H]. lia.
  - unfold stopCamera. destruct (streamRef st) as [held|] eqn:Es; [|rewrite Es; auto].
    cbn [live streamRef]. split; [|discriminate].
    rewrite nth_error_update_other by congruence. exact Hl.
Qed.


Lemma repeat_false_snoc (n : nat) : repeat false n ++ [false] = repeat false (S n).
Proof. induction n as [|n IH]; cbn; [reflexivity | now rewrite IH]. Qed.




End StreamFacts.

(** X17.  [useCamera] stops the tracks of the stream that [streamRef] holds
    and of no other.  A live stream that the ref does not hold, because
    [getUserMedia] resolved while there was no video element or because a
    later [startCamera] has replaced it in the ref, stays live through every
    sequence of [startCamera] and [stopCamera] calls, and the ref never
    holds it again. *)
Theorem unreferenced_stream_is_never_stopped
        (st : Streams.State) (stream : nat) (calls : list Streams.Call) :
  Streams.isLive st stream ->
  Streams.streamRef st <> Some stream ->
  Streams.isLive (Streams.run st calls) stream /\
  Streams.streamRef (Streams.run st calls) <> Some stream.
Proof.
  intros Hl Hr. revert st Hl Hr.
  induction calls as [|c calls IH]; intros st Hl Hr; [now split|].
  destruct (kept_step st c stream (conj Hl Hr)) as [Hl' Hr'].
  cbn [Streams.run fold_left]. now apply IH.
Qed.

Lemma unreferenced_stream_is_never_stopped_witness :
  Streams.isLive
    (Streams.run Scenarios.unattached
       [Streams.StopCamera; Streams.StartCamera true true; Streams.StopCamera]) 0 /\
  Streams.streamRef
    (Streams.run Scenarios.unattached
       [Streams.StopCamera; Streams.StartCamera true true; Streams.StopCamera])
  <> Some 0%nat.
Proof.
  refine (unreferenced_stream_is_never_stopped Scenarios.unattached 0
            [Streams.StopCamera; Streams.StartCamera true true; Streams.StopCamera] _ _).
  - reflexivity.
  - discriminate.
Defined.



(* ====================================================================== *)
(** ** The [QuestionGenerator] component *)
(* ====================================================================== *)

Section BlankFacts.
Import JsString.

Lemma trimEnd_empty (s : string) :
  isEmpty (trimEnd s) = true <-> forallb isSpace s = true.
Proof.
  induction s as [|c s IH]; cbn [trimEnd forallb]; [tauto|].
  destruct (trimEnd s) as [|d t] eqn:Et.
  - destruct (isSpace c); cbn.
    + rewrite <- IH. cbn. tauto.
    + split; discriminate.
  - cbn. rewrite andb_true_iff, <- IH. cbn. split; [discriminate | intros [_ H]; discriminate].
Qed.

Lemma trimStart_space (s : string) :
  forallb isSpace (trimStart s) = forallb isSpace s.
Proof.
  induction s as [|c s IH]; [reflexivity|]. cbn [trimStart].
  destruct (isSpace c) eqn:Ec.
  - cbn [forallb]. now rewrite Ec.
  - reflexivity.
Qed.

(** A string trims to nothing exactly when it is made of white space. *)
Lemma trim_empty (s : string) :
  isEmpty (trim s) = true <-> forallb isSpace s = true.
Proof. unfold trim. now rewrite trimEnd_empty, trimStart_space. Qed.

End BlankFacts.

(** X19.  [handleGenerate] of the [QuestionGenerator] component sends a
    request exactly when the job description has a character that is not
    white space, and then the request carries the description as typed.  A
    description of white space only changes nothing but the error message.
    When a request is sent, [loading] is false afterwards, and the
    questions are replaced only by an ok reply with a JSON body: by its
    [questions] member as it came. *)
Theorem blank_job_description_sends_no_request
        (r : Network.Reply) (st : QuestionGenerator.State) :
  let jd := QuestionGenerator.jobDescription st in
  let st' := fst (QuestionGenerator.handleGenerate r st) in
  let sent := snd (QuestionGenerator.handleGenerate r st) in
  (JsString.forallb JsString.isSpace jd = true ->
   sent = [] /\
   st' = QuestionGenerator.mkState jd (QuestionGenerator.questions st)
           (QuestionGenerator.loading st) "Please enter a job description.") /\
  (JsString.forallb JsString.isSpace jd = false ->
   sent = [QuestionGenerator.PostJobDescription jd] /\
   QuestionGenerator.jobDescription st' = jd /\
   QuestionGenerator.loading st' = false /\
   match r with
   | Network.Response true (Network.Json _ delivered) =>
       QuestionGenerator.questions st' = delivered /\
       QuestionGenerator.error st' = EmptyString
   | _ => QuestionGenerator.questions st' = QuestionGenerator.questions st
   end).
Proof.
  intros jd st' sent. unfold st', sent, QuestionGenerator.handleGenerate. fold jd.
  destruct (JsString.isEmpty (JsString.trim jd)) eqn:E.
  - apply trim_empty in E. split; [auto | congruence].
  - assert (Hs : JsString.forallb JsString.isSpace jd = false).
    { destruct (JsString.forallb JsString.isSpace jd) eqn:Es; [|reflexivity].
      apply trim_empty in Es. congruence. }
    split; [congruence|]. intros _.
    destruct r as [m | [] [m | e delivered]]; cbn; auto.
Qed.

(* ====================================================================== *)
(** ** The interviewer avatar *)
(* ====================================================================== *)

Section BotFacts.
Import Bot.

Lemma consistent_step (st : State) (e : Event) : consistent st -> consistent (step st e).
Proof.
  unfold consistent. intros [Hl Hw].
  destruct e as [available text | | granted speech | results | |]; cbn [step].
  - unfold speak. destruct available; cbn; [|auto]. split; [exact Hl | reflexivity].
  - unfold utteranceEnded. cbn. auto.
  - unfold startListening. destruct granted; cbn; [|auto].
    split; [reflexivity | apply andb_false_r].
  - unfold heard. destruct (JsString.isEmpty (finalTranscript results)); cbn; auto.
  - unfold stopListening.
    destruct (Listening.mediaRecorderRef (audio st)) as [recorder|] eqn:Er; [|auto].
    destruct (Listening.isRecording (audio st)) eqn:Ei;
      [|split; [congruence | exact Hw]].
    unfold Listening.stopListening. rewrite Er, Ei. cbn.
    split; [reflexivity | apply andb_false_r].
  - unfold praised. cbn. auto.
Qed.

Lemma consistent_run (events : list Event) (st : State) :
  consistent st -> consistent (run st events).
Proof.
  revert st. induction events as [|e events IH]; intros st H; [exact H|].
  cbn. apply IH. now apply consistent_step.
Qed.

End BotFacts.

(** X20.  Through every sequence of speaking, utterance ends, starts and
    stops of listening, recognition results and timers, the avatar's
    [isListening] equals the hook's [isRecording], and the avatar is never
    speaking and waiting for a response at once. *)
Theorem avatar_listens_exactly_while_recording (events : list Bot.Event) :
  let st := Bot.run Bot.initial events in
  Bot.isListening (Bot.aiBot st) = Listening.isRecording (Bot.audio st) /\
  (Bot.isSpeaking (Bot.aiBot st) = true ->
   Bot.isWaitingForResponse (Bot.aiBot st) = false).
Proof.
  intros st.
  assert (H : Bot.consistent st)
    by (apply consistent_run; split; reflexivity).
  destruct H as [Hl Hw]. split; [exact Hl|].
  intros Hs. now rewrite Hs in Hw.
Qed.

(* ====================================================================== *)
(** ** Speech recognition *)
(* ====================================================================== *)

Section RecognitionFacts.
Import Listening Recognition.






End RecognitionFacts.



(* ====================================================================== *)
(** ** Floored quotients *)
(* ====================================================================== *)

Section FloorFacts.
Import JsNumber Binary64.

Lemma round_nearest_even_exact (m : Z) : round_nearest_even m loc_Exact = m.
Proof. reflexivity. Qed.

Lemma halved_exact (q : Z) :
  0 < q -> Z.even q = true ->
  loc_of_shr_record (shr_1 (shr_record_of_loc q loc_Exact)) = loc_Exact.
Proof.
  intros Hq He. destruct q as [|p|p]; try lia.
  destruct p as [p|p|]; try discriminate. reflexivity.
Qed.

(** [Math.floor] of a settled mantissa with a negative or null exponent. *)
Lemma floor_settle (m e : Z) :
  2 ^ 52 <= m <= 2 ^ 53 -> e <= 0 -> (e = 0 -> m < 2 ^ 53) ->
  floor (settle m e) = of_Z (m / 2 ^ (- e)).
Proof.
  intros Hm He H0. unfold settle.
  destruct (Z.ltb_spec m (2 ^ 53)) as [Hlt | Hge].
  - cbn [floor cond_Zopp]. rewrite Z2Pos.id by lia.
    destruct (Z.leb_spec 0 e) as [Hz | Hn].
    + assert (e = 0) by lia. subst e. cbn [Z.opp]. now rewrite Z.pow_0_r, Z.mul_1_r, Z.div_1_r.
    + reflexivity.
  - assert (m = 2 ^ 53) by lia. subst m. assert (e < 0) by lia.
    cbn [floor cond_Zopp]. rewrite Z2Pos.id by lia.
    assert (E : 2 ^ 53 / 2 ^ (- e) = 2 ^ 52 / 2 ^ (- (e + 1))).
    { replace (- e) with (1 + (- (e + 1))) by lia.
      rewrite Z.pow_add_r by lia. change (2 ^ 53) with (2 ^ 1 * 2 ^ 52).
      apply Z.div_mul_cancel_l; [|lia].
      apply Z.pow_nonzero; lia. }
    rewrite E.
    destruct (Z.leb_spec 0 (e + 1)) as [Hz | Hn].
    + assert (e + 1 = 0) by lia.
      replace (e + 1) with 0 by lia. cbn [Z.opp].
      now rewrite Z.pow_0_r, Z.mul_1_r, Z.div_1_r.
    + reflexivity.
Qed.

(** The quotient of two integers below [2^53], rounded and floored, stays
    between the integer bounds of the exact quotient. *)
Lemma quotient_floor_within (s t lo hi : Z) :
  0 < t -> 0 < lo -> lo * t <= s <= hi * t -> s < 2 ^ 53 -> hi < 2 ^ 53 ->
  exists k, floor (div (of_Z s) (of_Z t)) = of_Z k /\ lo <= k <= hi.
Proof.
  intros Ht Hlo Hs Hs53 Hhi.
  assert (Hs0 : 0 < s < 2 ^ 53) by nia.
  assert (Ht53 : 0 < t < 2 ^ 53) by nia.
  unfold div, of_Z at 1 2.
  rewrite !of_Z_normal by assumption.
  destruct (mant_scale s Hs0) as (a & Ha & Ems & Ees).
  destruct (mant_scale t Ht53) as (b & Hb & Emt & Eet).
  pose proof (mant_range s Hs0) as Rs. pose proof (mant_range t Ht53) as Rt.
  rewrite SFdiv_normal; rewrite ?Z2Pos.id by lia; try lia.
  rewrite Ees, Eet.
  set (ms := mant s) in *. set (mt := mant t) in *.
  set (q := ms * 2 ^ 53 / mt). set (r := (ms * 2 ^ 53) mod mt).
  assert (Hdiv : ms * 2 ^ 53 = mt * q + r) by (apply Z.div_mod; lia).
  assert (Hr : 0 <= r < mt) by (apply Z.mod_pos_bound; lia).
  assert (HA : 0 < 2 ^ a) by (apply Z.pow_pos_nonneg; lia).
  assert (HB : 0 < 2 ^ b) by (apply Z.pow_pos_nonneg; lia).
  assert (Hq : 2 ^ 52 <= q < 2 ^ 54).
  { split; [apply Z.div_le_lower_bound | apply Z.div_lt_upper_bound]; lia. }
  set (e0 := - a - - b - 53).
  (* the scale that turns the bounds into bounds on the mantissa *)
  set (d1 := 52 + a - b).
  assert (Hd1 : 0 <= d1) by (unfold d1; lia).
  set (D1 := 2 ^ d1).
  assert (HD1 : 0 < D1) by (apply Z.pow_pos_nonneg; lia).
  assert (ED : 2 ^ (- e0) = 2 * D1).
  { unfold e0, D1, d1. replace (- (- a - - b - 53)) with (1 + (52 + a - b)) by lia.
    now rewrite Z.pow_add_r by lia. }
  assert (Escale : D1 * 2 ^ b = 2 ^ 52 * 2 ^ a).
  { unfold D1, d1. rewrite <- !Z.pow_add_r by lia. f_equal. lia. }
  set (c := 2 * 2 ^ 52 * 2 ^ a).
  assert (Hc : 0 < c) by (unfold c; lia).
  assert (E1 : forall x, mt * (x * (2 * D1)) = x * t * c).
  { intros x. rewrite Emt. unfold c.
    transitivity (x * t * (2 * (D1 * 2 ^ b))); [ring | rewrite Escale; ring]. }
  assert (E2 : ms * 2 ^ 53 = s * c).
  { rewrite Ems. unfold c. change (2 ^ 53) with (2 * 2 ^ 52). ring. }
  assert (HL : lo * (2 * D1) <= q).
  { apply Z.div_le_lower_bound; [lia|].
    rewrite E1, E2. apply Z.mul_le_mono_nonneg_r; lia. }
  assert (HH : q <= hi * (2 * D1)).
  { apply Z.div_le_upper_bound; [lia|].
    rewrite E1, E2. apply Z.mul_le_mono_nonneg_r; lia. }
  assert (Hexact : q = hi * (2 * D1) -> r = 0).
  { intros Eq.
    assert (ms * 2 ^ 53 <= mt * (hi * (2 * D1)))
      by (rewrite E1, E2; apply Z.mul_le_mono_nonneg_r; lia).
    rewrite <- Eq in *. lia. }
  destruct (Z.lt_ge_cases ms mt) as [Hlt | Hge].
  - (* the quotient has 53 digits *)
    assert (Hq53 : q < 2 ^ 53) by (apply Z.div_lt_upper_bound; lia).
    rewrite binary_round_aux_53 by (unfold e0; lia).
    set (m' := round_nearest_even q (new_location mt r)).
    assert (Hm' : lo * (2 * D1) <= m' <= hi * (2 * D1)).
    { pose proof (round_nearest_even_range q (new_location mt r)) as Hrne.
      fold m' in Hrne. split; [lia|].
      destruct (Z.eq_dec q (hi * (2 * D1))) as [Eq | Nq]; [|lia].
      unfold m'. rewrite (Hexact Eq), new_location_eq. cbn [Z.eqb].
      rewrite round_nearest_even_exact. lia. }
    pose proof (round_nearest_even_range q (new_location mt r)) as Hrne. fold m' in Hrne.
    rewrite floor_settle by (unfold e0; lia).
    fold e0. rewrite ED.
    exists (m' / (2 * D1)). split; [reflexivity|]. split.
    + apply Z.div_le_lower_bound; lia.
    + apply Z.div_le_upper_bound; lia.
  - (* the quotient has 54 digits *)
    assert (Hq53 : 2 ^ 53 <= q) by (apply Z.div_le_lower_bound; lia).
    rewrite binary_round_aux_54 by (unfold e0; lia). cbv zeta.
    set (l' := loc_of_shr_record (shr_1 (shr_record_of_loc q (new_location mt r)))).
    set (m' := round_nearest_even (q / 2) l').
    pose proof (round_nearest_even_range (q / 2) l') as Hrne. fold m' in Hrne.
    assert (Hhalf : lo * D1 <= q / 2 <= hi * D1).
    { split; [apply Z.div_le_lower_bound | apply Z.div_le_upper_bound]; lia. }
    assert (Hq2 : 2 ^ 52 <= q / 2 < 2 ^ 53).
    { change (2 ^ 53) with (2 * 2 ^ 52) in Hq53. change (2 ^ 54) with (2 * 2 ^ 53) in Hq.
      split; [apply Z.div_le_lower_bound | apply Z.div_lt_upper_bound]; lia. }
    assert (Hm' : lo * D1 <= m' <= hi * D1).
    { split; [lia|].
      destruct (Z.eq_dec (q / 2) (hi * D1)) as [Eq | Nq]; [|lia].
      assert (Hq2' : 2 * (q / 2) <= q) by (apply Z.mul_div_le; lia).
      assert (Eq' : q = hi * (2 * D1)) by lia.
      unfold m', l'. rewrite (Hexact Eq'), new_location_eq. cbn [Z.eqb].
      rewrite halved_exact; [rewrite round_nearest_even_exact; lia | lia |].
      rewrite Eq'. rewrite Z.mul_assoc, (Z.mul_comm hi 2), <- Z.mul_assoc.
      apply Z.even_mul. }
    assert (ED1 : 2 ^ (- (e0 + 1)) = D1).
    { unfold e0, D1, d1. f_equal. lia. }
    rewrite floor_settle.
    + rewrite ED1. exists (m' / D1). split; [reflexivity|]. split.
      * apply Z.div_le_lower_bound; lia.
      * apply Z.div_le_upper_bound; lia.
    + lia.
    + unfold e0. lia.
    + intros E0. rewrite E0 in ED1. cbn in ED1. rewrite <- ED1 in Hm'. lia.
Qed.

End FloorFacts.

(* ====================================================================== *)
(** ** The averages of the result *)
(* ====================================================================== *)

Section AverageFacts.
Import Types Interview JsNumber Ranges.

Lemma sum_from (f : Response.t -> Z) (responses : list Response.t) (acc : Z) :
  fold_left (fun sum r => sum + f r) responses acc
  = acc + fold_left (fun sum r => sum + f r) responses 0.
Proof.
  revert acc. induction responses as [|r responses IH]; intros acc; cbn [fold_left].
  - lia.
  - rewrite IH, (IH (0 + f r)). lia.
Qed.

Lemma sum_within (f : Response.t -> Z) (lo hi : Z) (responses : list Response.t) :
  Forall (fun r => lo <= f r <= hi) responses ->
  lo * Z.of_nat (List.length responses)
  <= fold_left (fun sum r => sum + f r) responses 0
  <= hi * Z.of_nat (List.length responses).
Proof.
  induction 1 as [|r responses Hr _ IH]; cbn [fold_left List.length]; [lia|].
  rewrite sum_from. lia.
Qed.

(** The floored average of integers that lie between [lo] and [hi]. *)
Lemma floor_average_within (f : Response.t -> Z) (lo hi : Z)
      (responses : list Response.t) :
  0 < lo -> hi <= 100 ->
  responses <> [] -> Z.of_nat (List.length responses) < 2 ^ 46 ->
  Forall (fun r => lo <= f r <= hi) responses ->
  wholeWithin lo hi (floor (average f responses)).
Proof.
  intros Hlo Hhi Hne Hlen Hf. unfold wholeWithin, average.
  pose proof (sum_within f lo hi responses Hf) as Hsum.
  assert (Hn : 0 < Z.of_nat (List.length responses))
    by (destruct responses; [congruence | cbn; lia]).
  apply quotient_floor_within; try assumption; try lia.
  change (2 ^ 46) with 70368744177664 in Hlen.
  change (2 ^ 53) with 9007199254740992. nia.
Qed.

Lemma inRange_weaken (n m : nat) (st : State) :
  (n <= m)%nat -> inRange n st -> inRange m st.
Proof.
  intros Hnm H s Es. destruct (H s Es) as [Hr Hl]. split; [exact Hr | lia].
Qed.

Lemma inRange_invoke (RegExp_i : RegExp.engine) (n : nat) (render st : State) (c : Call) :
  inRange n render -> inRange n st -> inRange (S n) (invoke RegExp_i render st c).
Proof.
  intros Hr H.
  assert (Hst : inRange (S n) st) by (apply (inRange_weaken n); [lia | exact H]).
  unfold inRange. intros s.
  assert (Hkeep : forall s0, currentSession render = Some s0 ->
                    Session.responses s = Session.responses s0 ->
                    Forall scoresInRange (Session.responses s) /\
                    (List.length (Session.responses s) <= S n)%nat).
  { intros s0 Es0 ->. destruct (Hr s0 Es0). split; [assumption | lia]. }
  destruct c as [env id createdAt startTime studentInfo jd
                | draws questionId answer duration audioBlob | | now | draws now];
    cbn [invoke].
  - cbn. intros [= <-]. cbn. split; [constructor | lia].
  - unfold submitResponse.
    destruct (currentSession render) as [s0|] eqn:Es; [|apply Hst].
    destruct (hasRelevantKeywords RegExp_i (Session.jobDescription s0) answer)
      as [relevant|]; [|apply Hst].
    cbn. intros [= <-]. cbn [withResponses Session.responses].
    destruct (Hr s0 Es) as [Hrange Hl]. split.
    + apply Forall_app. split; [exact Hrange|]. constructor; [|constructor].
      unfold scoresInRange.
      cbn [buildResponse Response.confidence Response.clarity Response.relevanceScore].
      split; [apply confidenceScore_bounds|].
      split; [apply clarityScore_bounds|].
      pose proof (relevance_bounds (hasSpecificExamples answer)
                                   (hasQuantifiableResults answer) relevant).
      lia.
    + rewrite length_app. cbn. lia.
  - rewrite nextQuestion_session. apply Hst.
  - unfold stopInterview.
    destruct (currentSession render) as [s0|] eqn:Es; cbn; [|apply Hst].
    intros [= <-]. now apply (Hkeep s0).
  - unfold completeInterview.
    destruct (currentSession render) as [s0|] eqn:Es; cbn; [|apply Hst].
    destruct (Session.responses s0) eqn:Er; cbn; [apply Hst|].
    intros [= <-]. apply (Hkeep s0); [reflexivity|]. cbn. now rewrite Er.
Qed.

Lemma inRange_replay (RegExp_i : RegExp.engine) (invocations : list Invocation)
      (n : nat) (renders : list State) :
  Forall (inRange n) renders ->
  Forall (inRange (n + List.length invocations)) (replay RegExp_i renders invocations).
Proof.
  revert n renders. induction invocations as [|i invocations IH]; intros n renders H.
  - cbn. now rewrite Nat.add_0_r.
  - cbn [replay fold_left List.length].
    replace (n + S (List.length invocations))%nat
      with (S n + List.length invocations)%nat by lia.
    apply IH. unfold invokeThrough.
    assert (H0 : inRange n initial) by (intros s Es; discriminate Es).
    constructor.
    + apply inRange_invoke; [now apply Forall_nth; [|unfold latest; apply Forall_hd]
                            | unfold latest; now apply Forall_hd].
    + eapply Forall_impl; [|exact H]. intros st. apply inRange_weaken. lia.
Qed.

End AverageFacts.

(** X22.  Fewer than 2^46 calls having been made, through the callbacks of
    whatever renders, every result that [completeInterview] returns
    reports, as floored averages computed in binary64, a confidence that is
    a whole number from 70 to 100, a clarity from 75 to 100 and a response
    quality from 60 to 100: rounding the quotient never takes an average
    out of the range of the scores it averages.  The emotional
    intelligence, 70 plus the floor of the binary64 product of a draw and
    25, is a whole number from 70 to 94. *)
Theorem reported_averages_stay_in_range
        (RegExp_i : RegExp.engine) (invocations : list Interview.Invocation)
        (render st : Interview.State)
        (draws : Interview.CompletionDraws) (now : Z) (result : Types.Result.t) :
  In render (Interview.replay RegExp_i Interview.mounted invocations) ->
  Z.of_nat (List.length invocations) < 2 ^ 46 ->
  snd (Interview.completeInterview draws now render st) = Some result ->
  Ranges.wholeWithin 70 100
    (Types.Result.confidence (Types.Result.categoryScores result)) /\
  Ranges.wholeWithin 75 100
    (Types.Result.clarity (Types.Result.categoryScores result)) /\
  Ranges.wholeWithin 60 100
    (Types.Result.responseQuality (Types.Result.detailedAnalysis result)) /\
  Ranges.wholeWithin 70 94
    (Types.Result.emotionalIntelligence (Types.Result.categoryScores result)).
Proof.
  intros Hin Hlen Hr.
  assert (H : Ranges.inRange (0 + List.length invocations) render).
  { assert (HF : Forall (Ranges.inRange (0 + List.length invocations))
                        (Interview.replay RegExp_i Interview.mounted invocations)).
    { apply inRange_replay. constructor; [|constructor].
      intros s Es. discriminate Es. }
    rewrite Forall_forall in HF. now apply HF. }
  unfold Interview.completeInterview in Hr.
  destruct (Interview.currentSession render) as [s|] eqn:Es; [|discriminate].
  destruct (H s Es) as [Hrange Hcount].
  destruct (Types.Session.responses s) as [|r rs] eqn:Er; [discriminate|].
  cbn in Hr. injection Hr as <-.
  cbn [Types.Result.categoryScores Types.Result.detailedAnalysis
       Types.Result.confidence Types.Result.clarity Types.Result.responseQuality
       Types.Result.emotionalIntelligence Interview.buildResult].
  rewrite Er.
  assert (Hne : r :: rs <> []) by discriminate.
  assert (Hn : Z.of_nat (List.length (r :: rs)) < 2 ^ 46) by lia.
  split; [|split; [|split]].
  - apply floor_average_within; try assumption; try lia.
    eapply Forall_impl; [|exact Hrange]. intros x (Hx & _ & _). exact Hx.
  - apply floor_average_within; try assumption; try lia.
    eapply Forall_impl; [|exact Hrange]. intros x (_ & Hx & _). exact Hx.
  - apply floor_average_within; try assumption; try lia.
    eapply Forall_impl; [|exact Hrange]. intros x (_ & _ & Hx).
    unfold Interview.relevanceOr70.
    destruct (Z.eqb_spec (Types.Response.relevanceScore x) 0); lia.
  - eexists. split; [reflexivity|].
    pose proof (randomBelow_range 25 (Interview.emotionalDraw draws) ltac:(cbn; lia)).
    lia.
Qed.

Lemma reported_averages_stay_in_range_witness :
  Ranges.wholeWithin 70 100
    (Types.Result.confidence (Types.Result.categoryScores Scenarios.aResult)) /\
  Ranges.wholeWithin 75 100
    (Types.Result.clarity (Types.Result.categoryScores Scenarios.aResult)) /\
  Ranges.wholeWithin 60 100
    (Types.Result.responseQuality (Types.Result.detailedAnalysis Scenarios.aResult)) /\
  Ranges.wholeWithin 70 94
    (Types.Result.emotionalIntelligence
       (Types.Result.categoryScores Scenarios.aResult)).
Proof.
  refine (reported_averages_stay_in_range RegExp.reference_RegExp_i
            (List.map (Interview.through 0) Scenarios.answeredOnce)
            (Interview.run RegExp.reference_RegExp_i Interview.initial
                           Scenarios.answeredOnce)
            Interview.initial
            Samples.completionDraws 61000 Scenarios.aResult _ _ _).
  - left. vm_compute. reflexivity.
  - reflexivity.
  - vm_compute. reflexivity.
Defined.
